(** * gbp-reviews-daily: a shallow embedding of [scripts/gbp-reviews-daily.js]

    The script harvests yesterday's Google Business Profile reviews for every
    location of an account, mints a reply reference per review and forwards
    the records to a webhook in batches.

    The first half of this file embeds the functions of the script; the
    second half states and proves their properties. *)

From Stdlib Require Import ZArith List Bool Lia String Ascii NArith DecimalString.
From Stdlib Require Import Sorted Permutation.
From Stdlib Require QArith.
Import ListNotations.

Local Open Scope Z_scope.

(* ================================================================== *)
(** * Part I: the embedding                                            *)
(* ================================================================== *)

(** ** Time: the Luxon operations used by [getYesterdayRangeBerlin]

    A Luxon [DateTime] in a fixed zone is determined by its epoch timestamp
    [ts] in milliseconds: the constructor recomputes the offset as
    [zone.offset(ts)] and the calendar fields as [tsToObj(ts, o)].  The
    calendar fields are represented by the local timestamp
    [objToLocalTS(c) = ts + o * 60000]: its quotient by one day is the
    calendar day number, its remainder the time of day. *)

Module Luxon.

Definition MS_PER_MINUTE : Z := 60000.
Definition MS_PER_HOUR : Z := 3600000.
Definition MS_PER_DAY : Z := 86400000.

Section Zone.

(** Central European rules: the clock changes at 01:00 UTC, so the
    offset is constant on every interval
    [[k * day + 1h, (k + 1) * day + 1h)] of UTC time.  [dst k] tells
    whether summer time is in force on the interval of index [k]. *)
Variable dst : Z -> bool.

(** [zone.offset(ts)], in minutes. *)
Definition offset (ts : Z) : Z :=
  if dst ((ts - MS_PER_HOUR) / MS_PER_DAY) then 120 else 60.

(** [fixOffset(localTS, o, tz)]: find the timestamp and offset of a
    local time, [o] being the guess. *)
Definition fixOffset (localTS o : Z) : Z * Z :=
  let utcGuess := localTS - o * MS_PER_MINUTE in
  let o2 := offset utcGuess in
  if o =? o2 then (utcGuess, o)
  else
    let utcGuess' := utcGuess - (o2 - o) * MS_PER_MINUTE in
    let o3 := offset utcGuess' in
    if o2 =? o3 then (utcGuess', o2)
    else (localTS - Z.min o2 o3 * MS_PER_MINUTE, Z.max o2 o3).

(** [objToLocalTS(dt.c)] *)
Definition localTS (ts : Z) : Z := ts + offset ts * MS_PER_MINUTE.

(** The calendar day of a [DateTime], as a day number. *)
Definition localDay (ts : Z) : Z := localTS ts / MS_PER_DAY.

(** The time of day of a [DateTime], in milliseconds since local
    midnight. *)
Definition localMillisOfDay (ts : Z) : Z := localTS ts mod MS_PER_DAY.

(** [adjustTime(inst, dur)] for a duration of [days] days and [millis]
    milliseconds. *)
Definition adjustTime (ts days millis : Z) : Z :=
  let oPre := offset ts in
  let c := localTS ts + days * MS_PER_DAY in
  let ts' := fst (fixOffset c oPre) in
  if millis =? 0 then ts' else ts' + millis.

(** [dt.plus({ days })] and [dt.minus({ days })] *)
Definition plusDays (ts days : Z) : Z := adjustTime ts days 0.
Definition minusDays (ts days : Z) : Z := adjustTime ts (- days) 0.

(** [dt.minus(ms)] for a number of milliseconds *)
Definition minusMillis (ts ms : Z) : Z := adjustTime ts 0 (- ms).

(** [dt.set({ hour: 0, minute: 0, second: 0, millisecond: 0 })],
    which is [dt.startOf("day")]. *)
Definition startOfDay (ts : Z) : Z :=
  fst (fixOffset (localDay ts * MS_PER_DAY) (offset ts)).

(** [dt.endOf("day")] is [dt.plus({ day: 1 }).startOf("day").minus(1)]. *)
Definition endOfDay (ts : Z) : Z :=
  minusMillis (startOfDay (plusDays ts 1)) 1.

(** [getYesterdayRangeBerlin()], with [DateTime.now()] as argument. *)
Definition getYesterdayRange (now : Z) : Z * Z :=
  let y := minusDays now 1 in
  let start := startOfDay y in
  let end_ := endOfDay y in
  (start, end_).

End Zone.

(** *** The calendar of Europe/Berlin *)

(** Days since 1970-01-01 of a civil date (proleptic Gregorian). *)
Definition daysFromCivil (y m d : Z) : Z :=
  let y' := if m <=? 2 then y - 1 else y in
  let era := y' / 400 in
  let yoe := y' - era * 400 in
  let mp := (m + 9) mod 12 in
  let doy := (153 * mp + 2) / 5 + d - 1 in
  let doe := yoe * 365 + yoe / 4 - yoe / 100 + doy in
  era * 146097 + doe - 719468.

(** The civil year of a day number. *)
Definition yearOfDay (z : Z) : Z :=
  let z' := z + 719468 in
  let era := z' / 146097 in
  let doe := z' - era * 146097 in
  let yoe := (doe - doe / 1460 + doe / 36524 - doe / 146096) / 365 in
  let doy := doe - (365 * yoe + yoe / 4 - yoe / 100) in
  let mp := (5 * doy + 2) / 153 in
  let m := if mp <? 10 then mp + 3 else mp - 9 in
  let y := yoe + era * 400 in
  if m <=? 2 then y + 1 else y.

(** The last Sunday on or before a day (1970-01-01 was a Thursday). *)
Definition lastSundayUpTo (day : Z) : Z := day - (day + 4) mod 7.

(** Summer time in Europe/Berlin (the rule in force since 1996): from
    01:00 UTC on the last Sunday of March to 01:00 UTC on the last Sunday
    of October. *)
Definition berlinDST (k : Z) : bool :=
  let y := yearOfDay k in
  (lastSundayUpTo (daysFromCivil y 3 31) <=? k)
  && (k <? lastSundayUpTo (daysFromCivil y 10 31)).

Definition getYesterdayRangeBerlin (now : Z) : Z * Z :=
  getYesterdayRange berlinDST now.

End Luxon.

(** ** JavaScript strings

    A string is the list of its UTF-16 code units. *)

Module Js.

Definition jsstring : Type := list N.

(** An ASCII literal. *)
Definition js (s : string) : jsstring :=
  map N_of_ascii (list_ascii_of_string s).

(** Truthiness of a string: only the empty string is falsy. *)
Definition truthy (s : jsstring) : bool :=
  match s with [] => false | _ :: _ => true end.

(** [a || b] on strings *)
Definition or (a b : jsstring) : jsstring := if truthy a then a else b.

(** [x || ""] where [x] is a string or absent *)
Definition orEmpty (x : option jsstring) : jsstring :=
  match x with Some s => s | None => [] end.

(** [s || null] *)
Definition orNull (s : jsstring) : option jsstring :=
  if truthy s then Some s else None.

(** White space and line terminators, as [String.prototype.trim]
    removes them. *)
Definition isWhiteSpace (c : N) : bool :=
  ((9 <=? c) && (c <=? 13) || (c =? 32) || (c =? 160) || (c =? 5760)
   || (8192 <=? c) && (c <=? 8202) || (c =? 8232) || (c =? 8233)
   || (c =? 8239) || (c =? 8287) || (c =? 12288) || (c =? 65279))%N.

Fixpoint trimStart (s : jsstring) : jsstring :=
  match s with
  | [] => []
  | c :: s' => if isWhiteSpace c then trimStart s' else s
  end.

Definition trimEnd (s : jsstring) : jsstring := rev (trimStart (rev s)).

Definition trim (s : jsstring) : jsstring := trimEnd (trimStart s).

Fixpoint startsWith (m t : jsstring) : bool :=
  match m, t with
  | [], _ => true
  | _ :: _, [] => false
  | a :: m', b :: t' => (a =? b)%N && startsWith m' t'
  end.

(** [t.indexOf(m)], with [None] for [-1]. *)
Fixpoint indexOf (t m : jsstring) : option nat :=
  if startsWith m t then Some O
  else match t with
       | [] => None
       | _ :: t' => option_map S (indexOf t' m)
       end.

(** [t.slice(0, idx)] for an index [idx >= 0] *)
Definition slice0 (t : jsstring) (idx : nat) : jsstring := firstn idx t.

(** [s.split("/").pop()]: what follows the last slash. *)
Fixpoint lastSegmentFrom (acc s : jsstring) : jsstring :=
  match s with
  | [] => acc
  | c :: s' =>
      if (c =? 47)%N then lastSegmentFrom [] s'
      else lastSegmentFrom (acc ++ [c]) s'
  end.

Definition lastSegment (s : jsstring) : jsstring := lastSegmentFrom [] s.

(** [String(n)] for an integer *)
Definition numToString (z : Z) : jsstring :=
  js (NilZero.string_of_int (Z.to_int z)).

(** *** Numbers

    A JavaScript number is [NaN], an infinity or a finite double; [F]
    is the type the finite values are taken from.  [Number(text)] is
    [NaN] when the text is not a number. *)
Inductive Number (F : Type) : Type :=
| NaN
| NegInf
| Finite (x : F)
| PosInf.

Arguments NaN {F}.
Arguments NegInf {F}.
Arguments Finite {F} x.
Arguments PosInf {F}.

(** A number that is only compared: every finite double is a
    rational, and the comparisons of doubles are those of their
    values. *)
Definition Limit : Type := Number QArith_base.Q.

Definition ofZ (z : Z) : Limit := Finite (QArith_base.inject_Z z).

(** [x <= n] for an integer [n], which is also [n >= x]; a comparison
    with [NaN] is false. *)
Definition leInt (x : Limit) (n : Z) : bool :=
  match x with
  | NaN => false
  | NegInf => true
  | Finite q => QArith_base.Qle_bool q (QArith_base.inject_Z n)
  | PosInf => false
  end.

(** A number that is not fractional: [NaN], an infinity or an
    integer.  The additions of [chunkArray] on such numbers are taken
    as exact: while the loop runs its index is below the length of the
    array, and a sum that a double would round lies beyond that
    length, where only its lying beyond it matters. *)
Definition Integral : Type := Number Z.

(** [a <= b] *)
Definition numLeb (a b : Integral) : bool :=
  match a, b with
  | NaN, _ | _, NaN => false
  | NegInf, _ => true
  | _, PosInf => true
  | Finite x, Finite y => x <=? y
  | _, _ => false
  end.

(** [a < b] *)
Definition numLtb (a b : Integral) : bool :=
  match a, b with
  | NaN, _ | _, NaN => false
  | NegInf, NegInf => false
  | PosInf, _ => false
  | NegInf, _ => true
  | _, NegInf => false
  | Finite x, Finite y => x <? y
  | Finite _, PosInf => true
  end.

(** [a + b] *)
Definition numAdd (a b : Integral) : Integral :=
  match a, b with
  | NaN, _ | _, NaN => NaN
  | PosInf, NegInf | NegInf, PosInf => NaN
  | PosInf, _ | _, PosInf => PosInf
  | NegInf, _ | _, NegInf => NegInf
  | Finite x, Finite y => Finite (x + y)
  end.

(** *** Errors

    Every value the script throws or catches is an instance of a
    built-in error class: its own [new Error(...)], the [TypeError] of a
    failed [fetch] or body read, the [SyntaxError] of [JSON.parse]. *)

Inductive ErrorClass : Type := Error | TypeError | SyntaxError | RangeError.

Record JsError : Type := { err_class : ErrorClass; err_message : jsstring }.

(** [e.name] *)
Definition err_name (e : JsError) : jsstring :=
  match err_class e with
  | Error => js "Error"
  | TypeError => js "TypeError"
  | SyntaxError => js "SyntaxError"
  | RangeError => js "RangeError"
  end.

(** [new Error(msg)] *)
Definition newError (msg : jsstring) : JsError :=
  {| err_class := Error; err_message := msg |}.

(** [new TypeError(msg)] *)
Definition newTypeError (msg : jsstring) : JsError :=
  {| err_class := TypeError; err_message := msg |}.

(** [String(e)], which is [Error.prototype.toString] *)
Definition errorToString (e : JsError) : jsstring :=
  if negb (truthy (err_name e)) then err_message e
  else if negb (truthy (err_message e)) then err_name e
  else err_name e ++ js ": " ++ err_message e.

(** The outcome of a computation that may throw. *)
Inductive Result (A : Type) : Type :=
| Ok (a : A)
| Throw (e : JsError).

Arguments Ok {A} a.
Arguments Throw {A} e.

End Js.

Import Js.

(** ** HTTP helpers *)

Module Http.

(** What the script reads from a [fetch] response: [res.status],
    [res.statusText], the outcome of [res.text()], and the outcome of
    decoding the body as the JSON document [J] the endpoint returns
    ([res.json()], or [JSON.parse] of the text followed by the field
    accesses of the caller). *)
Record Response (J : Type) : Type := {
  status : Z;
  statusText : jsstring;
  text : Result jsstring;
  json : Result J
}.

Arguments status {J} _.
Arguments statusText {J} _.
Arguments text {J} _.
Arguments json {J} _.

(** [res.ok] *)
Definition ok {J} (res : Response J) : bool :=
  (200 <=? status res) && (status res <=? 299).

(** One call of [fetch]: it resolves with a response or rejects with a
    [TypeError] (a network failure). *)
Inductive FetchOutcome (J : Type) : Type :=
| Resolved (res : Response J)
| Rejected (msg : jsstring).

Arguments Resolved {J} res.
Arguments Rejected {J} msg.

(** The successive outcomes of the [fetch] calls one request makes. *)
Definition Fetch (J : Type) : Type := nat -> FetchOutcome J.

(** [[429, 500, 502, 503, 504].includes(status)] *)
Definition retryStatuses : list Z := [429; 500; 502; 503; 504].

Definition isRetryStatus (st : Z) : bool := existsb (Z.eqb st) retryStatuses.

(** [res.text().catch(() => "")] *)
Definition textOrEmpty {J} (res : Response J) : jsstring :=
  match text res with Ok t => t | Throw _ => [] end.

Definition httpError {J} (res : Response J) : JsError :=
  newError (js "HTTP " ++ numToString (status res) ++ js " "
            ++ statusText res ++ js ": " ++ textOrEmpty res).

(** What [requestWithRetry] did: its outcome, the number of [fetch]
    calls, and the delays it slept, in order. *)
Record Attempted (A : Type) : Type := {
  outcome : Result A;
  attempts : nat;
  sleeps : list Z
}.

Arguments outcome {A} _.
Arguments attempts {A} _.
Arguments sleeps {A} _.

(** The [for] loop of [requestWithRetry], from iteration [i] with
    [remaining = retries - i] iterations left. *)
Fixpoint retryLoop {J} (fetch : Fetch J) (baseBackoffMs : Z)
    (remaining i : nat) (lastErr : option JsError) (slept : list Z)
    : Attempted (Response J) :=
  match remaining with
  | O =>
      {| outcome :=
           Throw (match lastErr with
                  | Some e => e
                  | None => newError (js "requestWithRetry failed")
                  end);
         attempts := i;
         sleeps := slept |}
  | S remaining' =>
      match fetch i with
      | Resolved res =>
          if isRetryStatus (status res) then
            retryLoop fetch baseBackoffMs remaining' (S i)
              (Some (httpError res))
              (slept ++ [baseBackoffMs * 2 ^ Z.of_nat i])
          else
            {| outcome := Ok res; attempts := S i; sleeps := slept |}
      | Rejected msg =>
          retryLoop fetch baseBackoffMs remaining' (S i)
            (Some (newTypeError msg))
            (slept ++ [baseBackoffMs * 2 ^ Z.of_nat i])
      end
  end.

Definition requestWithRetryOpts {J} (fetch : Fetch J)
    (retries : nat) (baseBackoffMs : Z) : Attempted (Response J) :=
  retryLoop fetch baseBackoffMs retries 0 None [].

(** [requestWithRetry(url, options)] with the default
    [{ retries = 4, baseBackoffMs = 800 }]. *)
Definition requestWithRetry {J} (fetch : Fetch J) : Attempted (Response J) :=
  requestWithRetryOpts fetch 4 800.

(** [getJson(url, { headers, params })]; [url] is [u.toString()]. *)
Definition getJson {J} (url : jsstring) (fetch : Fetch J) : Result J :=
  match outcome (requestWithRetry fetch) with
  | Throw e => Throw e
  | Ok res =>
      if negb (ok res) then
        Throw (newError (js "GET " ++ url ++ js " -> "
                         ++ numToString (status res) ++ js ": "
                         ++ textOrEmpty res))
      else json res
  end.

(** *** Vocabulary of the retry contract *)

(** The outcomes after which [requestWithRetry] tries again. *)
Definition retryable {J} (o : FetchOutcome J) : bool :=
  match o with
  | Resolved res => isRetryStatus (status res)
  | Rejected _ => true
  end.

(** The error [requestWithRetry] remembers for a failed attempt. *)
Definition errorOf {J} (o : FetchOutcome J) : JsError :=
  match o with
  | Resolved res => httpError res
  | Rejected msg => newTypeError msg
  end.

(** The delays slept after the attempts [i, i + 1, ..., i + n - 1]. *)
Definition backoffs (baseBackoffMs : Z) (i n : nat) : list Z :=
  map (fun k => baseBackoffMs * 2 ^ Z.of_nat k) (seq i n).

End Http.

Import Http.

(** ** Reviews: My Business API v4 *)

Module Reviews.

Record Reviewer : Type := {
  displayName : option jsstring;
  profileName : option jsstring
}.

(** A review as the API returns it; an absent field is [None]. *)
Record RawReview : Type := {
  name : option jsstring;
  createTime : option jsstring;
  starRating : option jsstring;
  reviewer : option Reviewer;
  comment : option jsstring
}.

(** The JSON document of one page of reviews. *)
Record ReviewsPage : Type := {
  reviews : option (list RawReview);
  nextPageToken : option jsstring
}.

(** How a call of [listReviewsForLocation] ended: it returned [out], it
    threw, or the loop was still running when the fuel ran out, with
    [out] as accumulated so far. *)
Inductive Harvest : Type :=
| Returned (out : list RawReview)
| Thrown (e : JsError)
| Unfinished (out : list RawReview).

Section ListReviews.

(** [DateTime.fromISO(ct, { setZone: true }).setZone(TZ).toMillis()];
    [None] stands for the [NaN] of an invalid date. *)
Variable fromISO : jsstring -> option Z.

(** The URL of a page request, from the page token. *)
Variable reviewsUrl : jsstring -> jsstring.

(** [pages k pageToken] gives the outcomes of the [fetch] calls of the
    page request number [k] of this location, sent with [pageToken]. *)
Variable pages : nat -> jsstring -> Fetch ReviewsPage.

(** [startBerlin.toMillis()] and [endBerlin.toMillis()] *)
Variables startMs endMs : Z.

(** [dtBerlin.toMillis() >= startBerlin.toMillis()]; a comparison
    with [NaN] is false. *)
Definition geStart (ct : jsstring) : bool :=
  match fromISO ct with
  | Some ms => startMs <=? ms
  | None => false
  end.

Definition leEnd (ct : jsstring) : bool :=
  match fromISO ct with
  | Some ms => ms <=? endMs
  | None => false
  end.

(** One iteration of [for (const r of reviews)], on the pair
    [(anyGeStart, out)]. *)
Definition scanReview (st : bool * list RawReview) (r : RawReview)
    : bool * list RawReview :=
  let '(anyGeStart, out) := st in
  match createTime r with
  | None => st
  | Some ct =>
      if negb (truthy ct) then st
      else
        let anyGeStart' := if geStart ct then true else anyGeStart in
        let out' := if geStart ct && leEnd ct then out ++ [r] else out in
        (anyGeStart', out')
  end.

Definition scanPage (out : list RawReview) (rs : list RawReview)
    : bool * list RawReview :=
  fold_left scanReview rs (false, out).

(** The [do ... while (pageToken)] loop of [listReviewsForLocation],
    entering iteration number [k]; the second component lists the
    page tokens requested, in order. *)
Fixpoint harvestLoop (fuel k : nat) (out : list RawReview)
    (pageToken : jsstring) (pagesBelowCutoff : Z)
    : Harvest * list jsstring :=
  match fuel with
  | O => (Unfinished out, [])
  | S fuel' =>
      match getJson (reviewsUrl pageToken) (pages k pageToken) with
      | Throw e => (Thrown e, [pageToken])
      | Ok j =>
          let rs := match reviews j with Some l => l | None => [] end in
          if (List.length rs =? 0)%nat then (Returned out, [pageToken])
          else
            let '(anyGeStart, out') := scanPage out rs in
            let pagesBelowCutoff' :=
              if negb anyGeStart then pagesBelowCutoff + 1 else 0 in
            if 2 <=? pagesBelowCutoff' then (Returned out', [pageToken])
            else
              let pageToken' := orEmpty (nextPageToken j) in
              if truthy pageToken' then
                let '(h, toks) :=
                  harvestLoop fuel' (S k) out' pageToken' pagesBelowCutoff' in
                (h, pageToken :: toks)
              else (Returned out', [pageToken])
      end
  end.

Definition listReviewsForLocation (fuel : nat) : Harvest * list jsstring :=
  harvestLoop fuel 0 [] [] 0.

(** *** Vocabulary of the harvesting contract *)

(** The creation time of a review, when it has a non-empty
    [createTime] that is a valid date. *)
Definition createdAt (r : RawReview) : option Z :=
  match createTime r with
  | Some ct => if truthy ct then fromISO ct else None
  | None => None
  end.

Definition atOrAfterStart (r : RawReview) : bool :=
  match createdAt r with
  | Some ms => startMs <=? ms
  | None => false
  end.

Definition inWindow (r : RawReview) : bool :=
  match createdAt r with
  | Some ms => (startMs <=? ms) && (ms <=? endMs)
  | None => false
  end.

(** [j.reviews || []] *)
Definition pageReviews (j : ReviewsPage) : list RawReview :=
  match reviews j with Some l => l | None => [] end.

(** The counter of consecutive pages without a review created at or
    after the start, once page [j] is scanned. *)
Definition staleAfter (pagesBelowCutoff : Z) (j : ReviewsPage) : Z :=
  if existsb atOrAfterStart (pageReviews j) then 0
  else pagesBelowCutoff + 1.

(** Pagination stops after page [j]: the page is empty, or the
    counter has reached 2, or there is no next-page cursor. *)
Definition stopsAfter (pagesBelowCutoff : Z) (j : ReviewsPage) : bool :=
  (List.length (pageReviews j) =? 0)%nat
  || (2 <=? staleAfter pagesBelowCutoff j)
  || negb (truthy (orEmpty (nextPageToken j))).

(** The pagination as the contract words it, from the request number
    [k] sent with [pageToken], the counter being [stale] and the reviews
    kept so far [out]: a request that fails ends it with the error; a
    page that is empty, or brings the counter to 2, or comes without a
    cursor ends it with the reviews kept; any other page is followed by
    the request of the next page with its cursor. *)
Inductive Paginates
    : nat -> jsstring -> Z -> list RawReview -> Harvest * list jsstring -> Prop :=
| paginates_throw k pageToken stale out e :
    getJson (reviewsUrl pageToken) (pages k pageToken) = Throw e ->
    Paginates k pageToken stale out (Thrown e, [pageToken])
| paginates_stop k pageToken stale out j :
    getJson (reviewsUrl pageToken) (pages k pageToken) = Ok j ->
    pageReviews j = [] \/ 2 <= staleAfter stale j
    \/ orEmpty (nextPageToken j) = [] ->
    Paginates k pageToken stale out
      (Returned (out ++ filter inWindow (pageReviews j)), [pageToken])
| paginates_next k pageToken stale out j h toks :
    getJson (reviewsUrl pageToken) (pages k pageToken) = Ok j ->
    pageReviews j <> [] -> staleAfter stale j < 2 ->
    orEmpty (nextPageToken j) <> [] ->
    Paginates (S k) (orEmpty (nextPageToken j)) (staleAfter stale j)
      (out ++ filter inWindow (pageReviews j)) (h, toks) ->
    Paginates k pageToken stale out (h, pageToken :: toks).

(** The reviews of a harvest, returned or accumulated. *)
Definition harvested (h : Harvest) : list RawReview :=
  match h with
  | Returned out => out
  | Thrown _ => []
  | Unfinished out => out
  end.

End ListReviews.

(** [starRatingToInt(star)]; [toUpperCase] is
    [String.prototype.toUpperCase]. *)
Section StarRating.

Variable toUpperCase : jsstring -> jsstring.

(** [{ ONE: 1, TWO: 2, THREE: 3, FOUR: 4, FIVE: 5 }] *)
Definition starMap : list (jsstring * Z) :=
  [ (js "ONE", 1); (js "TWO", 2); (js "THREE", 3);
    (js "FOUR", 4); (js "FIVE", 5) ].

Definition jsstring_eqb (a b : jsstring) : bool :=
  if list_eq_dec N.eq_dec a b then true else false.

(** [map[s]], with [None] for [undefined]: the names inherited from
    [Object.prototype] all contain a lower-case letter, so none is the
    result of [toUpperCase]. *)
Fixpoint lookup (m : list (jsstring * Z)) (s : jsstring) : option Z :=
  match m with
  | [] => None
  | (k, v) :: m' => if jsstring_eqb k s then Some v else lookup m' s
  end.

Definition starRatingToInt (star : option jsstring) : option Z :=
  match star with
  | None => None
  | Some st =>
      if negb (truthy st) then None
      else lookup starMap (toUpperCase st)
  end.

End StarRating.

(** [String.prototype.toUpperCase] on ASCII letters; other code units
    are left as they are. *)
Definition asciiUpper (c : N) : N :=
  if ((97 <=? c) && (c <=? 122))%N then (c - 32)%N else c.

Definition asciiToUpperCase (s : jsstring) : jsstring := map asciiUpper s.

Definition isAscii (c : N) : bool := (c <? 128)%N.

(** ** Comment cleaning *)

Definition translatedByGoogle : jsstring := js "(Translated by Google)".

(** ["(Übersetzt von Google)"]; U+00DC is the code unit 220. *)
Definition uebersetztVonGoogle : jsstring :=
  js "(" ++ [220%N] ++ js "bersetzt von Google)".

Definition markers : list jsstring :=
  [ translatedByGoogle; uebersetztVonGoogle ].

(** The body of [for (const m of markers)] *)
Definition cutAt (t m : jsstring) : jsstring :=
  match indexOf t m with
  | Some idx => trimEnd (slice0 t idx)
  | None => t
  end.

Definition cleanComment (text : option jsstring) : jsstring :=
  let t := trim (orEmpty text) in
  fold_left cutAt markers t.

(** The smaller of two indices, [None] standing for no index. *)
Definition minOpt (a b : option nat) : option nat :=
  match a, b with
  | Some x, Some y => Some (Nat.min x y)
  | Some x, None => Some x
  | None, _ => b
  end.

(** U+2014, the dash of the attribution line *)
Definition emDash : jsstring := [8212%N].

Definition buildCommentFull (comment reviewer reviewedAt : jsstring)
    : jsstring :=
  let base := or (trim comment) (js "(kein Kommentar)") in
  let name := or (trim reviewer) (js "Unbekannt") in
  let suffix := emDash ++ js " " ++ name in
  let suffix := if truthy reviewedAt then suffix ++ js ", am " ++ reviewedAt
                else suffix in
  base ++ [10%N] ++ suffix.

End Reviews.

Import Reviews.

(** ** Configuration *)

Module Env.

(** [ENV].  [CONCURRENCY] is [Number(process.env.CONCURRENCY || "5")],
    which the script only compares with lengths.  [MAKE_BATCH_SIZE] is
    [Number(process.env.MAKE_BATCH_SIZE || "200")] when that is not
    fractional: an integer, an infinity, or [NaN] for a text that is
    not a number.  With a fractional size the additions [i += size]
    of [chunkArray] round as doubles do; such sizes are left out. *)
Record t : Type := {
  GBP_CLIENT_ID : jsstring;
  GBP_CLIENT_SECRET : jsstring;
  GBP_REFRESH_TOKEN : jsstring;
  GBP_ACCOUNT_ID : jsstring;
  PREFILL_API_URL : jsstring;
  PREFILL_SECRET : jsstring;
  PUBLIC_APP_URL : jsstring;
  MAKE_REVIEWS_WEBHOOK_URL : jsstring;
  CONCURRENCY : Limit;
  MAKE_BATCH_SIZE : Integral
}.

(** [mustEnv(key)], given the key and [ENV[key]]. *)
Definition mustEnv (key value : jsstring) : Result jsstring :=
  if negb (truthy value) then Throw (newError (js "Missing env: " ++ key))
  else Ok value.

End Env.

(** ** Locations: Business Information API v1 *)

Module Location.

Record Metadata : Type := {
  mapsUri : option jsstring;
  newReviewUri : option jsstring;
  placeId : option jsstring
}.

Record t : Type := {
  name : option jsstring;
  storeCode : option jsstring;
  title : option jsstring;
  metadata : option Metadata
}.

End Location.

(** ** Prefill API *)

Module Prefill.

(** The JSON document of a prefill response, read for its [rid]. *)
Record PrefillJson : Type := { rid : option jsstring }.

Record Payload : Type := {
  review : jsstring;
  rating : jsstring;
  reviewer : jsstring;
  reviewed_at : jsstring;
  accountId : jsstring;
  locationId : jsstring;
  reviewId : jsstring;
  storeCode : jsstring;
  locationTitle : jsstring;
  maps_uri : jsstring;
  new_review_uri : jsstring;
  place_id : jsstring;
  maps_place_url : jsstring
}.

Definition createPrefillRid (env : Env.t) (fetch : Fetch PrefillJson)
    : Result jsstring :=
  match Env.mustEnv (js "PREFILL_API_URL") (Env.PREFILL_API_URL env) with
  | Throw e => Throw e
  | Ok _ =>
  match Env.mustEnv (js "PREFILL_SECRET") (Env.PREFILL_SECRET env) with
  | Throw e => Throw e
  | Ok _ =>
  match outcome (requestWithRetry fetch) with
  | Throw e => Throw e
  | Ok res =>
  match text res with
  | Throw e => Throw e
  | Ok txt =>
      if negb (ok res) then
        Throw (newError (js "Prefill error " ++ numToString (status res)
                         ++ js ": " ++ txt))
      else
        match json res with
        | Throw e => Throw e
        | Ok j =>
            if negb (truthy (orEmpty (rid j))) then
              Throw (newError (js "Prefill response missing rid: " ++ txt))
            else Ok (orEmpty (rid j))
        end
  end end end end.

End Prefill.

(** ** Make webhook *)

Module Make.

(** One output record, as pushed on [items]. *)
Record Item : Type := {
  storeCode : option jsstring;
  locationTitle : option jsstring;
  locationId : jsstring;
  reviewId : option jsstring;
  rating : option Z;
  reviewer : option jsstring;
  reviewed_at : jsstring;
  comment : option jsstring;
  comment_full : jsstring;
  prefill_rid : option jsstring;
  smart_reply_url : option jsstring;
  prefill_error : option jsstring;
  maps_uri : option jsstring;
  new_review_uri : option jsstring;
  place_id : option jsstring;
  maps_place_url : option jsstring
}.

Record MetaBase : Type := {
  source : jsstring;
  timezone : jsstring;
  range_start : jsstring;
  range_end : jsstring;
  generated_at : jsstring;
  account_id : jsstring;
  locations_total : Z;
  count_total : Z
}.

Record Payload : Type := {
  meta : MetaBase;
  batch_index : Z;
  batch_total : Z;
  count : Z;
  data : list Item
}.

Definition postToMake (env : Env.t) (fetch : Fetch unit) : Result unit :=
  match Env.mustEnv (js "MAKE_REVIEWS_WEBHOOK_URL")
          (Env.MAKE_REVIEWS_WEBHOOK_URL env) with
  | Throw e => Throw e
  | Ok _ =>
  match outcome (requestWithRetry fetch) with
  | Throw e => Throw e
  | Ok res =>
      if negb (ok res) then
        Throw (newError (js "Make webhook error " ++ numToString (status res)
                         ++ js ": " ++ textOrEmpty res))
      else Ok tt
  end end.

(** The index [Array.prototype.slice] makes of an argument, for an
    array of [len] elements: [NaN] counts as 0, a negative index counts
    from the end, and the result is kept between 0 and [len]. *)
Definition sliceIndex (len : nat) (x : Integral) : nat :=
  match x with
  | NaN => O
  | NegInf => O
  | Finite z =>
      if z <? 0 then Z.to_nat (Z.max (Z.of_nat len + z) 0)
      else Z.to_nat (Z.min z (Z.of_nat len))
  | PosInf => len
  end.

(** [arr.slice(b, e)] *)
Definition slice {A} (arr : list A) (b e : Integral) : list A :=
  let k := sliceIndex (List.length arr) b in
  let final := sliceIndex (List.length arr) e in
  firstn (final - k) (skipn k arr).

(** The [for] loop of [chunkArray], from index [i]. *)
Fixpoint chunkLoop {A} (fuel : nat) (arr : list A) (size i : Integral)
    : list (list A) :=
  match fuel with
  | O => []
  | S fuel' =>
      if numLtb i (Finite (Z.of_nat (List.length arr))) then
        slice arr i (numAdd i size)
        :: chunkLoop fuel' arr size (numAdd i size)
      else []
  end.

(** [chunkArray(arr, size)].  The loop makes at most [arr.length]
    iterations: with [size >= 1] the index grows by at least 1 each
    time, and with [NaN] or [Infinity] it is [NaN] or [Infinity] after
    one iteration, which ends the loop. *)
Definition chunkArray {A} (arr : list A) (size : Integral)
    : list (list A) :=
  if numLeb size (Finite 0) then [arr]
  else chunkLoop (List.length arr) arr size (Finite 0).

(** The chunks [main] sends: those of [chunkArray], or one empty chunk
    when there is none. *)
Definition chunksToSend (items : list Item) (size : Integral)
    : list (list Item) :=
  let chunks := chunkArray items size in
  if (List.length chunks =? 0)%nat then chunks ++ [[]] else chunks.

(** The payloads of the loop [for (let i = 0; i < chunks.length; i++)]. *)
Fixpoint payloadsFrom (metaBase : MetaBase) (total : Z) (i : Z)
    (chunks : list (list Item)) : list Payload :=
  match chunks with
  | [] => []
  | c :: rest =>
      {| meta := metaBase;
         batch_index := i + 1;
         batch_total := total;
         count := Z.of_nat (List.length c);
         data := c |}
      :: payloadsFrom metaBase total (i + 1) rest
  end.

Definition payloads (metaBase : MetaBase) (items : list Item)
    (size : Integral)
    : list Payload :=
  let chunks := chunksToSend items size in
  payloadsFrom metaBase (Z.of_nat (List.length chunks)) 0 chunks.

(** The sequential delivery: [post p] gives the outcomes of the [fetch]
    calls of the delivery of payload [p].  Returns the payloads posted,
    in order, and how the loop ended. *)
Fixpoint sendAll (env : Env.t) (post : Payload -> Fetch unit)
    (ps : list Payload) : list Payload * Result unit :=
  match ps with
  | [] => ([], Ok tt)
  | p :: rest =>
      match postToMake env (post p) with
      | Throw e => ([p], Throw e)
      | Ok _ =>
          let '(sent, r) := sendAll env post rest in
          (p :: sent, r)
      end
  end.

(** *** Vocabulary of the chunking contract *)

(** The sizes of the chunks of [n] records cut every [size]: as many
    full chunks as fit, then the remainder if there is one. *)
Definition chunkSizes (n size : Z) : list Z :=
  repeat size (Z.to_nat (n / size))
  ++ (if n mod size =? 0 then [] else [n mod size]).

Definition lengths {A} (chunks : list (list A)) : list Z :=
  map (fun c => Z.of_nat (List.length c)) chunks.

End Make.

(** ** The per-location worker of [main] *)

Module Worker.

(** What a worker does that the rest of the run can observe, in order:
    the lines it logs and the records it pushes on [items]. *)
Inductive Action : Type :=
| Log (line : jsstring)
| Push (item : Make.Item).

(** The network as one worker sees it: the outcomes of the [fetch]
    calls of its metadata request, of its page request number [k] sent
    with a page token, and of the prefill request of its review number
    [k] with a payload. *)
Record Net : Type := {
  metaFetch : Fetch (option Location.Metadata);
  pageFetch : nat -> jsstring -> Fetch ReviewsPage;
  prefillFetch : nat -> Prefill.Payload -> Fetch Prefill.PrefillJson
}.

(** The constants of the worker body once the location is read. *)
Record LocInfo : Type := {
  locationId : jsstring;
  storeCode : jsstring;
  locationTitle : jsstring;
  maps_uri : jsstring;
  new_review_uri : jsstring;
  place_id : jsstring;
  maps_place_url : option jsstring
}.

(** [s.replace(/\/$/, "")] *)
Definition stripTrailingSlash (s : jsstring) : jsstring :=
  match rev s with
  | c :: r => if (c =? 47)%N then rev r else s
  | [] => s
  end.

Section Body.

Variable env : Env.t.

(** Library functions: [fromISO] as in [Reviews];
    [toFormat ms] is [dt.toFormat("dd.MM.yyyy HH:mm:ss")] of the
    Berlin time of [ms]. *)
Variable fromISO : jsstring -> option Z.
Variable toFormat : Z -> jsstring.
Variable toUpperCase : jsstring -> jsstring.
Variable encodeURIComponent : jsstring -> jsstring.

(** The request URLs, for the error messages of [getJson]. *)
Variable metadataUrl : jsstring -> jsstring.
Variable reviewsUrl : jsstring -> jsstring -> jsstring.

Variables startMs endMs : Z.

(** [createdBerlin.toFormat(...)]; an invalid date formats as
    ["Invalid DateTime"]. *)
Definition formatCreateTime (ct : option jsstring) : jsstring :=
  match ct with
  | Some c =>
      match fromISO c with
      | Some ms => toFormat ms
      | None => js "Invalid DateTime"
      end
  | None => js "Invalid DateTime"
  end.

Definition reviewIdOf (r : RawReview) : jsstring :=
  let reviewName := trim (orEmpty (name r)) in
  lastSegment reviewName.

Definition reviewerOf (r : RawReview) : jsstring :=
  match reviewer r with
  | Some o => trim (or (orEmpty (displayName o)) (orEmpty (profileName o)))
  | None => trim []
  end.

Definition commentFullOf (r : RawReview) : jsstring :=
  buildCommentFull (cleanComment (Some (orEmpty (comment r))))
    (reviewerOf r) (formatCreateTime (createTime r)).

(** The argument of [createPrefillRid] *)
Definition prefillPayload (info : LocInfo) (r : RawReview)
    : Prefill.Payload :=
  {| Prefill.review := commentFullOf r;
     Prefill.rating :=
       match starRatingToInt toUpperCase (starRating r) with
       | Some n => if n =? 0 then [] else numToString n
       | None => []
       end;
     Prefill.reviewer := reviewerOf r;
     Prefill.reviewed_at := formatCreateTime (createTime r);
     Prefill.accountId := Env.GBP_ACCOUNT_ID env;
     Prefill.locationId := locationId info;
     Prefill.reviewId := reviewIdOf r;
     Prefill.storeCode := storeCode info;
     Prefill.locationTitle := locationTitle info;
     Prefill.maps_uri := maps_uri info;
     Prefill.new_review_uri := new_review_uri info;
     Prefill.place_id := place_id info;
     Prefill.maps_place_url := orEmpty (maps_place_url info) |}.

(** The body of [for (const r of reviews)]: the record it pushes,
    [fetch] giving the outcomes of the [fetch] calls of its prefill
    request. *)
Definition reviewItem (info : LocInfo)
    (fetch : Prefill.Payload -> Fetch Prefill.PrefillJson)
    (r : RawReview) : Make.Item :=
  let reviewId := reviewIdOf r in
  let rating := starRatingToInt toUpperCase (starRating r) in
  let reviewer := reviewerOf r in
  let reviewed_at := formatCreateTime (createTime r) in
  let commentClean := cleanComment (Some (orEmpty (comment r))) in
  let comment_full := buildCommentFull commentClean reviewer reviewed_at in
  let '(rid, smart_reply_url, prefill_error) :=
    match Prefill.createPrefillRid env (fetch (prefillPayload info r)) with
    | Ok rid =>
        (rid,
         stripTrailingSlash (Env.PUBLIC_APP_URL env) ++ js "/?rid=" ++ rid,
         [])
    | Throw e => ([], [], or (err_message e) (errorToString e))
    end in
  {| Make.storeCode := orNull (storeCode info);
     Make.locationTitle := orNull (locationTitle info);
     Make.locationId := locationId info;
     Make.reviewId := orNull reviewId;
     Make.rating := rating;
     Make.reviewer := orNull reviewer;
     Make.reviewed_at := reviewed_at;
     Make.comment := orNull commentClean;
     Make.comment_full := comment_full;
     Make.prefill_rid := orNull rid;
     Make.smart_reply_url := orNull smart_reply_url;
     Make.prefill_error := orNull prefill_error;
     Make.maps_uri := orNull (maps_uri info);
     Make.new_review_uri := orNull (new_review_uri info);
     Make.place_id := orNull (place_id info);
     Make.maps_place_url := maps_place_url info |}.

(** The loop [for (const r of reviews)], from review number [k]. *)
Fixpoint reviewItems (info : LocInfo)
    (fetch : nat -> Prefill.Payload -> Fetch Prefill.PrefillJson)
    (k : nat) (rs : list RawReview) : list Make.Item :=
  match rs with
  | [] => []
  | r :: rs' => reviewItem info (fetch k) r :: reviewItems info fetch (S k) rs'
  end.

(** [getLocationMetadata(accessToken, locationId)]: the document read
    is [j?.metadata], and [{}] is the metadata without fields. *)
Definition getLocationMetadata (locationId : jsstring)
    (fetch : Fetch (option Location.Metadata)) : Result Location.Metadata :=
  match getJson (metadataUrl locationId) fetch with
  | Throw e => Throw e
  | Ok (Some m) => Ok m
  | Ok None =>
      Ok {| Location.mapsUri := None;
            Location.newReviewUri := None;
            Location.placeId := None |}
  end.

Definition metaField (m : option Location.Metadata)
    (f : Location.Metadata -> option jsstring) : jsstring :=
  match m with
  | Some x => orEmpty (f x)
  | None => []
  end.

(** The location constants, or [None] when [locationId] is empty and
    the worker returns at once. *)
Definition locInfo (net : Net) (loc : Location.t) : option LocInfo :=
  let locName := trim (orEmpty (Location.name loc)) in
  let locationId := lastSegment locName in
  let storeCode := trim (orEmpty (Location.storeCode loc)) in
  let locationTitle := trim (orEmpty (Location.title loc)) in
  if negb (truthy locationId) then None
  else
    let maps_uri := metaField (Location.metadata loc) Location.mapsUri in
    let new_review_uri :=
      metaField (Location.metadata loc) Location.newReviewUri in
    let place_id := metaField (Location.metadata loc) Location.placeId in
    let '(maps_uri, new_review_uri, place_id) :=
      if negb (truthy maps_uri) && negb (truthy new_review_uri)
         && negb (truthy place_id)
      then
        match getLocationMetadata locationId (metaFetch net) with
        | Ok m =>
            (orEmpty (Location.mapsUri m),
             orEmpty (Location.newReviewUri m),
             orEmpty (Location.placeId m))
        | Throw _ => (maps_uri, new_review_uri, place_id)
        end
      else (maps_uri, new_review_uri, place_id) in
    let maps_place_url :=
      if truthy place_id then
        Some (js "https://www.google.com/maps/place/?q=place_id:"
              ++ encodeURIComponent place_id)
      else None in
    Some {| locationId := locationId;
            storeCode := storeCode;
            locationTitle := locationTitle;
            maps_uri := maps_uri;
            new_review_uri := new_review_uri;
            place_id := place_id;
            maps_place_url := maps_place_url |}.

(** [storeCode || locationTitle || locationId] *)
Definition label (info : LocInfo) : jsstring :=
  or (storeCode info) (or (locationTitle info) (locationId info)).

(** The harvest of the location of a worker. *)
Definition harvest (fuel : nat) (net : Net) (info : LocInfo) : Harvest :=
  fst (listReviewsForLocation fromISO (reviewsUrl (locationId info))
         (pageFetch net) startMs endMs fuel).

(** The function passed to [asyncPool]: the actions of the worker of
    [loc], or [None] when its harvest does not return within [fuel]
    page requests. *)
Definition worker (fuel : nat) (net : Net) (loc : Location.t)
    : option (list Action) :=
  match locInfo net loc with
  | None => Some []
  | Some info =>
      match harvest fuel net info with
      | Unfinished _ => None
      | Thrown e =>
          Some [Log (js "- ERROR reviews " ++ label info ++ js ": "
                     ++ err_message e)]
      | Returned reviews =>
          if (List.length reviews =? 0)%nat then Some []
          else
            Some (Log (js "- " ++ label info ++ js ": "
                       ++ numToString (Z.of_nat (List.length reviews))
                       ++ js " review(s)")
                  :: map Push (reviewItems info (prefillFetch net) 0 reviews))
      end
  end.

End Body.

(** The records among the actions. *)
Fixpoint pushed (acts : list Action) : list Make.Item :=
  match acts with
  | [] => []
  | Push it :: rest => it :: pushed rest
  | Log _ :: rest => pushed rest
  end.

Fixpoint logged (acts : list Action) : list jsstring :=
  match acts with
  | [] => []
  | Log l :: rest => l :: logged rest
  | Push _ :: rest => logged rest
  end.

End Worker.

(** ** Concurrency pool

    [asyncPool(limit, items, iteratorFn)] starts the workers in the order
    of [items]; the workers then advance in an order that depends on when
    their requests and timers complete.  A state of the pool holds the
    workers not yet started, the remaining actions of the running ones,
    whether the [for] loop waits in [await Promise.race(executing)], and
    the actions performed so far. *)

Module Pool.

Import Worker.

Record State : Type := {
  pending : list (list Action);
  running : list (list Action);
  waiting : bool;
  trace : list Action
}.

Section Steps.

(** [limit], which is [ENV.CONCURRENCY] and may be fractional or
    [NaN], and [items.length] *)
Variable limit : Limit.
Variable total : nat.

(** After a start the loop waits when [limit <= items.length] and
    [executing.length >= limit]. *)
Definition waitsAfterLaunch (nrunning : nat) : bool :=
  leInt limit (Z.of_nat total) && leInt limit (Z.of_nat nrunning).

(** The workers run only while the loop is suspended: in
    [Promise.race], or in [Promise.all] once all are started. *)
Definition suspended (st : State) : Prop :=
  waiting st = true \/ pending st = [].

Inductive step : State -> State -> Prop :=
| step_launch w ps rs tr :
    step {| pending := w :: ps; running := rs; waiting := false; trace := tr |}
         {| pending := ps; running := rs ++ [w];
            waiting := waitsAfterLaunch (S (List.length rs)); trace := tr |}
| step_act ps rs1 a w rs2 wt tr :
    suspended {| pending := ps; running := rs1 ++ (a :: w) :: rs2;
                 waiting := wt; trace := tr |} ->
    step {| pending := ps; running := rs1 ++ (a :: w) :: rs2;
            waiting := wt; trace := tr |}
         {| pending := ps; running := rs1 ++ w :: rs2;
            waiting := wt; trace := tr ++ [a] |}
| step_finish ps rs1 rs2 wt tr :
    suspended {| pending := ps; running := rs1 ++ [] :: rs2;
                 waiting := wt; trace := tr |} ->
    step {| pending := ps; running := rs1 ++ [] :: rs2;
            waiting := wt; trace := tr |}
         {| pending := ps; running := rs1 ++ rs2;
            waiting := false; trace := tr |}.

Inductive steps : State -> State -> Prop :=
| steps_refl st : steps st st
| steps_cons st1 st2 st3 : step st1 st2 -> steps st2 st3 -> steps st1 st3.

Definition final (st : State) : Prop := pending st = [] /\ running st = [].

End Steps.

Definition initial (workers : list (list Action)) : State :=
  {| pending := workers; running := []; waiting := false; trace := [] |}.

(** *** Running the pool under a schedule

    A schedule names, step after step, which running worker completes
    its request or timer next; the loop starts workers as soon as it
    can. *)

Section Exec.

Variable limit : Limit.
Variable total : nat.

(** The loop starts workers until it waits or none is left;
    [n] bounds the number of starts. *)
Fixpoint launchAll (n : nat) (st : State) : State :=
  match n with
  | O => st
  | S n' =>
      match waiting st, pending st with
      | false, w :: ps =>
          launchAll n'
            {| pending := ps; running := running st ++ [w];
               waiting := waitsAfterLaunch limit total
                            (S (List.length (running st)));
               trace := trace st |}
      | _, _ => st
      end
  end.

Definition suspendedb (st : State) : bool :=
  waiting st || match pending st with [] => true | _ :: _ => false end.

(** The running worker number [i] performs its next action, or
    finishes when it has none left. *)
Definition advance (i : nat) (st : State) : option State :=
  if suspendedb st then
    match nth_error (running st) i with
    | Some (a :: w) =>
        Some {| pending := pending st;
                running := firstn i (running st) ++ w :: skipn (S i) (running st);
                waiting := waiting st;
                trace := trace st ++ [a] |}
    | Some [] =>
        Some {| pending := pending st;
                running := firstn i (running st) ++ skipn (S i) (running st);
                waiting := false;
                trace := trace st |}
    | None => None
    end
  else None.

Fixpoint exec (schedule : list nat) (st : State) : option State :=
  let st' := launchAll (List.length (pending st)) st in
  match schedule with
  | [] => Some st'
  | i :: rest =>
      match advance i st' with
      | Some st'' => exec rest st''
      | None => None
      end
  end.

Definition finalb (st : State) : bool :=
  match pending st, running st with
  | [], [] => true
  | _, _ => false
  end.

End Exec.

(** The trace of the run of [workers] under a schedule that completes
    it. *)
Definition runUnder (limit : Limit) (workers : list (list Action))
    (schedule : list nat) : option (list Action) :=
  match exec limit (List.length workers) schedule (initial workers) with
  | Some st => if finalb st then Some (trace st) else None
  | None => None
  end.

(** A complete run of [asyncPool(limit, locations, worker)]: [tr] is
    what the workers did, in the order they did it. *)
Definition run (limit : Limit) (workers : list (list Action))
    (tr : list Action) : Prop :=
  exists st,
    steps limit (List.length workers) (initial workers) st
    /\ final st /\ trace st = tr.

(** [l] interleaves the lists [ls], each in its own order: [l] is
    empty when no list is left; a list that is exhausted is dropped;
    otherwise [l] starts with the head of one of the lists. *)
Inductive Merge {A : Type} : list (list A) -> list A -> Prop :=
| merge_done : Merge [] []
| merge_drop ls1 ls2 l :
    Merge (ls1 ++ ls2) l -> Merge (ls1 ++ [] :: ls2) l
| merge_take ls1 x xs ls2 l :
    Merge (ls1 ++ xs :: ls2) l -> Merge (ls1 ++ (x :: xs) :: ls2) (x :: l).

(** [s] is a subsequence of [l]: the elements of [s] occur in [l] in
    the same order. *)
Inductive Subseq {A : Type} : list A -> list A -> Prop :=
| subseq_nil l : Subseq [] l
| subseq_skip s x l : Subseq s l -> Subseq s (x :: l)
| subseq_take s x l : Subseq s l -> Subseq (x :: s) (x :: l).

(** The loop waits only while a worker is running. *)
Definition sound (st : State) : Prop :=
  waiting st = true -> running st <> [].

(** The work left in a state, which every step decreases. *)
Definition measure (st : State) : nat :=
  (list_sum (map (fun w => 2 + List.length w) (pending st))
   + list_sum (map (fun w => 1 + List.length w) (running st)))%nat.

End Pool.

(** ** The run *)

Module Main.

Import Worker.

Section Run.

Variable env : Env.t.
Variable fromISO : jsstring -> option Z.
Variable toFormat : Z -> jsstring.
Variable toUpperCase : jsstring -> jsstring.
Variable encodeURIComponent : jsstring -> jsstring.
Variable metadataUrl : jsstring -> jsstring.
Variable reviewsUrl : jsstring -> jsstring -> jsstring.
Variables startMs endMs : Z.

(** [net i] is the network as the worker of the location number [i]
    sees it. *)
Variable net : nat -> Net.

(** The workers of the locations from number [i] on, when each
    harvest returns within [fuel] page requests. *)
Fixpoint workersFrom (fuel i : nat) (locations : list Location.t)
    : option (list (list Action)) :=
  match locations with
  | [] => Some []
  | loc :: rest =>
      match worker env fromISO toFormat toUpperCase encodeURIComponent
              metadataUrl reviewsUrl startMs endMs fuel (net i) loc,
            workersFrom fuel (S i) rest with
      | Some w, Some ws => Some (w :: ws)
      | _, _ => None
      end
  end.

Definition workers (fuel : nat) (locations : list Location.t)
    : option (list (list Action)) :=
  workersFrom fuel 0 locations.

(** [items] is the list [main] holds after
    [await asyncPool(ENV.CONCURRENCY, locations, ...)] in some run. *)
Definition collects (fuel : nat) (locations : list Location.t)
    (items : list Make.Item) : Prop :=
  exists ws tr,
    workers fuel locations = Some ws
    /\ Pool.run (Env.CONCURRENCY env) ws tr
    /\ items = pushed tr.

End Run.

End Main.

(** ** Sample data

    A run on 2024-04-01 for three locations, used to exercise the
    definitions above. *)

Module Samples.

Import Worker.

Definition env : Env.t :=
  {| Env.GBP_CLIENT_ID := js "client";
     Env.GBP_CLIENT_SECRET := js "secret";
     Env.GBP_REFRESH_TOKEN := js "refresh";
     Env.GBP_ACCOUNT_ID := js "123";
     Env.PREFILL_API_URL := js "https://prefill.example/api/prefill";
     Env.PREFILL_SECRET := js "s3cret";
     Env.PUBLIC_APP_URL :=
       js "https://smart-reply-generator-production2.up.railway.app";
     Env.MAKE_REVIEWS_WEBHOOK_URL := js "https://hook.example/reviews";
     Env.CONCURRENCY := ofZ 5;
     Env.MAKE_BATCH_SIZE := Finite 200 |}.

(** The window of [Luxon.april_first_2024]: the 31st of March 2024. *)
Definition startMs : Z := 1711839600000.
Definition endMs : Z := 1711922399999.

(** The values of the library functions at the timestamps of the
    samples. *)
Definition timestamps : list (jsstring * (Z * jsstring)) :=
  [ (js "2024-03-31T10:00:00Z", (1711879200000, js "31.03.2024 12:00:00"));
    (js "2024-03-31T15:30:00Z", (1711899000000, js "31.03.2024 17:30:00"));
    (js "2024-03-01T08:00:00Z", (1709280000000, js "01.03.2024 09:00:00"));
    (js "2024-04-01T06:00:00Z", (1711951200000, js "01.04.2024 08:00:00")) ].

Definition fromISO (s : jsstring) : option Z :=
  option_map (fun e => fst (snd e))
    (find (fun e => jsstring_eqb (fst e) s) timestamps).

Definition toFormat (ms : Z) : jsstring :=
  match find (fun e => fst (snd e) =? ms) timestamps with
  | Some e => snd (snd e)
  | None => js "Invalid DateTime"
  end.

Definition encodeURIComponent (s : jsstring) : jsstring := s.

Definition metadataUrl (locationId : jsstring) : jsstring :=
  js "https://mybusinessbusinessinformation.googleapis.com/v1/locations/"
  ++ locationId.

Definition reviewsUrl (locationId pageToken : jsstring) : jsstring :=
  js "https://mybusiness.googleapis.com/v4/accounts/123/locations/"
  ++ locationId ++ js "/reviews?pageToken=" ++ pageToken.

Definition review (id createTime star who text : string) : RawReview :=
  {| name := Some (js id);
     createTime := Some (js createTime);
     starRating := Some (js star);
     reviewer := Some {| displayName := Some (js who); profileName := None |};
     comment := Some (js text) |}.

Definition reviewA1 : RawReview :=
  review "accounts/123/locations/1/reviews/a1" "2024-03-31T10:00:00Z"
    "FIVE" "Anna" "Great place (Translated by Google) Toller Laden".

Definition reviewA2 : RawReview :=
  review "accounts/123/locations/1/reviews/a2" "2024-03-31T15:30:00Z"
    "FOUR" "Ben" "Gut".

Definition reviewC1 : RawReview :=
  review "accounts/123/locations/3/reviews/c1" "2024-03-31T15:30:00Z"
    "TWO" "Cem" "Naja".

Definition reviewOld : RawReview :=
  review "accounts/123/locations/1/reviews/old" "2024-03-01T08:00:00Z"
    "THREE" "Dora" "Alt".

Definition reviewNew : RawReview :=
  review "accounts/123/locations/1/reviews/new" "2024-04-01T06:00:00Z"
    "ONE" "Emil" "Neu".

Definition page (rs : list RawReview) (next : string) : ReviewsPage :=
  {| reviews := Some rs;
     nextPageToken := match next with
                      | EmptyString => None
                      | _ => Some (js next)
                      end |}.

Definition okResponse {J} (j : J) : Response J :=
  {| status := 200; statusText := js "OK"; text := Ok (js "{}"); json := Ok j |}.

Definition failure {J} (code : Z) (reason : string) : Response J :=
  {| status := code; statusText := js reason; text := Ok (js "error");
     json := Throw {| err_class := SyntaxError;
                      err_message := js "Unexpected token" |} |}.

(** A feed that answers the page request number [k] with the page
    number [k], and fails at the network level beyond the last page. *)
Definition serve (ps : list ReviewsPage) : nat -> jsstring -> Fetch ReviewsPage :=
  fun k _ _ =>
    match nth_error ps k with
    | Some p => Resolved (okResponse p)
    | None => Rejected (js "fetch failed")
    end.

(** Five pages: pages 3 and 4 hold only reviews created before the
    window. *)
Definition fivePages : list ReviewsPage :=
  [ page [reviewNew; reviewA2] "t1";
    page [reviewA1; reviewOld] "t2";
    page [reviewOld] "t3";
    page [reviewOld; reviewOld] "t4";
    page [reviewA1] "" ].

Definition location (id code title : string) : Location.t :=
  {| Location.name := Some (js id);
     Location.storeCode := Some (js code);
     Location.title := Some (js title);
     Location.metadata :=
       Some {| Location.mapsUri := Some (js "https://maps.example/" ++ js code);
               Location.newReviewUri := None;
               Location.placeId := None |} |}.

Definition locationA : Location.t := location "locations/1" "A" "Filiale A".
Definition locationB : Location.t := location "locations/2" "B" "Filiale B".
Definition locationC : Location.t := location "locations/3" "C" "Filiale C".

Definition noMetadata : Fetch (option Location.Metadata) :=
  fun _ => Rejected (js "fetch failed").

(** Location A: one page with two reviews of the window; the prefill
    service answers with a [rid]. *)
Definition netA : Net :=
  {| metaFetch := noMetadata;
     pageFetch := serve [page [reviewA1; reviewA2] ""];
     prefillFetch := fun k _ _ =>
       Resolved (okResponse {| Prefill.rid := Some (js "rid-a" ++ numToString (Z.of_nat k)) |}) |}.

(** Location B: every page request fails at the network level. *)
Definition netB : Net :=
  {| metaFetch := noMetadata;
     pageFetch := serve [];
     prefillFetch := fun _ _ _ => Rejected (js "fetch failed") |}.

(** Location C: one review of the window; the prefill service answers
    500 to every attempt. *)
Definition netC : Net :=
  {| metaFetch := noMetadata;
     pageFetch := serve [page [reviewC1; reviewOld] ""];
     prefillFetch := fun _ _ _ => Resolved (failure 500 "Internal Server Error") |}.

Definition net (i : nat) : Net := nth i [netA; netB; netC] netB.

Definition locations : list Location.t := [locationA; locationB; locationC].

Definition worker (fuel : nat) (n : Net) (loc : Location.t)
    : option (list Action) :=
  Worker.worker env fromISO toFormat asciiToUpperCase encodeURIComponent
    metadataUrl reviewsUrl startMs endMs fuel n loc.

(** The actions of the three workers, computed. *)
Definition workerA : list Action :=
  Eval vm_compute in
    match worker 10 netA locationA with Some w => w | None => [] end.

Definition workerB : list Action :=
  Eval vm_compute in
    match worker 10 netB locationB with Some w => w | None => [] end.

Definition workerC : list Action :=
  Eval vm_compute in
    match worker 10 netC locationC with Some w => w | None => [] end.

Definition workers : list (list Action) := [workerA; workerB; workerC].

Definition mainWorkers (fuel : nat) : option (list (list Action)) :=
  Main.workers env fromISO toFormat asciiToUpperCase encodeURIComponent
    metadataUrl reviewsUrl startMs endMs net fuel locations.

(** A schedule in which the worker of location C, started last,
    completes its requests first, then the worker of A, then B. *)
Definition scheduleCFirst : list nat := [2; 2; 2; 0; 0; 0; 0; 0; 0]%nat.

Definition traceCFirst : list Action :=
  Eval vm_compute in
    match Pool.runUnder (ofZ 5) workers scheduleCFirst with
    | Some tr => tr
    | None => []
    end.

Definition itemsCFirst : list Make.Item := pushed traceCFirst.

Definition infoC : LocInfo :=
  {| locationId := js "3"; storeCode := js "C"; locationTitle := js "Filiale C";
     maps_uri := js "https://maps.example/C"; new_review_uri := [];
     place_id := []; maps_place_url := None |}.

End Samples.

(** ** Configuration display *)

Module Config.

(** [mask(s)] *)
Definition mask (s : jsstring) : jsstring :=
  if negb (truthy s) then []
  else if (List.length s <=? 8)%nat then js "***"
  else firstn 3 s ++ js "***" ++ skipn (List.length s - 3) s.

End Config.

(** ** Google OAuth: refresh token to access token *)

Module Token.

(** The JSON document of the token response, read for its
    [access_token]. *)
Record TokenJson : Type := { access_token : option jsstring }.

(** [getAccessToken()]: its outcome and the number of [fetch] calls it
    made. *)
Definition getAccessToken (env : Env.t) (fetch : Fetch TokenJson)
    : Result jsstring * nat :=
  match Env.mustEnv (js "GBP_CLIENT_ID") (Env.GBP_CLIENT_ID env) with
  | Throw e => (Throw e, O)
  | Ok _ =>
  match Env.mustEnv (js "GBP_CLIENT_SECRET") (Env.GBP_CLIENT_SECRET env) with
  | Throw e => (Throw e, O)
  | Ok _ =>
  match Env.mustEnv (js "GBP_REFRESH_TOKEN") (Env.GBP_REFRESH_TOKEN env) with
  | Throw e => (Throw e, O)
  | Ok _ =>
      let r := requestWithRetry fetch in
      (match outcome r with
       | Throw e => Throw e
       | Ok res =>
           match text res with
           | Throw e => Throw e
           | Ok txt =>
               if negb (ok res) then
                 Throw (newError (js "Token error " ++ numToString (status res)
                                  ++ js ": " ++ txt))
               else
                 match json res with
                 | Throw e => Throw e
                 | Ok j =>
                     if negb (truthy (orEmpty (access_token j))) then
                       Throw (newError
                                (js "No access_token in token response: "
                                 ++ txt))
                     else Ok (orEmpty (access_token j))
                 end
           end
       end,
       attempts r)
  end end end.

End Token.

(** ** Listing the locations *)

Module Locations.

(** The JSON document of one page of locations. *)
Record LocationsPage : Type := {
  locations : option (list Location.t);
  nextPageToken : option jsstring
}.

(** How a call of [listLocations] ended: it returned [out], it threw, or
    the loop was still running when the fuel ran out. *)
Inductive Listing : Type :=
| Listed (out : list Location.t)
| ListThrown (e : JsError)
| ListUnfinished (out : list Location.t).

Section ListLocations.

(** The URL of a page request, from the page token. *)
Variable locationsUrl : jsstring -> jsstring.

(** [pages k pageToken] gives the outcomes of the [fetch] calls of the
    page request number [k], sent with [pageToken]. *)
Variable pages : nat -> jsstring -> Fetch LocationsPage.

(** [j.locations || []] *)
Definition pageLocations (j : LocationsPage) : list Location.t :=
  match locations j with Some l => l | None => [] end.

(** The [do ... while (pageToken)] loop of [listLocations], entering
    iteration number [k]; the second component lists the page tokens
    requested, in order. *)
Fixpoint listLoop (fuel k : nat) (out : list Location.t)
    (pageToken : jsstring) : Listing * list jsstring :=
  match fuel with
  | O => (ListUnfinished out, [])
  | S fuel' =>
      match getJson (locationsUrl pageToken) (pages k pageToken) with
      | Throw e => (ListThrown e, [pageToken])
      | Ok j =>
          let out' := out ++ pageLocations j in
          let pageToken' := orEmpty (nextPageToken j) in
          if truthy pageToken' then
            let '(h, toks) := listLoop fuel' (S k) out' pageToken' in
            (h, pageToken :: toks)
          else (Listed out', [pageToken])
      end
  end.

Definition listLocations (fuel : nat) : Listing * list jsstring :=
  listLoop fuel 0 [] [].

(** *** Vocabulary *)

(** [ps] are the pages a feed answers from the request number [k] sent
    with [pageToken] on: each page but the last comes with the cursor
    the next one is requested with, and the last page comes with none. *)
Inductive Chain : nat -> jsstring -> list LocationsPage -> Prop :=
| chain_last k pageToken p :
    getJson (locationsUrl pageToken) (pages k pageToken) = Ok p ->
    orEmpty (nextPageToken p) = [] ->
    Chain k pageToken [p]
| chain_next k pageToken p ps :
    getJson (locationsUrl pageToken) (pages k pageToken) = Ok p ->
    orEmpty (nextPageToken p) <> [] ->
    Chain (S k) (orEmpty (nextPageToken p)) ps ->
    Chain k pageToken (p :: ps).

(** The page tokens the pages [ps] are requested with, from
    [pageToken]. *)
Fixpoint cursors (pageToken : jsstring) (ps : list LocationsPage)
    : list jsstring :=
  match ps with
  | [] => []
  | p :: rest => pageToken :: cursors (orEmpty (nextPageToken p)) rest
  end.

End ListLocations.

End Locations.

(** ** The whole of [main] *)

Module Program.

Import Worker.

Section Main.

Variable env : Env.t.

(** Library functions, as in [Worker]; [toISO ms] is [dt.toISO()] of
    the Berlin time of [ms]. *)
Variable fromISO : jsstring -> option Z.
Variable toFormat : Z -> jsstring.
Variable toISO : Z -> jsstring.
Variable toUpperCase : jsstring -> jsstring.
Variable encodeURIComponent : jsstring -> jsstring.
Variable metadataUrl : jsstring -> jsstring.
Variable reviewsUrl : jsstring -> jsstring -> jsstring.
Variable locationsUrl : jsstring -> jsstring.

(** [DateTime.now()] at the start of the run and when the payloads are
    built. *)
Variables now generatedAt : Z.

(** The network: the token endpoint, the pages of locations, the
    endpoints each worker talks to, and the webhook. *)
Variable tokenFetch : Fetch Token.TokenJson.
Variable locationPages : nat -> jsstring -> Fetch Locations.LocationsPage.
Variable net : nat -> Net.
Variable post : Make.Payload -> Fetch unit.

(** The four [mustEnv] calls at the start of [main]. *)
Definition checkEnv : Result unit :=
  match Env.mustEnv (js "GBP_ACCOUNT_ID") (Env.GBP_ACCOUNT_ID env) with
  | Throw e => Throw e
  | Ok _ =>
  match Env.mustEnv (js "MAKE_REVIEWS_WEBHOOK_URL")
          (Env.MAKE_REVIEWS_WEBHOOK_URL env) with
  | Throw e => Throw e
  | Ok _ =>
  match Env.mustEnv (js "PREFILL_API_URL") (Env.PREFILL_API_URL env) with
  | Throw e => Throw e
  | Ok _ =>
  match Env.mustEnv (js "PREFILL_SECRET") (Env.PREFILL_SECRET env) with
  | Throw e => Throw e
  | Ok _ => Ok tt
  end end end end.

(** [metaBase] *)
Definition metaBase (startMs endMs : Z) (nlocations nitems : nat)
    : Make.MetaBase :=
  {| Make.source := js "google_business_profile";
     Make.timezone := js "Europe/Berlin";
     Make.range_start := toISO startMs;
     Make.range_end := toISO endMs;
     Make.generated_at := toISO generatedAt;
     Make.account_id := Env.GBP_ACCOUNT_ID env;
     Make.locations_total := Z.of_nat nlocations;
     Make.count_total := Z.of_nat nitems |}.

(** [main()] ends with [outcome] after having posted the payloads
    [sent], in some run in which the listing and every harvest end
    within [fuel] page requests. *)
Definition main (fuel : nat) (outcome : Result unit)
    (sent : list Make.Payload) : Prop :=
  match checkEnv with
  | Throw e => outcome = Throw e /\ sent = []
  | Ok _ =>
      let '(startMs, endMs) := Luxon.getYesterdayRangeBerlin now in
      match fst (Token.getAccessToken env tokenFetch) with
      | Throw e => outcome = Throw e /\ sent = []
      | Ok _ =>
          match fst (Locations.listLocations locationsUrl locationPages fuel) with
          | Locations.ListThrown e => outcome = Throw e /\ sent = []
          | Locations.ListUnfinished _ => False
          | Locations.Listed locations =>
              exists items,
                Main.collects env fromISO toFormat toUpperCase
                  encodeURIComponent metadataUrl reviewsUrl startMs endMs
                  net fuel locations items
                /\ Make.sendAll env post
                     (Make.payloads
                        (metaBase startMs endMs (List.length locations)
                           (List.length items))
                        items (Env.MAKE_BATCH_SIZE env))
                   = (sent, outcome)
          end
      end
  end.

End Main.

End Program.

(** ** Vocabulary of the further properties *)

Module Text.

(** A string that is empty or starts with a character that is not
    white space. *)
Definition headed (s : jsstring) : Prop :=
  s = [] \/ exists c r, s = c :: r /\ isWhiteSpace c = false.

End Text.

Module ReviewFeed.

Section Feed.

Variable fromISO : jsstring -> option Z.
Variable reviewsUrl : jsstring -> jsstring.
Variable pages : nat -> jsstring -> Fetch ReviewsPage.

(** [ps] are the pages of the feed of a location, from the request
    number [k] sent with [pageToken] on: every page but the last holds
    reviews and comes with the cursor the next page is requested with;
    the last page is empty or comes without a cursor. *)
Inductive Feed : nat -> jsstring -> list ReviewsPage -> Prop :=
| feed_last k pageToken j :
    getJson (reviewsUrl pageToken) (pages k pageToken) = Ok j ->
    pageReviews j = [] \/ orEmpty (nextPageToken j) = [] ->
    Feed k pageToken [j]
| feed_next k pageToken j ps :
    getJson (reviewsUrl pageToken) (pages k pageToken) = Ok j ->
    pageReviews j <> [] ->
    orEmpty (nextPageToken j) <> [] ->
    Feed (S k) (orEmpty (nextPageToken j)) ps ->
    Feed k pageToken (j :: ps).

(** [ps] are pages fetched one after the other from the request
    number [k] sent with [pageToken] on, each requested with the cursor
    of the one before. *)
Inductive Fetched : nat -> jsstring -> list ReviewsPage -> Prop :=
| fetched_one k pageToken j :
    getJson (reviewsUrl pageToken) (pages k pageToken) = Ok j ->
    Fetched k pageToken [j]
| fetched_next k pageToken j ps :
    getJson (reviewsUrl pageToken) (pages k pageToken) = Ok j ->
    Fetched (S k) (orEmpty (nextPageToken j)) ps ->
    Fetched k pageToken (j :: ps).

(** Review [a] was created no earlier than review [b]. *)
Definition notOlder (a b : RawReview) : Prop :=
  exists ta tb,
    createdAt fromISO a = Some ta /\ createdAt fromISO b = Some tb /\ tb <= ta.

(** The reviews come newest first, by creation time. *)
Definition newestFirst (rs : list RawReview) : Prop :=
  StronglySorted notOlder rs.

End Feed.

End ReviewFeed.

Module PoolInvariant.

Import Worker Pool.

Section Bound.

Variable limit : Limit.
Variable total : nat.

(** The invariant of the loop of [asyncPool]: the workers running or
    still to start are at most [items.length]; when the loop tracks
    [executing], the workers running are at most any integer from 1 on
    that the limit does not exceed, and fewer whenever the loop is not
    waiting. *)
Definition bounded (st : State) : Prop :=
  (List.length (running st) + List.length (pending st) <= total)%nat /\
  (leInt limit (Z.of_nat total) = true ->
   forall m : Z,
     1 <= m -> leInt limit m = true ->
     Z.of_nat (List.length (running st)) <= m /\
     (waiting st = false -> Z.of_nat (List.length (running st)) < m)).

End Bound.

End PoolInvariant.

Module Record.

(** The fields of a record that describe the review and its
    location. *)
Definition reviewFields (it : Make.Item) :=
  (Make.locationId it, Make.storeCode it, Make.locationTitle it,
   Make.reviewId it, Make.rating it, Make.reviewer it,
   Make.reviewed_at it, Make.comment it, Make.comment_full it).

End Record.

(** ** A sample run of [main]

    The run of [Samples] as a whole, started at noon on 2024-04-01. *)

Module Scenario.

Import Worker.

(** A feed that comes newest first, in five pages; the last three hold
    only reviews created before the window. *)
Definition sortedPages : list ReviewsPage :=
  [ Samples.page [Samples.reviewNew; Samples.reviewA2] "t1";
    Samples.page [Samples.reviewA1; Samples.reviewOld] "t2";
    Samples.page [Samples.reviewOld] "t3";
    Samples.page [Samples.reviewOld; Samples.reviewOld] "t4";
    Samples.page [Samples.reviewOld] "" ].

Definition now : Z := 1711965600000.
Definition generatedAt : Z := 1711965660000.

Definition toISO (ms : Z) : jsstring :=
  if ms =? Samples.startMs then js "2024-03-31T00:00:00.000+01:00"
  else if ms =? Samples.endMs then js "2024-03-31T23:59:59.999+02:00"
  else if ms =? generatedAt then js "2024-04-01T12:01:00.000+02:00"
  else js "Invalid DateTime".

Definition locationsUrl (pageToken : jsstring) : jsstring :=
  js "https://mybusinessbusinessinformation.googleapis.com/v1/accounts/123/locations?pageToken="
  ++ pageToken.

Definition tokenFetch : Fetch Token.TokenJson :=
  fun _ =>
    Resolved (Samples.okResponse {| Token.access_token := Some (js "ya29.a0") |}).


(** The locations come in two pages. *)
Definition locationsPages : list Locations.LocationsPage :=
  [ {| Locations.locations := Some [Samples.locationA; Samples.locationB];
       Locations.nextPageToken := Some (js "p2") |};
    {| Locations.locations := Some [Samples.locationC];
       Locations.nextPageToken := None |} ].

Definition locationPages : nat -> jsstring -> Fetch Locations.LocationsPage :=
  fun k _ _ =>
    match nth_error locationsPages k with
    | Some p => Resolved (Samples.okResponse p)
    | None => Rejected (js "fetch failed")
    end.

(** The webhook accepts every payload. *)
Definition post : Make.Payload -> Fetch unit :=
  fun _ _ => Resolved (Samples.okResponse tt).

(** The configuration of [Samples] without the webhook. *)
Definition envNoWebhook : Env.t :=
  {| Env.GBP_CLIENT_ID := Env.GBP_CLIENT_ID Samples.env;
     Env.GBP_CLIENT_SECRET := Env.GBP_CLIENT_SECRET Samples.env;
     Env.GBP_REFRESH_TOKEN := Env.GBP_REFRESH_TOKEN Samples.env;
     Env.GBP_ACCOUNT_ID := Env.GBP_ACCOUNT_ID Samples.env;
     Env.PREFILL_API_URL := Env.PREFILL_API_URL Samples.env;
     Env.PREFILL_SECRET := Env.PREFILL_SECRET Samples.env;
     Env.PUBLIC_APP_URL := Env.PUBLIC_APP_URL Samples.env;
     Env.MAKE_REVIEWS_WEBHOOK_URL := [];
     Env.CONCURRENCY := ofZ 5;
     Env.MAKE_BATCH_SIZE := Finite 200 |}.

(** The configuration of [Samples] with a batch size that is not a
    number, as [MAKE_BATCH_SIZE=abc] gives. *)
Definition envNaN : Env.t :=
  {| Env.GBP_CLIENT_ID := Env.GBP_CLIENT_ID Samples.env;
     Env.GBP_CLIENT_SECRET := Env.GBP_CLIENT_SECRET Samples.env;
     Env.GBP_REFRESH_TOKEN := Env.GBP_REFRESH_TOKEN Samples.env;
     Env.GBP_ACCOUNT_ID := Env.GBP_ACCOUNT_ID Samples.env;
     Env.PREFILL_API_URL := Env.PREFILL_API_URL Samples.env;
     Env.PREFILL_SECRET := Env.PREFILL_SECRET Samples.env;
     Env.PUBLIC_APP_URL := Env.PUBLIC_APP_URL Samples.env;
     Env.MAKE_REVIEWS_WEBHOOK_URL := Env.MAKE_REVIEWS_WEBHOOK_URL Samples.env;
     Env.CONCURRENCY := ofZ 5;
     Env.MAKE_BATCH_SIZE := NaN |}.

(** [main] on the sample network. *)
Definition main (env : Env.t) (tokens : Fetch Token.TokenJson)
    (fuel : nat) (outcome : Result unit) (sent : list Make.Payload) : Prop :=
  Program.main env Samples.fromISO Samples.toFormat toISO asciiToUpperCase
    Samples.encodeURIComponent Samples.metadataUrl Samples.reviewsUrl
    locationsUrl now generatedAt tokens locationPages Samples.net post
    fuel outcome sent.

(** The payload of the sample run. *)
Definition payloads : list Make.Payload :=
  Make.payloads
    (Program.metaBase Samples.env toISO generatedAt
       Samples.startMs Samples.endMs 3 3)
    Samples.itemsCFirst (Finite 200).

(** The payload of the sample run when the batch size is not a
    number. *)
Definition payloadsNaN : list Make.Payload :=
  Make.payloads
    (Program.metaBase envNaN toISO generatedAt
       Samples.startMs Samples.endMs 3 3)
    Samples.itemsCFirst NaN.

(** A network that differs from that of location A by its metadata
    endpoint and its prefill service. *)
Definition netA' : Net :=
  {| metaFetch := fun _ =>
       Resolved (Samples.okResponse
                   (Some {| Location.mapsUri := None;
                            Location.newReviewUri := None;
                            Location.placeId := Some (js "ChIJ1") |}));
     pageFetch := pageFetch Samples.netA;
     prefillFetch := prefillFetch Samples.netC |}.

End Scenario.

(* ================================================================== *)
(** * Part II: properties                                              *)
(* ================================================================== *)

(** ** The time window *)

Module LuxonFacts.
Import Luxon.

Section ZoneFacts.

Variable dst : Z -> bool.

Ltac div_lia := Z.to_euclidean_division_equations; lia.

(** Decide the conditionals of [fixOffset] once the summer-time flags
    of the two intervals around local day [q] are known. *)
Ltac known_dst q A B :=
  repeat first
    [ rewrite A | rewrite B
    | match goal with
      | |- context [dst ?e] =>
          first [ replace e with q by div_lia
                | replace e with (q - 1) by div_lia ]
      end
    | progress cbv beta iota
    | match goal with
      | |- context [?a =? ?b] =>
          let v := eval compute in (a =? b) in
          match v with
          | true => change (a =? b) with true
          | false => change (a =? b) with false
          end
      | |- context [Z.min ?a ?b] =>
          let v := eval compute in (Z.min a b) in
          match v with
          | 60 => change (Z.min a b) with 60
          | 120 => change (Z.min a b) with 120
          end
      | |- context [Z.max ?a ?b] =>
          let v := eval compute in (Z.max a b) in
          match v with
          | 60 => change (Z.max a b) with 60
          | 120 => change (Z.max a b) with 120
          end
      end ];
  cbv [fst snd].

Lemma offset_cases ts : offset dst ts = 60 \/ offset dst ts = 120.
Proof. unfold offset. destruct (dst _); auto. Qed.

(** [fixOffset] lands on the requested local day, and on the requested
    local time unless that time falls between 02:00 and 03:00. *)
Lemma fixOffset_local L o :
  o = 60 \/ o = 120 ->
  let ts := fst (fixOffset dst L o) in
  localTS dst ts / MS_PER_DAY = L / MS_PER_DAY /\
  (L mod MS_PER_DAY < 2 * MS_PER_HOUR \/ 3 * MS_PER_HOUR <= L mod MS_PER_DAY ->
   localTS dst ts = L).
Proof.
  intros Ho.
  pose proof (Z.div_mod L MS_PER_DAY ltac:(discriminate)) as HL.
  pose proof (Z.mod_pos_bound L MS_PER_DAY ltac:(reflexivity)) as Hr.
  set (q := L / MS_PER_DAY) in *. set (r := L mod MS_PER_DAY) in *.
  clearbody q r. subst L.
  unfold fixOffset, localTS, offset, MS_PER_DAY, MS_PER_HOUR, MS_PER_MINUTE in *.
  destruct (dst q) eqn:B; destruct (dst (q - 1)) eqn:A;
    assert (Hc : r < 7200000 \/ 7200000 <= r < 10800000 \/ 10800000 <= r) by lia;
    destruct Hc as [Hc | [Hc | Hc]]; destruct Ho as [-> | ->];
    cbv zeta; known_dst q A B; known_dst q A B; known_dst q A B;
    (split; [ div_lia | intros; lia ]).
Qed.

Lemma fixOffset_day L o :
  o = 60 \/ o = 120 ->
  localDay dst (fst (fixOffset dst L o)) = L / MS_PER_DAY.
Proof. intros Ho. apply (fixOffset_local L o Ho). Qed.

Lemma fixOffset_midnight q o :
  o = 60 \/ o = 120 ->
  localTS dst (fst (fixOffset dst (q * MS_PER_DAY) o)) = q * MS_PER_DAY.
Proof.
  intros Ho. apply (fixOffset_local (q * MS_PER_DAY) o Ho).
  left. rewrite Z.mod_mul by discriminate. reflexivity.
Qed.

(** The millisecond before a local midnight has the offset of that
    midnight: the clock never changes at midnight. *)
Lemma localTS_before_midnight ts q :
  localTS dst ts = q * MS_PER_DAY ->
  localTS dst (ts - 1) = q * MS_PER_DAY - 1.
Proof.
  unfold localTS. intros H.
  assert (E : offset dst (ts - 1) = offset dst ts).
  { unfold offset at 1 2.
    replace ((ts - 1 - MS_PER_HOUR) / MS_PER_DAY)
      with ((ts - MS_PER_HOUR) / MS_PER_DAY); [ reflexivity | ].
    destruct (offset_cases ts) as [Ho | Ho]; rewrite Ho in H;
      unfold MS_PER_DAY, MS_PER_HOUR, MS_PER_MINUTE in *; div_lia. }
  rewrite E. lia.
Qed.

Lemma minusDays_day now :
  localDay dst (minusDays dst now 1) = localDay dst now - 1.
Proof.
  unfold minusDays, adjustTime. rewrite Z.eqb_refl.
  rewrite fixOffset_day by apply offset_cases.
  unfold localDay, MS_PER_DAY. div_lia.
Qed.

Lemma plusDays_day ts :
  localDay dst (plusDays dst ts 1) = localDay dst ts + 1.
Proof.
  unfold plusDays, adjustTime. rewrite Z.eqb_refl.
  rewrite fixOffset_day by apply offset_cases.
  unfold localDay, MS_PER_DAY. div_lia.
Qed.

Lemma startOfDay_local ts :
  localTS dst (startOfDay dst ts) = localDay dst ts * MS_PER_DAY.
Proof. unfold startOfDay. apply fixOffset_midnight, offset_cases. Qed.

Lemma endOfDay_local ts :
  localTS dst (endOfDay dst ts)
  = localDay dst ts * MS_PER_DAY + (MS_PER_DAY - 1).
Proof.
  unfold endOfDay, minusMillis, adjustTime.
  change (- (1) =? 0) with false. cbv iota.
  pose proof (startOfDay_local (plusDays dst ts 1)) as Hs.
  rewrite plusDays_day in Hs.
  rewrite Z.mul_0_l, Z.add_0_r, Hs.
  change (?a + - (1)) with (a - 1).
  rewrite (localTS_before_midnight _ (localDay dst ts + 1)).
  - unfold MS_PER_DAY. lia.
  - apply fixOffset_midnight, offset_cases.
Qed.

(** In any zone of the Central European kind the window runs from the
    local midnight to the last local millisecond of the day before
    [now]. *)
Lemma yesterday_window now :
  let '(s, e) := getYesterdayRange dst now in
  localTS dst s = (localDay dst now - 1) * MS_PER_DAY /\
  localTS dst e = (localDay dst now - 1) * MS_PER_DAY + (MS_PER_DAY - 1) /\
  e - s = MS_PER_DAY - 1 - (offset dst e - offset dst s) * MS_PER_MINUTE.
Proof.
  unfold getYesterdayRange.
  pose proof (startOfDay_local (minusDays dst now 1)) as Hs.
  pose proof (endOfDay_local (minusDays dst now 1)) as He.
  rewrite minusDays_day in Hs, He.
  repeat split; try assumption.
  unfold localTS in Hs, He. lia.
Qed.

End ZoneFacts.

(** Summer time 2024 began on 2024-03-31 (day 19813) and ended on
    2024-10-27 (day 20023). *)
Example berlinDST_2024 :
  map berlinDST [19812; 19813; 20022; 20023] = [false; true; true; false].
Proof. vm_compute. reflexivity. Qed.

Example yearOfDay_2024 : map yearOfDay [19722; 19723] = [2023; 2024].
Proof. vm_compute. reflexivity. Qed.

(** Noon of 2024-04-01 in Berlin: yesterday is the day summer time
    began, 2024-03-31 from 00:00 +01:00 to 23:59:59.999 +02:00. *)
Example april_first_2024 :
  getYesterdayRangeBerlin 1711965600000 = (1711839600000, 1711922399999).
Proof. vm_compute. reflexivity. Qed.

(** Noon of 2024-10-28 in Berlin: yesterday is the day summer time
    ended, 2024-10-27 from 00:00 +02:00 to 23:59:59.999 +01:00, which
    lasts 25 hours. *)
Example october_28_2024 :
  getYesterdayRangeBerlin 1730113200000 = (1729980000000, 1730069999999).
Proof. vm_compute. reflexivity. Qed.

(** 02:30 on 2024-04-01: the same time a day earlier does not exist, and
    the window is still that of 2024-03-31. *)
Example april_first_2024_night :
  getYesterdayRangeBerlin 1711931400000 = (1711839600000, 1711922399999).
Proof. vm_compute. reflexivity. Qed.

(** C1, as stated, fails: on 2024-04-01 the window of the previous day
    is 23 hours minus 1 millisecond long, not 24 hours minus 1
    millisecond. *)
Lemma yesterday_window_not_24h :
  ~ (forall now,
       let '(s, e) := getYesterdayRangeBerlin now in
       e - s = MS_PER_DAY - 1).
Proof.
  intros H. specialize (H 1711965600000).
  rewrite april_first_2024 in H. discriminate H.
Qed.

(** C1, amended: for every [now] the window returned by
    [getYesterdayRangeBerlin] starts at local midnight and ends at local
    23:59:59.999 of the calendar day preceding [now] in Europe/Berlin;
    both ends are on that day; the start is not after the end; the
    elapsed time between them is 24 hours minus 1 millisecond corrected
    by the change of UTC offset between them, so it is 23, 24 or 25
    hours minus 1 millisecond, and exactly 24 hours minus 1 millisecond
    when both ends have the same offset. *)
Theorem yesterday_window_berlin (now : Z) :
  let '(s, e) := getYesterdayRangeBerlin now in
  let yesterday := localDay berlinDST now - 1 in
  localDay berlinDST s = yesterday /\ localMillisOfDay berlinDST s = 0 /\
  localDay berlinDST e = yesterday
  /\ localMillisOfDay berlinDST e = MS_PER_DAY - 1 /\
  s <= e /\
  e - s = MS_PER_DAY - 1
          - (offset berlinDST e - offset berlinDST s) * MS_PER_MINUTE /\
  (e - s = 23 * MS_PER_HOUR - 1 \/ e - s = 24 * MS_PER_HOUR - 1
   \/ e - s = 25 * MS_PER_HOUR - 1) /\
  (offset berlinDST s = offset berlinDST e -> e - s = 24 * MS_PER_HOUR - 1).
Proof.
  pose proof (yesterday_window berlinDST now) as H.
  unfold getYesterdayRangeBerlin.
  destruct (getYesterdayRange berlinDST now) as [s e].
  destruct H as (Hs & He & Hd).
  pose proof (offset_cases berlinDST s) as Os.
  pose proof (offset_cases berlinDST e) as Oe.
  cbv zeta. unfold localDay, localMillisOfDay in *. rewrite Hs, He.
  unfold MS_PER_DAY, MS_PER_HOUR, MS_PER_MINUTE in *.
  repeat split.
  - Z.to_euclidean_division_equations; lia.
  - Z.to_euclidean_division_equations; lia.
  - Z.to_euclidean_division_equations; lia.
  - Z.to_euclidean_division_equations; lia.
  - lia.
  - lia.
  - lia.
  - lia.
Qed.

End LuxonFacts.

(** ** The retrying HTTP client *)

Module HttpFacts.

Section Retry.

Context {J : Type}.
Variable fetch : Fetch J.
Variable baseBackoffMs : Z.

Lemma isRetryStatus_spec st :
  isRetryStatus st = true <-> In st [429; 500; 502; 503; 504].
Proof.
  unfold isRetryStatus, retryStatuses. rewrite existsb_exists. split.
  - intros (x & Hin & Heq). apply Z.eqb_eq in Heq. subst. exact Hin.
  - intros Hin. exists st. split; [ exact Hin | apply Z.eqb_refl ].
Qed.

Lemma backoffs_snoc i n :
  backoffs baseBackoffMs i (S n)
  = backoffs baseBackoffMs i n ++ [baseBackoffMs * 2 ^ Z.of_nat (i + n)].
Proof. unfold backoffs. rewrite seq_S, map_app. reflexivity. Qed.

Lemma backoffs_cons i n :
  backoffs baseBackoffMs i (S n)
  = baseBackoffMs * 2 ^ Z.of_nat i :: backoffs baseBackoffMs (S i) n.
Proof. reflexivity. Qed.

(** The loop makes [n <= remaining] attempts: all but the last failed
    in a way that is retried; it returns the first response that is
    not retried, or throws the error of its last attempt once none
    remains. *)
Lemma retryLoop_spec remaining : forall i lastErr slept,
  let r := retryLoop fetch baseBackoffMs remaining i lastErr slept in
  exists n,
    (n <= remaining)%nat /\ attempts r = (i + n)%nat /\
    (forall j, (i <= j)%nat -> (S j < i + n)%nat -> retryable (fetch j) = true) /\
    match outcome r with
    | Ok res =>
        (1 <= n)%nat /\ fetch (i + n - 1)%nat = Resolved res /\
        isRetryStatus (status res) = false /\
        sleeps r = slept ++ backoffs baseBackoffMs i (n - 1)
    | Throw e =>
        n = remaining /\
        (forall j, (i <= j)%nat -> (j < i + n)%nat -> retryable (fetch j) = true) /\
        e = match n with
            | O => match lastErr with
                   | Some e' => e'
                   | None => newError (js "requestWithRetry failed")
                   end
            | S _ => errorOf (fetch (i + n - 1)%nat)
            end /\
        sleeps r = slept ++ backoffs baseBackoffMs i n
    end.
Proof.
  induction remaining as [| rem IH]; intros i lastErr slept.
  - exists O. cbn [retryLoop outcome attempts sleeps].
    split; [ lia | ]. split; [ lia | ]. split; [ intros; lia | ].
    split; [ reflexivity | ]. split; [ intros; lia | ].
    split; [ reflexivity | ]. cbn. now rewrite app_nil_r.
  - cbn [retryLoop].
    assert (Hretry : forall e,
      retryable (fetch i) = true -> errorOf (fetch i) = e ->
      let r := retryLoop fetch baseBackoffMs rem (S i) (Some e)
                 (slept ++ [baseBackoffMs * 2 ^ Z.of_nat i]) in
      exists n,
        (n <= S rem)%nat /\ attempts r = (i + n)%nat /\
        (forall j, (i <= j)%nat -> (S j < i + n)%nat -> retryable (fetch j) = true) /\
        match outcome r with
        | Ok res =>
            (1 <= n)%nat /\ fetch (i + n - 1)%nat = Resolved res /\
            isRetryStatus (status res) = false /\
            sleeps r = slept ++ backoffs baseBackoffMs i (n - 1)
        | Throw e' =>
            n = S rem /\
            (forall j, (i <= j)%nat -> (j < i + n)%nat -> retryable (fetch j) = true) /\
            e' = match n with
                 | O => match lastErr with
                        | Some e'' => e''
                        | None => newError (js "requestWithRetry failed")
                        end
                 | S _ => errorOf (fetch (i + n - 1)%nat)
                 end /\
            sleeps r = slept ++ backoffs baseBackoffMs i n
        end).
    { intros e Hi He r.
      destruct (IH (S i) (Some e) (slept ++ [baseBackoffMs * 2 ^ Z.of_nat i]))
        as (n & Hn & Hatt & Hbefore & Hout).
      fold r in Hatt, Hout. exists (S n).
      assert (Hstep : forall j, (i <= j)%nat ->
                (j = i \/ (S i <= j)%nat)) by (intros; lia).
      split; [ lia | ]. split; [ lia | ]. split.
      - intros j Hj Hlt. destruct (Hstep j Hj) as [-> | Hj']; [ exact Hi | ].
        apply Hbefore; lia.
      - destruct (outcome r) as [res | e'].
        + destruct Hout as (Hn1 & Hlast & Hst & Hsl).
          split; [ lia | ]. split; [ | split; [ exact Hst | ] ].
          * replace (i + S n - 1)%nat with (S i + n - 1)%nat by lia. exact Hlast.
          * rewrite Hsl, <- app_assoc. cbn [app].
            replace (S n - 1)%nat with (S (n - 1)) by lia.
            rewrite backoffs_cons. reflexivity.
        + destruct Hout as (Hn1 & Hall & He' & Hsl).
          split; [ lia | ]. split; [ | split ].
          * intros j Hj Hlt. destruct (Hstep j Hj) as [-> | Hj']; [ exact Hi | ].
            apply Hall; lia.
          * rewrite He'. destruct n as [| n'].
            -- replace (i + 1 - 1)%nat with i by lia. symmetry. exact He.
            -- replace (i + S (S n') - 1)%nat with (S i + S n' - 1)%nat by lia.
               reflexivity.
          * rewrite Hsl, <- app_assoc. cbn [app].
            rewrite backoffs_cons. reflexivity. }
    destruct (fetch i) as [res | msg] eqn:Hf.
    + destruct (isRetryStatus (status res)) eqn:Hst.
      * apply Hretry; [ exact Hst | reflexivity ].
      * exists 1%nat. cbn [outcome attempts sleeps].
        split; [ lia | ]. split; [ lia | ]. split; [ intros; lia | ].
        split; [ lia | ]. split.
        { replace (i + 1 - 1)%nat with i by lia. exact Hf. }
        split; [ exact Hst | ]. cbn. now rewrite app_nil_r.
    + apply Hretry; reflexivity.
Qed.

End Retry.

(** C2: with the defaults, [requestWithRetry] makes between 1 and 4
    attempts; every attempt before the last one failed at the network
    level or had a status in 429, 500, 502, 503, 504; after the attempt
    number [k] it sleeps [800 * 2 ^ k] milliseconds; the first response
    with any other status is returned at once; and when all 4 attempts
    fail it throws the error of the last one: for a last response, an
    [Error] whose message is ["HTTP "], the status, a space, the status
    text, [": "] and the body (empty when it cannot be read); for a
    last network failure, the exception of that failure.  So four
    responses 503 "Service Unavailable" with the body "busy" end in
    the error "HTTP 503 Service Unavailable: busy". *)
Theorem requestWithRetry_contract {J : Type} (fetch : Fetch J) :
  let r := requestWithRetry fetch in
  (1 <= attempts r <= 4)%nat /\
  (forall j, (S j < attempts r)%nat -> retryable (fetch j) = true) /\
  (forall o : FetchOutcome J,
      retryable o = true <->
      (exists msg, o = Rejected msg)
      \/ (exists res, o = Resolved res /\ In (status res) [429; 500; 502; 503; 504])) /\
  (forall i res,
      (i < 4)%nat -> (forall j, (j < i)%nat -> retryable (fetch j) = true) ->
      fetch i = Resolved res -> isRetryStatus (status res) = false ->
      outcome r = Ok res /\ attempts r = S i) /\
  match outcome r with
  | Ok res =>
      fetch (attempts r - 1)%nat = Resolved res /\
      ~ In (status res) [429; 500; 502; 503; 504] /\
      sleeps r = backoffs 800 0 (attempts r - 1)
  | Throw e =>
      attempts r = 4%nat /\
      (forall j, (j < 4)%nat -> retryable (fetch j) = true) /\
      e = errorOf (fetch 3%nat) /\
      match fetch 3%nat with
      | Resolved res =>
          err_class e = Error /\
          err_message e
          = js "HTTP " ++ numToString (status res) ++ js " "
            ++ statusText res ++ js ": "
            ++ match text res with Ok body => body | Throw _ => [] end
      | Rejected msg => err_class e = TypeError /\ err_message e = msg
      end /\
      sleeps r = [800; 1600; 3200; 6400]
  end /\
  (forall res : Response J,
      status res = 503 -> statusText res = js "Service Unavailable" ->
      text res = Ok (js "busy") ->
      (forall i, fetch i = Resolved res) ->
      outcome r
      = Throw {| err_class := Error;
                 err_message := js "HTTP 503 Service Unavailable: busy" |}).
Proof.
  intros r.
  destruct (retryLoop_spec fetch 800 4 0 None []) as (n & Hn & Hatt & Hbefore & Hout).
  change (retryLoop fetch 800 4 0 None []) with r in Hatt, Hout.
  cbn [Nat.add app] in *.
  assert (H1 : (1 <= n)%nat).
  { destruct (outcome r); [ apply Hout | destruct Hout as (-> & _); lia ]. }
  split; [ lia | ]. split; [ | split; [ | split; [ | split ] ] ].
  - intros j Hj. apply Hbefore; lia.
  - intros o. destruct o as [res | msg]; cbn [retryable].
    + rewrite isRetryStatus_spec. split.
      * intros Hin. right. exists res. split; [ reflexivity | exact Hin ].
      * intros [(msg & Hm) | (res' & Hr & Hin)]; [ discriminate Hm | ].
        injection Hr as <-. exact Hin.
    + split; [ intros _; left; exists msg; reflexivity | reflexivity ].
  - intros i res Hi Hall Hf Hst.
    assert (Hnot : retryable (fetch i) = false) by (rewrite Hf; exact Hst).
    destruct (outcome r) as [res' | e].
    + destruct Hout as (_ & Hlast & Hst' & _).
      assert (Hlt : (n - 1 < i)%nat \/ (n - 1 = i)%nat \/ (i < n - 1)%nat) by lia.
      destruct Hlt as [Hlt | [Heq | Hgt]].
      * specialize (Hall (n - 1)%nat Hlt). rewrite Hlast in Hall.
        cbn [retryable] in Hall. congruence.
      * rewrite Heq in Hlast. rewrite Hlast in Hf. injection Hf as ->.
        split; [ reflexivity | lia ].
      * rewrite Hbefore in Hnot by lia. discriminate Hnot.
    + destruct Hout as (-> & Hall' & _). rewrite Hall' in Hnot by lia.
      discriminate Hnot.
  - destruct (outcome r) as [res | e].
    + destruct Hout as (_ & Hlast & Hst & Hsl). rewrite Hatt.
      split; [ exact Hlast | ]. split; [ | exact Hsl ].
      rewrite <- isRetryStatus_spec. congruence.
    + destruct Hout as (-> & Hall & He & Hsl).
      split; [ exact Hatt | ].
      split; [ intros j Hj; apply Hall; lia | ].
      split; [ exact He | ]. split; [ | exact Hsl ].
      cbn [Nat.add Nat.sub] in He. rewrite He.
      destruct (fetch 3%nat) as [res | msg]; cbn [errorOf];
        split; reflexivity.
  - intros res Hst Htxt Hbody Hfetch.
    assert (Hretry : isRetryStatus (status res) = true)
      by (rewrite Hst; reflexivity).
    destruct (outcome r) as [res' | e].
    + destruct Hout as (_ & Hlast & Hst' & _).
      rewrite Hfetch in Hlast. injection Hlast as <-. congruence.
    + destruct Hout as (-> & _ & He & _). cbn [Nat.add Nat.sub] in He.
      rewrite Hfetch in He. cbn [errorOf] in He. rewrite He.
      unfold httpError, textOrEmpty. rewrite Hst, Htxt, Hbody. reflexivity.
Qed.

(** A request that fails twice, at the network level and with a 503,
    then succeeds: the response is returned after delays of 800 and 1600
    milliseconds. *)
Example transient_failures_then_success :
  let fetch : Fetch unit := fun i =>
    match i with
    | 0%nat => Rejected (js "fetch failed")
    | 1%nat => Resolved (Samples.failure 503 "Service Unavailable")
    | _ => Resolved (Samples.okResponse tt)
    end in
  requestWithRetry fetch
  = {| outcome := Ok (Samples.okResponse tt); attempts := 3;
       sleeps := [800; 1600] |}.
Proof. vm_compute. reflexivity. Qed.

End HttpFacts.

(** ** Star ratings *)

Module StarRatingFacts.

Lemma jsstring_eqb_eq a b : jsstring_eqb a b = true <-> a = b.
Proof.
  unfold jsstring_eqb. destruct (list_eq_dec N.eq_dec a b); split;
    congruence.
Qed.

Lemma lookup_Some m s v : lookup m s = Some v -> In (s, v) m.
Proof.
  induction m as [| [k w] m IH]; cbn; [ discriminate | ].
  destruct (jsstring_eqb k s) eqn:E.
  - apply jsstring_eqb_eq in E. intros [= <-]. left. congruence.
  - intros H. right. exact (IH H).
Qed.

Lemma lookup_None m s : ~ In s (map fst m) -> lookup m s = None.
Proof.
  induction m as [| [k w] m IH]; cbn; [ reflexivity | ].
  intros H. destruct (jsstring_eqb k s) eqn:E.
  - apply jsstring_eqb_eq in E. exfalso. apply H. left. exact E.
  - apply IH. intros Hin. apply H. right. exact Hin.
Qed.

Lemma lookup_starMap name n :
  In (name, n) starMap -> lookup starMap name = Some n.
Proof.
  cbn. intros H.
  repeat (destruct H as [[= <- <-] | H]; [ vm_compute; reflexivity | ]).
  contradiction.
Qed.

Lemma starMap_range name n : In (name, n) starMap -> 1 <= n <= 5.
Proof.
  cbn. intros H.
  repeat (destruct H as [[= <- <-] | H]; [ lia | ]).
  contradiction.
Qed.

Section Upper.

Variable toUpperCase : jsstring -> jsstring.

(** On ASCII text [toUpperCase] changes the letters a to z only. *)
Hypothesis toUpperCase_ascii :
  forall s, forallb isAscii s = true -> toUpperCase s = asciiToUpperCase s.

(** C10: [starRatingToInt] maps the names ONE, TWO, THREE, FOUR,
    FIVE, in any mix of upper and lower case, to 1, 2, 3, 4, 5
    respectively; it returns null for an absent value, for the empty
    string and for every string whose upper-case form is none of the
    five names; it is total, and whatever it returns that is not null
    is the number of the name given, between 1 and 5. *)
Theorem starRatingToInt_spec :
  (forall s name n,
      In (name, n)
        [ (js "ONE", 1); (js "TWO", 2); (js "THREE", 3);
          (js "FOUR", 4); (js "FIVE", 5) ] ->
      forallb isAscii s = true ->
      asciiToUpperCase s = name ->
      starRatingToInt toUpperCase (Some s) = Some n) /\
  starRatingToInt toUpperCase (Some (js "ONE")) = Some 1 /\
  starRatingToInt toUpperCase (Some (js "two")) = Some 2 /\
  starRatingToInt toUpperCase (Some (js "Three")) = Some 3 /\
  starRatingToInt toUpperCase (Some (js "fOUR")) = Some 4 /\
  starRatingToInt toUpperCase (Some (js "FIVE")) = Some 5 /\
  starRatingToInt toUpperCase None = None /\
  starRatingToInt toUpperCase (Some []) = None /\
  (forall s,
      ~ In (toUpperCase s)
          [js "ONE"; js "TWO"; js "THREE"; js "FOUR"; js "FIVE"] ->
      starRatingToInt toUpperCase (Some s) = None) /\
  (forall star n,
      starRatingToInt toUpperCase star = Some n ->
      1 <= n <= 5 /\
      exists s,
        star = Some s /\
        In (toUpperCase s, n)
          [ (js "ONE", 1); (js "TWO", 2); (js "THREE", 3);
            (js "FOUR", 4); (js "FIVE", 5) ]).
Proof.
  assert (Hnamed : forall s name n,
            In (name, n)
              [ (js "ONE", 1); (js "TWO", 2); (js "THREE", 3);
                (js "FOUR", 4); (js "FIVE", 5) ] ->
            forallb isAscii s = true ->
            asciiToUpperCase s = name ->
            starRatingToInt toUpperCase (Some s) = Some n).
  { intros s name n Hin Hascii Hup. unfold starRatingToInt.
    destruct s as [| c s'].
    - cbn in Hup. subst name. exfalso. revert Hin. cbn.
      intuition discriminate.
    - cbn [truthy negb]. rewrite toUpperCase_ascii by exact Hascii.
      rewrite Hup. apply lookup_starMap. exact Hin. }
  split; [ exact Hnamed | ].
  split; [ apply (Hnamed _ (js "ONE")); vm_compute; tauto | ].
  split; [ apply (Hnamed _ (js "TWO")); vm_compute; tauto | ].
  split; [ apply (Hnamed _ (js "THREE")); vm_compute; tauto | ].
  split; [ apply (Hnamed _ (js "FOUR")); vm_compute; tauto | ].
  split; [ apply (Hnamed _ (js "FIVE")); vm_compute; tauto | ].
  split; [ reflexivity | ]. split; [ reflexivity | ]. split.
  - intros s Hnot. unfold starRatingToInt.
    destruct (negb (truthy s)); [ reflexivity | ].
    apply lookup_None. exact Hnot.
  - intros star n H. unfold starRatingToInt in H.
    destruct star as [s |]; [ | discriminate ].
    destruct (negb (truthy s)); [ discriminate | ].
    apply lookup_Some in H. split.
    + exact (starMap_range _ _ H).
    + exists s. split; [ reflexivity | exact H ].
Qed.

End Upper.

Example five_mixed_case :
  starRatingToInt asciiToUpperCase (Some (js "Five")) = Some 5.
Proof. vm_compute. reflexivity. Qed.

(** The contract of C10 at [toUpperCase := asciiToUpperCase]: the five
    names in mixed case. *)
Lemma starRatingToInt_spec_witness :
  (forall s, forallb isAscii s = true ->
             asciiToUpperCase s = asciiToUpperCase s) /\
  map (fun s => starRatingToInt asciiToUpperCase (Some (js s)))
    ["one"; "Two"; "three"; "FOUR"; "fiVe"]%string
  = [Some 1; Some 2; Some 3; Some 4; Some 5].
Proof.
  split.
  - intros s _. reflexivity.
  - pose proof (proj1 (starRatingToInt_spec asciiToUpperCase
                         (fun s _ => eq_refl))) as H.
    cbn [map].
    apply (f_equal2 cons);
      [ apply (H (js "one") (js "ONE") 1);
        first [ reflexivity | vm_compute; tauto ] | ].
    apply (f_equal2 cons);
      [ apply (H (js "Two") (js "TWO") 2);
        first [ reflexivity | vm_compute; tauto ] | ].
    apply (f_equal2 cons);
      [ apply (H (js "three") (js "THREE") 3);
        first [ reflexivity | vm_compute; tauto ] | ].
    apply (f_equal2 cons);
      [ apply (H (js "FOUR") (js "FOUR") 4);
        first [ reflexivity | vm_compute; tauto ] | ].
    apply (f_equal2 cons);
      [ apply (H (js "fiVe") (js "FIVE") 5);
        first [ reflexivity | vm_compute; tauto ] | ].
    reflexivity.
Defined.

End StarRatingFacts.

(** ** Chunking and delivery *)

Module ChunkFacts.

Import Make.

(** On indices within the array, [slice] takes what lies between
    them. *)
Lemma slice_Finite {A} (arr : list A) (i e : Z) :
  0 <= i <= e ->
  slice arr (Finite i) (Finite e)
  = firstn (Z.to_nat (e - i)) (skipn (Z.to_nat i) arr).
Proof.
  intros H. unfold slice, sliceIndex.
  destruct (i <? 0) eqn:Ei; [ apply Z.ltb_lt in Ei; lia | ].
  destruct (e <? 0) eqn:Ee; [ apply Z.ltb_lt in Ee; lia | ].
  set (n := Z.of_nat (List.length arr)).
  destruct (Z_le_gt_dec i n) as [Hi | Hi].
  - replace (Z.to_nat (Z.min i n)) with (Z.to_nat i) by lia.
    destruct (Z_le_gt_dec e n) as [He | He].
    + f_equal. lia.
    + rewrite !firstn_all2; [ reflexivity | | ];
        rewrite length_skipn; lia.
  - rewrite !skipn_all2 by lia. rewrite !firstn_nil. reflexivity.
Qed.

Section Chunks.
Context {A : Type}.
Variable arr : list A.
Variable size : Z.
Hypothesis size_pos : 0 < size.

Local Abbreviation n := (Z.of_nat (List.length arr)).

Lemma chunkSizes_zero : chunkSizes 0 size = [].
Proof.
  unfold chunkSizes. rewrite Z.div_0_l, Z.mod_0_l by lia. reflexivity.
Qed.

Lemma chunkSizes_small m : 0 < m < size -> chunkSizes m size = [m].
Proof.
  intros H. unfold chunkSizes.
  rewrite Z.div_small, Z.mod_small by lia.
  destruct (m =? 0) eqn:E; [ lia | reflexivity ].
Qed.

Lemma chunkSizes_full m :
  size <= m -> chunkSizes m size = size :: chunkSizes (m - size) size.
Proof.
  intros H. unfold chunkSizes.
  assert (Hd : m / size = (m - size) / size + 1).
  { rewrite <- Z.div_add by lia. f_equal. lia. }
  assert (Hm : m mod size = (m - size) mod size).
  { rewrite <- (Z.mod_add (m - size) 1 size) by lia. f_equal. lia. }
  assert (0 <= (m - size) / size) by (apply Z.div_pos; lia).
  rewrite Hd, Hm.
  replace (Z.to_nat ((m - size) / size + 1))
    with (S (Z.to_nat ((m - size) / size))) by lia.
  reflexivity.
Qed.

Lemma chunkLoop_spec fuel : forall i,
  0 <= i -> n - i <= Z.of_nat fuel ->
  List.concat (chunkLoop fuel arr (Finite size) (Finite i))
  = skipn (Z.to_nat i) arr /\
  lengths (chunkLoop fuel arr (Finite size) (Finite i))
  = chunkSizes (Z.max 0 (n - i)) size.
Proof.
  induction fuel as [| fuel IH]; intros i Hi Hfuel.
  - cbn [chunkLoop List.concat lengths map].
    rewrite skipn_all2 by lia.
    replace (Z.max 0 (n - i)) with 0 by lia.
    rewrite chunkSizes_zero. split; reflexivity.
  - cbn [chunkLoop numLtb numAdd]. destruct (i <? n) eqn:Hlt.
    + apply Z.ltb_lt in Hlt.
      destruct (IH (i + size)) as [Hc Hl]; [ lia | lia | ].
      cbn [List.concat lengths map].
      fold (lengths (chunkLoop fuel arr (Finite size) (Finite (i + size)))).
      rewrite Hc, Hl, slice_Finite by lia.
      replace (i + size - i) with size by lia.
      split.
      * replace (Z.to_nat (i + size)) with (Z.to_nat size + Z.to_nat i)%nat by lia.
        rewrite <- skipn_skipn. apply firstn_skipn.
      * rewrite length_firstn, length_skipn.
        replace (Z.max 0 (n - i)) with (n - i) by lia.
        destruct (Z_lt_le_dec (n - i) size) as [Hsmall | Hbig].
        -- rewrite (chunkSizes_small (n - i)) by lia.
           replace (Z.max 0 (n - (i + size))) with 0 by lia.
           rewrite chunkSizes_zero. f_equal. lia.
        -- rewrite (chunkSizes_full (n - i)) by lia.
           replace (Z.max 0 (n - (i + size))) with (n - i - size) by lia.
           f_equal. lia.
    + apply Z.ltb_ge in Hlt.
      cbn [List.concat lengths map].
      rewrite skipn_all2 by lia.
      replace (Z.max 0 (n - i)) with 0 by lia.
      rewrite chunkSizes_zero. split; reflexivity.
Qed.

Lemma chunkArray_spec :
  List.concat (chunkArray arr (Finite size)) = arr /\
  lengths (chunkArray arr (Finite size)) = chunkSizes n size.
Proof.
  unfold chunkArray. cbn [numLeb].
  destruct (size <=? 0) eqn:E; [ apply Z.leb_le in E; lia | ].
  destruct (chunkLoop_spec (List.length arr) 0) as [Hc Hl]; [ lia | lia | ].
  rewrite Hc, Hl. split; [ reflexivity | ].
  f_equal. lia.
Qed.

End Chunks.

(** With a size that is not a number the loop pushes one empty slice
    and ends: [i] is [NaN] after the first iteration. *)
Lemma chunkArray_NaN {A} (arr : list A) :
  chunkArray arr NaN = match arr with [] => [] | _ :: _ => [[]] end.
Proof.
  unfold chunkArray. cbn [numLeb]. destruct arr as [| a l]; [ reflexivity | ].
  cbn [List.length chunkLoop numLtb numAdd].
  destruct (0 <? Z.of_nat (S (List.length l))) eqn:E;
    [ | apply Z.ltb_ge in E; lia ].
  unfold slice. cbn [sliceIndex]. cbn [Nat.sub firstn].
  destruct (List.length l); reflexivity.
Qed.

(** With an infinite size the first slice takes the whole array. *)
Lemma chunkArray_PosInf {A} (arr : list A) :
  chunkArray arr PosInf = match arr with [] => [] | _ :: _ => [arr] end.
Proof.
  unfold chunkArray. cbn [numLeb]. destruct arr as [| a l]; [ reflexivity | ].
  cbn [List.length chunkLoop numLtb numAdd].
  destruct (0 <? Z.of_nat (S (List.length l))) eqn:E;
    [ | apply Z.ltb_ge in E; lia ].
  f_equal.
  - unfold slice, sliceIndex.
    change (0 <? 0) with false. cbv iota.
    replace (Z.to_nat (Z.min 0 (Z.of_nat (List.length (a :: l)))))
      with 0%nat by lia.
    rewrite Nat.sub_0_r. apply firstn_all.
  - destruct (List.length l); reflexivity.
Qed.

Lemma chunkArray_nonpositive {A} (arr : list A) size :
  numLeb size (Finite 0) = true -> chunkArray arr size = [arr].
Proof. unfold chunkArray. intros ->. reflexivity. Qed.

(** Unless the size is [NaN], the chunks are the array cut in
    pieces. *)
Lemma chunkArray_concat {A} (arr : list A) size :
  size <> NaN -> List.concat (chunkArray arr size) = arr.
Proof.
  intros Hsize. destruct size as [| | z |]; [ congruence | | | ].
  - cbn. apply app_nil_r.
  - destruct (Z_lt_le_dec 0 z) as [Hz | Hz].
    + apply (chunkArray_spec arr z Hz).
    + rewrite chunkArray_nonpositive; [ cbn; apply app_nil_r | ].
      cbn [numLeb]. apply Z.leb_le. exact Hz.
  - rewrite chunkArray_PosInf. destruct arr; [ reflexivity | ].
    cbn [List.concat]. apply app_nil_r.
Qed.

Lemma payloadsFrom_data metaBase total chunks : forall i,
  map data (payloadsFrom metaBase total i chunks) = chunks /\
  map count (payloadsFrom metaBase total i chunks) = lengths chunks.
Proof.
  induction chunks as [| c chunks IH]; intros i; cbn [payloadsFrom map lengths].
  - split; reflexivity.
  - destruct (IH (i + 1)) as [Hd Hc]. cbn [data count].
    rewrite Hd. unfold lengths in Hc. rewrite Hc. split; reflexivity.
Qed.

(** The payloads carry the chunks sent, in order. *)
Lemma payloads_data metaBase (items : list Item) size :
  map data (payloads metaBase items size) = chunksToSend items size.
Proof. unfold payloads. apply payloadsFrom_data. Qed.

Lemma chunksToSend_concat (items : list Item) size :
  List.concat (chunksToSend items size) = List.concat (chunkArray items size).
Proof.
  unfold chunksToSend. destruct (chunkArray items size); reflexivity.
Qed.

(** With a size that is not a number, one chunk without records is
    sent, whatever the records. *)
Lemma chunksToSend_NaN (items : list Item) : chunksToSend items NaN = [[]].
Proof.
  unfold chunksToSend. rewrite chunkArray_NaN. destruct items; reflexivity.
Qed.

(** Unless the batch size is [NaN], the payloads carry the records, all
    of them and in order. *)
Lemma payloads_concat metaBase (items : list Item) size :
  size <> NaN ->
  List.concat (map data (payloads metaBase items size)) = items.
Proof.
  intros Hsize. rewrite payloads_data, chunksToSend_concat.
  apply chunkArray_concat. exact Hsize.
Qed.

(** Whatever the batch size, the payloads carry records collected
    only. *)
Lemma payloads_In metaBase (items : list Item) size p it :
  In p (payloads metaBase items size) -> In it (data p) -> In it items.
Proof.
  intros Hp Hit. destruct size as [| | z |] eqn:Es.
  - assert (Hd : In (data p) (chunksToSend items NaN))
      by (rewrite <- (payloads_data metaBase items NaN); apply in_map;
          exact Hp).
    rewrite chunksToSend_NaN in Hd. destruct Hd as [Hd | []].
    rewrite <- Hd in Hit. destruct Hit.
  - rewrite <- (payloads_concat metaBase items NegInf) by discriminate.
    apply in_concat. exists (data p). split; [ apply in_map; exact Hp | exact Hit ].
  - rewrite <- (payloads_concat metaBase items (Finite z)) by discriminate.
    apply in_concat. exists (data p). split; [ apply in_map; exact Hp | exact Hit ].
  - rewrite <- (payloads_concat metaBase items PosInf) by discriminate.
    apply in_concat. exists (data p). split; [ apply in_map; exact Hp | exact Hit ].
Qed.

Lemma sendAll_one env post p : fst (sendAll env post [p]) = [p].
Proof.
  cbn [sendAll]. destruct (postToMake env (post p)); reflexivity.
Qed.

(** C5: for a positive [size], [chunkArray] cuts the records into
    contiguous chunks in order (their concatenation is the list), all
    of length [size] except possibly the last, which holds the
    remainder; 205 records cut every 200 give chunks of sizes 200 and
    5; [main] sends these chunks when there are records, one payload
    per chunk with the chunk as data and its length as count; and for
    no record it sends exactly one payload, with count 0 and no data. *)
Theorem chunking_contract (items : list Item) (size : Z)
    (metaBase : MetaBase) (env : Env.t) (post : Payload -> Fetch unit) :
  0 < size ->
  let n := Z.of_nat (List.length items) in
  let chunks := chunkArray items (Finite size) in
  List.concat chunks = items /\
  lengths chunks
  = repeat size (Z.to_nat (n / size))
    ++ (if n mod size =? 0 then [] else [n mod size]) /\
  (n = 205 -> size = 200 -> lengths chunks = [200; 5]) /\
  (items <> [] -> chunksToSend items (Finite size) = chunks) /\
  map data (payloads metaBase items (Finite size)) = chunksToSend items (Finite size) /\
  map count (payloads metaBase items (Finite size))
  = lengths (chunksToSend items (Finite size)) /\
  (items = [] ->
   chunksToSend items (Finite size) = [[]] /\
   payloads metaBase items (Finite size)
   = [ {| meta := metaBase; batch_index := 1; batch_total := 1;
          count := 0; data := [] |} ] /\
   fst (sendAll env post (payloads metaBase items (Finite size)))
   = [ {| meta := metaBase; batch_index := 1; batch_total := 1;
          count := 0; data := [] |} ]).
Proof.
  intros Hsize n chunks.
  destruct (chunkArray_spec items size Hsize) as [Hc Hl].
  fold chunks in Hc, Hl. fold n in Hl. unfold chunkSizes in Hl.
  split; [ exact Hc | ]. split; [ exact Hl | ].
  split; [ | split; [ | split; [ | split ] ] ].
  - intros Hn Hs. rewrite Hl, Hn, Hs. reflexivity.
  - intros Hne. unfold chunksToSend. fold chunks.
    destruct chunks as [| c cs] eqn:E; [ | reflexivity ].
    cbn in Hc. congruence.
  - apply payloads_data.
  - unfold payloads. apply payloadsFrom_data.
  - intros ->.
    assert (E : chunksToSend [] (Finite size) = [[]]).
    { unfold chunksToSend, chunkArray. cbn [numLeb].
      destruct (size <=? 0) eqn:Hle; [ apply Z.leb_le in Hle; lia | ].
      reflexivity. }
    assert (P : payloads metaBase [] (Finite size)
                = [ {| meta := metaBase; batch_index := 1; batch_total := 1;
                       count := 0; data := [] |} ]).
    { unfold payloads. rewrite E. reflexivity. }
    split; [ exact E | ]. split; [ exact P | ].
    rewrite P. apply sendAll_one.
Qed.

(** Three records cut every 2. *)
Lemma chunking_contract_witness :
  0 < 2 /\
  List.concat (chunkArray Samples.itemsCFirst (Finite 2)) = Samples.itemsCFirst /\
  lengths (chunkArray Samples.itemsCFirst (Finite 2)) = [2; 1].
Proof.
  split; [ lia | ].
  destruct (chunking_contract Samples.itemsCFirst 2
              {| source := js "google_business_profile";
                 timezone := js "Europe/Berlin";
                 range_start := js "2024-03-31T00:00:00.000+01:00";
                 range_end := js "2024-03-31T23:59:59.999+02:00";
                 generated_at := js "2024-04-01T12:00:00.000+02:00";
                 account_id := js "123";
                 locations_total := 3;
                 count_total := 3 |}
              Samples.env (fun _ _ => Rejected (js "fetch failed"))
              ltac:(lia)) as (Hc & Hl & _).
  split; [ exact Hc | exact Hl ].
Defined.

End ChunkFacts.

(** ** Harvesting the reviews of a location *)

Module HarvestFacts.

Section Harvest.

Variable fromISO : jsstring -> option Z.
Variable reviewsUrl : jsstring -> jsstring.
Variable pages : nat -> jsstring -> Fetch ReviewsPage.
Variables startMs endMs : Z.

Local Abbreviation geStart := (geStart fromISO startMs).
Local Abbreviation leEnd := (leEnd fromISO endMs).
Local Abbreviation scanReview := (scanReview fromISO startMs endMs).
Local Abbreviation scanPage := (scanPage fromISO startMs endMs).
Local Abbreviation atOrAfterStart := (atOrAfterStart fromISO startMs).
Local Abbreviation inWindow := (inWindow fromISO startMs endMs).
Local Abbreviation createdAt := (createdAt fromISO).
Local Abbreviation staleAfter := (staleAfter fromISO startMs).
Local Abbreviation stopsAfter := (stopsAfter fromISO startMs).
Local Abbreviation harvestLoop :=
  (harvestLoop fromISO reviewsUrl pages startMs endMs).
Local Abbreviation listReviewsForLocation :=
  (listReviewsForLocation fromISO reviewsUrl pages startMs endMs).

Lemma scanReview_spec b out r :
  scanReview (b, out) r
  = (b || atOrAfterStart r, out ++ (if inWindow r then [r] else [])).
Proof.
  unfold Reviews.scanReview, Reviews.atOrAfterStart, Reviews.inWindow,
    Reviews.createdAt, Reviews.geStart, Reviews.leEnd.
  destruct (createTime r) as [ct |].
  - destruct (truthy ct); cbn [negb].
    + destruct (fromISO ct) as [ms |].
      * destruct (startMs <=? ms), (ms <=? endMs), b; cbn;
          rewrite ?app_nil_r; reflexivity.
      * destruct b; cbn; rewrite ?app_nil_r; reflexivity.
    + destruct b; cbn; rewrite ?app_nil_r; reflexivity.
  - destruct b; cbn; rewrite ?app_nil_r; reflexivity.
Qed.

Lemma fold_scanReview rs : forall b out,
  fold_left scanReview rs (b, out)
  = (b || existsb atOrAfterStart rs, out ++ filter inWindow rs).
Proof.
  induction rs as [| r rs IH]; intros b out; cbn [fold_left existsb filter].
  - rewrite orb_false_r, app_nil_r. reflexivity.
  - rewrite scanReview_spec, IH, orb_assoc, <- app_assoc.
    destruct (inWindow r); reflexivity.
Qed.

(** The loop over a page marks [anyGeStart] when some review of the
    page was created at or after the start, and appends the reviews of
    the window in page order. *)
Lemma scanPage_spec out rs :
  scanPage out rs = (existsb atOrAfterStart rs, out ++ filter inWindow rs).
Proof. unfold Reviews.scanPage. apply fold_scanReview. Qed.

(** One iteration of the loop on a page that was fetched. *)
Lemma harvestLoop_step fuel k out tok pbc j :
  getJson (reviewsUrl tok) (pages k tok) = Ok j ->
  harvestLoop (S fuel) k out tok pbc
  = if stopsAfter pbc j then
      (Returned (out ++ filter inWindow (pageReviews j)), [tok])
    else
      let '(h, toks) :=
        harvestLoop fuel (S k) (out ++ filter inWindow (pageReviews j))
          (orEmpty (nextPageToken j)) (staleAfter pbc j) in
      (h, tok :: toks).
Proof.
  intros Hj. cbn [Reviews.harvestLoop]. rewrite Hj.
  unfold Reviews.stopsAfter, Reviews.staleAfter, Reviews.pageReviews.
  set (rs := match reviews j with Some l => l | None => [] end).
  destruct rs as [| r rs'] eqn:Ers.
  - cbn. rewrite app_nil_r. reflexivity.
  - rewrite <- Ers. replace (List.length rs =? 0)%nat with false
      by (rewrite Ers; reflexivity).
    rewrite scanPage_spec. cbn [orb].
    destruct (existsb atOrAfterStart rs); cbn [negb].
    + change (2 <=? 0) with false. cbn [orb].
      destruct (truthy (orEmpty (nextPageToken j))); reflexivity.
    + destruct (2 <=? pbc + 1); cbn [orb]; [ reflexivity | ].
      destruct (truthy (orEmpty (nextPageToken j))); reflexivity.
Qed.

Lemma stopsAfter_spec pbc j :
  stopsAfter pbc j = true <->
  pageReviews j = [] \/ 2 <= staleAfter pbc j
  \/ orEmpty (nextPageToken j) = [].
Proof.
  unfold Reviews.stopsAfter. rewrite !orb_true_iff, Nat.eqb_eq, Z.leb_le,
    negb_true_iff, length_zero_iff_nil.
  assert (Ht : forall t : jsstring, truthy t = false <-> t = [])
    by (intros [| c t]; split; intros H; try reflexivity; discriminate H).
  rewrite Ht. tauto.
Qed.

Local Abbreviation Paginates :=
  (Paginates fromISO reviewsUrl pages startMs endMs).

(** A harvest that ends within the fuel paginates as the contract
    says. *)
Lemma harvestLoop_Paginates fuel : forall k out tok pbc h toks,
  harvestLoop fuel k out tok pbc = (h, toks) ->
  (forall o, h <> Unfinished o) ->
  Paginates k tok pbc out (h, toks).
Proof.
  induction fuel as [| fuel IH]; intros k out tok pbc h toks H Hfin.
  - injection H as <- <-. destruct (Hfin out eq_refl).
  - destruct (getJson (reviewsUrl tok) (pages k tok)) as [j | e] eqn:Hj.
    + rewrite (harvestLoop_step _ _ _ _ _ _ Hj) in H.
      destruct (stopsAfter pbc j) eqn:Hs.
      * injection H as <- <-.
        apply (paginates_stop _ _ _ _ _ _ _ _ _ _ Hj).
        apply stopsAfter_spec. exact Hs.
      * destruct (Reviews.harvestLoop _ _ _ _ _ fuel (S k) _ _ _)
          as [h' toks'] eqn:Hrec.
        injection H as <- <-.
        assert (Hn : ~ (pageReviews j = [] \/ 2 <= staleAfter pbc j
                        \/ orEmpty (nextPageToken j) = [])).
        { rewrite <- stopsAfter_spec, Hs. discriminate. }
        apply (paginates_next _ _ _ _ _ _ _ _ _ _ _ _ Hj).
        -- intros E. apply Hn. left. exact E.
        -- destruct (Z_lt_le_dec (staleAfter pbc j) 2) as [Hlt | Hge];
             [ exact Hlt | exfalso; apply Hn; right; left; exact Hge ].
        -- intros E. apply Hn. right. right. exact E.
        -- apply (IH _ _ _ _ _ _ Hrec). exact Hfin.
    + cbn [Reviews.harvestLoop] in H. rewrite Hj in H. injection H as <- <-.
      apply paginates_throw. exact Hj.
Qed.

(** A pagination of [n] requests is what the loop does, given fuel for
    [n] requests. *)
Lemma Paginates_harvestLoop k tok pbc out r :
  Paginates k tok pbc out r ->
  forall fuel, (List.length (snd r) <= fuel)%nat ->
  harvestLoop fuel k out tok pbc = r.
Proof.
  induction 1 as [k tok pbc out e Hj | k tok pbc out j Hj Hstop
                 | k tok pbc out j h toks Hj Hr Hs Ht Hrec IH];
    intros fuel Hfuel; cbn [snd List.length] in Hfuel;
    (destruct fuel as [| fuel]; [ lia | ]).
  - cbn [Reviews.harvestLoop]. rewrite Hj. reflexivity.
  - rewrite (harvestLoop_step _ _ _ _ _ _ Hj).
    apply stopsAfter_spec in Hstop. rewrite Hstop. reflexivity.
  - rewrite (harvestLoop_step _ _ _ _ _ _ Hj).
    assert (Hn : stopsAfter pbc j = false).
    { destruct (stopsAfter pbc j) eqn:E; [ | reflexivity ].
      apply stopsAfter_spec in E. destruct E as [E | [E | E]];
        [ contradiction | lia | contradiction ]. }
    rewrite Hn, (IH fuel); [ reflexivity | cbn [snd]; lia ].
Qed.

(** Whatever the feed, only reviews of the window are accumulated. *)
Lemma harvestLoop_inWindow fuel : forall k out tok pbc,
  Forall (fun r => inWindow r = true) out ->
  Forall (fun r => inWindow r = true)
    (harvested (fst (harvestLoop fuel k out tok pbc))).
Proof.
  induction fuel as [| fuel IH]; intros k out tok pbc Hout.
  - exact Hout.
  - destruct (getJson (reviewsUrl tok) (pages k tok)) as [j | e] eqn:Hj.
    + rewrite (harvestLoop_step _ _ _ _ _ _ Hj).
      assert (Hout' : Forall (fun r => inWindow r = true)
                        (out ++ filter inWindow (pageReviews j))).
      { apply Forall_app. split; [ exact Hout | ].
        apply Forall_forall. intros r Hr.
        apply filter_In in Hr. apply Hr. }
      destruct (stopsAfter pbc j); [ exact Hout' | ].
      specialize (IH (S k) _ (orEmpty (nextPageToken j))
                    (staleAfter pbc j) Hout').
      destruct (Reviews.harvestLoop _ _ _ _ _ fuel (S k) _ _ _) as [h toks].
      exact IH.
    + cbn [Reviews.harvestLoop]. rewrite Hj. constructor.
Qed.

Lemma inWindow_spec r :
  inWindow r = true <->
  exists ct ms,
    createTime r = Some ct /\ ct <> [] /\ fromISO ct = Some ms /\
    startMs <= ms <= endMs.
Proof.
  unfold Reviews.inWindow, Reviews.createdAt. split.
  - destruct (createTime r) as [ct |]; [ | discriminate ].
    destruct ct as [| c ct']; [ discriminate | ]. cbn [truthy].
    destruct (fromISO (c :: ct')) as [ms |] eqn:E; [ | discriminate ].
    intros H. apply andb_true_iff in H. destruct H as [H1 H2].
    apply Z.leb_le in H1, H2.
    exists (c :: ct'), ms. repeat split; try assumption. discriminate.
  - intros (ct & ms & -> & Hne & -> & H1 & H2).
    destruct ct; [ congruence | ]. cbn [truthy].
    apply andb_true_iff. split; apply Z.leb_le; assumption.
Qed.

Lemma listReviews_inWindow fuel :
  Forall (fun r => inWindow r = true)
    (harvested (fst (listReviewsForLocation fuel))).
Proof. apply harvestLoop_inWindow. constructor. Qed.

(** C3: a harvest that ends paginates as the contract says, and such a
    pagination is what the harvest does given enough fuel: after a page
    that was fetched, pagination stops exactly when
    the page is empty, or the counter of consecutive pages without a
    review created at or after the start has reached 2 (it is reset
    to 0 by a page with such a review and incremented otherwise), or
    no next-page cursor came with the page; otherwise the next page
    is requested with the cursor.  In particular, on a feed whose
    pages 1 to 4 are not empty and come with a cursor, page 2 having
    a review created at or after the start and pages 3 and 4 none,
    the harvest requests pages 1 to 4 and returns without requesting
    page 5. *)
Theorem harvest_termination_rule :
  (forall fuel h toks,
      listReviewsForLocation fuel = (h, toks) ->
      (forall o, h <> Unfinished o) ->
      Paginates 0%nat [] 0 [] (h, toks)) /\
  (forall h toks fuel,
      Paginates 0%nat [] 0 [] (h, toks) -> (List.length toks <= fuel)%nat ->
      listReviewsForLocation fuel = (h, toks)) /\
  (forall fuel k out tok pbc j,
      getJson (reviewsUrl tok) (pages k tok) = Ok j ->
      harvestLoop (S fuel) k out tok pbc
      = if (List.length (pageReviews j) =? 0)%nat
           || (2 <=? (if existsb atOrAfterStart (pageReviews j) then 0
                      else pbc + 1))
           || negb (truthy (orEmpty (nextPageToken j)))
        then (Returned (out ++ filter inWindow (pageReviews j)), [tok])
        else
          let '(h, toks) :=
            harvestLoop fuel (S k) (out ++ filter inWindow (pageReviews j))
              (orEmpty (nextPageToken j))
              (if existsb atOrAfterStart (pageReviews j) then 0
               else pbc + 1) in
          (h, tok :: toks)) /\
  (forall p1 p2 p3 p4 fuel,
      let t1 := orEmpty (nextPageToken p1) in
      let t2 := orEmpty (nextPageToken p2) in
      let t3 := orEmpty (nextPageToken p3) in
      getJson (reviewsUrl []) (pages 0%nat []) = Ok p1 ->
      getJson (reviewsUrl t1) (pages 1%nat t1) = Ok p2 ->
      getJson (reviewsUrl t2) (pages 2%nat t2) = Ok p3 ->
      getJson (reviewsUrl t3) (pages 3%nat t3) = Ok p4 ->
      pageReviews p1 <> [] -> t1 <> [] ->
      existsb atOrAfterStart (pageReviews p2) = true -> t2 <> [] ->
      pageReviews p3 <> [] ->
      existsb atOrAfterStart (pageReviews p3) = false -> t3 <> [] ->
      pageReviews p4 <> [] ->
      existsb atOrAfterStart (pageReviews p4) = false ->
      (4 <= fuel)%nat ->
      listReviewsForLocation fuel
      = (Returned (filter inWindow (pageReviews p1 ++ pageReviews p2
                                    ++ pageReviews p3 ++ pageReviews p4)),
         [[]; t1; t2; t3])).
Proof.
  split; [ | split; [ | split ] ].
  - intros fuel h toks H Hfin. exact (harvestLoop_Paginates _ _ _ _ _ _ _ H Hfin).
  - intros h toks fuel H Hfuel.
    exact (Paginates_harvestLoop _ _ _ _ _ H fuel Hfuel).
  - intros fuel k out tok pbc j Hj. exact (harvestLoop_step _ _ _ _ _ _ Hj).
  - intros p1 p2 p3 p4 fuel t1 t2 t3 H1 H2 H3 H4
      Hr1 Ht1 Hg2 Ht2 Hr3 Hg3 Ht3 Hr4 Hg4 Hfuel.
    assert (Hlen : forall l : list RawReview,
                     l <> [] -> (List.length l =? 0)%nat = false).
    { intros [| x l] Hl; [ congruence | reflexivity ]. }
    assert (Htr : forall t : jsstring, t <> [] -> truthy t = true).
    { intros [| x t] Ht; [ congruence | reflexivity ]. }
    assert (Hr2 : pageReviews p2 <> []).
    { intros E. rewrite E in Hg2. discriminate Hg2. }
    destruct fuel as [| [| [| [| fuel]]]]; try lia.
    unfold Reviews.listReviewsForLocation.
    rewrite (harvestLoop_step _ _ _ _ _ _ H1).
    unfold Reviews.stopsAfter, Reviews.staleAfter.
    rewrite (Hlen _ Hr1). fold t1. rewrite (Htr _ Ht1).
    assert (E1 : (2 <=? (if existsb atOrAfterStart (pageReviews p1)
                         then 0 else 0 + 1)) = false)
      by (destruct (existsb atOrAfterStart (pageReviews p1)); reflexivity).
    rewrite E1. cbn [orb negb app].
    rewrite (harvestLoop_step _ _ _ _ _ _ H2).
    unfold Reviews.stopsAfter, Reviews.staleAfter.
    rewrite (Hlen _ Hr2), Hg2. fold t2. rewrite (Htr _ Ht2).
    change (2 <=? 0) with false. cbn [orb negb].
    rewrite (harvestLoop_step _ _ _ _ _ _ H3).
    unfold Reviews.stopsAfter, Reviews.staleAfter.
    rewrite (Hlen _ Hr3), Hg3. fold t3. rewrite (Htr _ Ht3).
    change (2 <=? 0 + 1) with false. cbn [orb negb].
    rewrite (harvestLoop_step _ _ _ _ _ _ H4).
    unfold Reviews.stopsAfter, Reviews.staleAfter.
    rewrite (Hlen _ Hr4), Hg4.
    change (2 <=? 0 + 1 + 1) with true. cbn [orb].
    rewrite !filter_app, <- !app_assoc. reflexivity.
Qed.

End Harvest.

(** The five sample pages: pages 3 and 4 hold no review created at or
    after the start, and the harvest stops after page 4. *)
Lemma harvest_termination_rule_witness :
  let url := Samples.reviewsUrl (js "1") in
  let pages := Samples.serve Samples.fivePages in
  let p1 := Samples.page [Samples.reviewNew; Samples.reviewA2] "t1" in
  let p2 := Samples.page [Samples.reviewA1; Samples.reviewOld] "t2" in
  let p3 := Samples.page [Samples.reviewOld] "t3" in
  let p4 := Samples.page [Samples.reviewOld; Samples.reviewOld] "t4" in
  let fresh := atOrAfterStart Samples.fromISO Samples.startMs in
  (getJson (url []) (pages 0%nat []) = Ok p1 /\
   getJson (url (js "t1")) (pages 1%nat (js "t1")) = Ok p2 /\
   getJson (url (js "t2")) (pages 2%nat (js "t2")) = Ok p3 /\
   getJson (url (js "t3")) (pages 3%nat (js "t3")) = Ok p4 /\
   existsb fresh (pageReviews p2) = true /\
   existsb fresh (pageReviews p3) = false /\
   existsb fresh (pageReviews p4) = false /\
   (4 <= 10)%nat) /\
  listReviewsForLocation Samples.fromISO url pages
    Samples.startMs Samples.endMs 10
  = (Returned [Samples.reviewA2; Samples.reviewA1],
     [[]; js "t1"; js "t2"; js "t3"]).
Proof.
  cbv zeta. split.
  - repeat split; try (vm_compute; reflexivity). lia.
  - rewrite (proj2 (proj2 (proj2 (harvest_termination_rule Samples.fromISO
                      (Samples.reviewsUrl (js "1"))
                      (Samples.serve Samples.fivePages)
                      Samples.startMs Samples.endMs)))
               (Samples.page [Samples.reviewNew; Samples.reviewA2] "t1")
               (Samples.page [Samples.reviewA1; Samples.reviewOld] "t2")
               (Samples.page [Samples.reviewOld] "t3")
               (Samples.page [Samples.reviewOld; Samples.reviewOld] "t4")
               10%nat);
      try (vm_compute; reflexivity); try discriminate.
    lia.
Defined.

End HarvestFacts.

(** ** Comment cleaning *)

Module CommentFacts.

Local Open Scope nat_scope.

(** [m] occurs in [t] at index [j]. *)
Local Abbreviation occurs m t j := (startsWith m (skipn j t) = true).

Lemma startsWith_firstn m : forall t,
  startsWith m t = true <-> firstn (List.length m) t = m.
Proof.
  induction m as [| a m IH]; intros t; cbn.
  - split; reflexivity.
  - destruct t as [| b t]; [ split; discriminate | ].
    rewrite andb_true_iff, N.eqb_eq, IH. split.
    + intros [-> ->]. reflexivity.
    + intros [= -> H]. split; [ reflexivity | exact H ].
Qed.

Lemma indexOf_Some t m : forall i,
  indexOf t m = Some i ->
  occurs m t i /\ forall j, j < i -> startsWith m (skipn j t) = false.
Proof.
  induction t as [| c t IH]; intros i; cbn [indexOf].
  - destruct (startsWith m []) eqn:E; [ | discriminate ].
    intros [= <-]. split; [ exact E | intros; lia ].
  - destruct (startsWith m (c :: t)) eqn:E.
    + intros [= <-]. split; [ exact E | intros; lia ].
    + destruct (indexOf t m) as [i' |] eqn:Ei; [ | discriminate ].
      intros [= <-]. destruct (IH i' eq_refl) as [Ho Hmin]. split.
      * exact Ho.
      * intros [| j] Hj; [ exact E | ]. apply Hmin. lia.
Qed.

Lemma indexOf_None t m :
  indexOf t m = None -> forall j, startsWith m (skipn j t) = false.
Proof.
  induction t as [| c t IH]; cbn [indexOf].
  - destruct (startsWith m []) eqn:E; [ discriminate | ].
    intros _ j. rewrite skipn_nil. exact E.
  - destruct (startsWith m (c :: t)) eqn:E; [ discriminate | ].
    destruct (indexOf t m) eqn:Ei; [ discriminate | ].
    intros _ [| j]; [ exact E | ]. apply IH. reflexivity.
Qed.

Lemma indexOf_first t m i :
  occurs m t i -> (forall j, j < i -> startsWith m (skipn j t) = false) ->
  indexOf t m = Some i.
Proof.
  intros Ho Hmin. destruct (indexOf t m) as [i' |] eqn:E.
  - destruct (indexOf_Some _ _ _ E) as [Ho' Hmin'].
    destruct (Nat.lt_trichotomy i i') as [H | [H | H]].
    + rewrite (Hmin' _ H) in Ho. discriminate.
    + congruence.
    + rewrite (Hmin _ H) in Ho'. discriminate.
  - rewrite (indexOf_None _ _ E) in Ho. discriminate.
Qed.

Lemma indexOf_absent t m :
  (forall j, startsWith m (skipn j t) = false) -> indexOf t m = None.
Proof.
  intros H. destruct (indexOf t m) as [i |] eqn:E; [ | reflexivity ].
  destruct (indexOf_Some _ _ _ E) as [Ho _]. rewrite H in Ho. discriminate.
Qed.

(** An occurrence in a prefix is an occurrence that ends within it. *)
Lemma occurs_firstn m t k j :
  m <> [] ->
  (occurs m (firstn k t) j <-> occurs m t j /\ j + List.length m <= k).
Proof.
  intros Hm. rewrite !startsWith_firstn, skipn_firstn_comm, firstn_firstn.
  assert (Hlen : 0 < List.length m) by (destruct m; [ congruence | cbn; lia ]).
  split.
  - intros H.
    assert (Hle : List.length m <= k - j).
    { apply (f_equal (@List.length N)) in H. rewrite length_firstn in H. lia. }
    rewrite Nat.min_l in H by exact Hle. split; [ exact H | lia ].
  - intros [H Hle]. rewrite Nat.min_l by lia. exact H.
Qed.

Lemma firstn_min_app {A} k (v w : list A) :
  firstn (Nat.min k (List.length v)) (v ++ w) = firstn k v.
Proof.
  rewrite firstn_app.
  replace (Nat.min k (List.length v) - List.length v) with 0 by lia.
  cbn [firstn]. rewrite app_nil_r.
  destruct (Nat.le_ge_cases k (List.length v)) as [H | H].
  - rewrite Nat.min_l by exact H. reflexivity.
  - rewrite Nat.min_r by exact H. rewrite !firstn_all2 by lia. reflexivity.
Qed.

Lemma firstn_app_ge {A} n (l1 l2 : list A) :
  List.length l1 <= n ->
  firstn n (l1 ++ l2) = l1 ++ firstn (n - List.length l1) l2.
Proof. intros H. rewrite firstn_app, firstn_all2 by exact H. reflexivity. Qed.

Lemma trimEnd_snoc s x :
  trimEnd (s ++ [x]) = if isWhiteSpace x then trimEnd s else s ++ [x].
Proof.
  unfold trimEnd. rewrite rev_app_distr. cbn [rev app trimStart].
  destruct (isWhiteSpace x); [ reflexivity | ].
  cbn [rev]. rewrite rev_involutive. reflexivity.
Qed.

(** [trimEnd] keeps everything up to a character that is not white
    space, and a prefix of what follows. *)
Lemma trimEnd_keeps u c v :
  isWhiteSpace c = false ->
  exists k, trimEnd (u ++ c :: v) = u ++ c :: firstn k v.
Proof.
  intros Hc. induction v as [| x v IH] using rev_ind.
  - exists 0. rewrite trimEnd_snoc, Hc. reflexivity.
  - replace (u ++ c :: v ++ [x]) with ((u ++ c :: v) ++ [x])
      by (rewrite <- app_assoc; reflexivity).
    rewrite trimEnd_snoc. destruct (isWhiteSpace x).
    + destruct IH as [k Hk]. exists (Nat.min k (List.length v)).
      rewrite Hk, firstn_min_app. reflexivity.
    + exists (S (List.length v)).
      rewrite firstn_all2 by (rewrite length_app; cbn; lia).
      rewrite <- app_assoc. reflexivity.
Qed.

Lemma trimEnd_prefix s : exists k, trimEnd s = firstn k s.
Proof.
  induction s as [| x s IH] using rev_ind.
  - exists 0. reflexivity.
  - rewrite trimEnd_snoc. destruct (isWhiteSpace x).
    + destruct IH as [k Hk]. exists (Nat.min k (List.length s)).
      rewrite Hk, firstn_min_app. reflexivity.
    + exists (S (List.length s)).
      rewrite firstn_all2 by (rewrite length_app; cbn; lia). reflexivity.
Qed.

Lemma occurs_nth m t i :
  occurs m t i ->
  forall d, d < List.length m -> nth_error t (i + d) = nth_error m d.
Proof.
  intros H d Hd. apply startsWith_firstn in H.
  rewrite <- nth_error_skipn.
  pose proof (nth_error_firstn (List.length m) (skipn i t) d) as E.
  rewrite H in E.
  destruct (Nat.ltb_spec d (List.length m)); [ | lia ].
  symmetry. exact E.
Qed.

Lemma occurs_split m t j :
  occurs m t j -> m <> [] ->
  j < List.length t /\ t = firstn j t ++ m ++ skipn (j + List.length m) t.
Proof.
  intros H Hm. split.
  - destruct (Nat.lt_ge_cases j (List.length t)) as [Hlt | Hge]; [ exact Hlt | ].
    rewrite skipn_all2 in H by exact Hge.
    destruct m; [ congruence | discriminate H ].
  - apply startsWith_firstn in H.
    rewrite <- H at 1. rewrite Nat.add_comm, <- skipn_skipn, firstn_skipn,
      firstn_skipn. reflexivity.
Qed.

Section TwoMarkers.

Variables m1 m2 m2' : jsstring.
Variable c : N.
Hypothesis m2_last : m2 = m2' ++ [c].
Hypothesis c_not_space : isWhiteSpace c = false.
Hypothesis no_overlap :
  forall t i j, occurs m1 t i -> occurs m2 t j -> j < i ->
                j + List.length m2 <= i.
Hypothesis distinct :
  forall t i, occurs m1 t i -> occurs m2 t i -> False.

Lemma m2_nonempty : m2 <> [].
Proof. rewrite m2_last. destruct m2'; discriminate. Qed.

Lemma indexOf_prefix_absent t k :
  (forall p, occurs m2 t p -> k < p + List.length m2) ->
  indexOf (firstn k t) m2 = None.
Proof.
  intros H. apply indexOf_absent. intros p.
  destruct (startsWith m2 (skipn p (firstn k t))) eqn:E; [ | reflexivity ].
  apply (occurs_firstn _ _ _ _ m2_nonempty) in E. destruct E as [E Hle].
  specialize (H p E). lia.
Qed.

Lemma cut_two t :
  cutAt (cutAt t m1) m2
  = match minOpt (indexOf t m1) (indexOf t m2) with
    | Some i => trimEnd (firstn i t)
    | None => t
    end.
Proof.
  unfold cutAt at 2. unfold slice0.
  destruct (indexOf t m1) as [i |] eqn:E1.
  2:{ unfold cutAt, slice0, minOpt. destruct (indexOf t m2); reflexivity. }
  destruct (indexOf_Some _ _ _ E1) as [O1 Min1].
  destruct (trimEnd_prefix (firstn i t)) as [k Hk].
  assert (Hk' : trimEnd (firstn i t) = firstn (Nat.min k i) t)
    by (rewrite Hk; apply firstn_firstn).
  unfold cutAt, slice0, minOpt.
  destruct (indexOf t m2) as [j |] eqn:E2.
  - destruct (indexOf_Some _ _ _ E2) as [O2 Min2].
    destruct (Nat.lt_trichotomy j i) as [Hlt | [Heq | Hgt]].
    + pose proof (no_overlap _ _ _ O1 O2 Hlt) as Hfit.
      destruct (occurs_split _ _ _ O2 m2_nonempty) as [Hj Ht].
      assert (Hpre : firstn i t
                     = (firstn j t ++ m2') ++ c
                       :: firstn (i - (j + List.length m2))
                            (skipn (j + List.length m2) t)).
      { assert (Hlj : List.length (firstn j t) = j)
          by (rewrite length_firstn; lia).
        remember (firstn j t) as a eqn:Ea.
        remember (skipn (j + List.length m2) t) as b eqn:Eb.
        rewrite Ht at 1.
        rewrite firstn_app_ge by lia.
        rewrite firstn_app_ge by lia.
        rewrite Hlj, m2_last, <- !app_assoc. cbn [app].
        do 4 f_equal. lia. }
      destruct (trimEnd_keeps (firstn j t ++ m2') c
                  (firstn (i - (j + List.length m2))
                     (skipn (j + List.length m2) t)) c_not_space)
        as [k2 Hk2].
      rewrite <- Hpre in Hk2.
      set (v := firstn k2 _) in Hk2.
      assert (Hcut : trimEnd (firstn i t) = firstn j t ++ m2 ++ v).
      { rewrite Hk2, m2_last, <- !app_assoc. reflexivity. }
      assert (Hidx : indexOf (trimEnd (firstn i t)) m2 = Some j).
      { apply indexOf_first.
        - rewrite Hcut. rewrite skipn_app, length_firstn.
          rewrite (Nat.min_l j) by lia. rewrite Nat.sub_diag.
          rewrite skipn_all2 by (rewrite length_firstn; lia).
          cbn [skipn app]. apply startsWith_firstn.
          rewrite firstn_app, Nat.sub_diag, firstn_all by reflexivity.
          cbn [firstn]. now rewrite app_nil_r.
        - intros p Hp.
          destruct (startsWith m2 (skipn p (trimEnd (firstn i t)))) eqn:E;
            [ | reflexivity ].
          rewrite Hk' in E.
          apply (occurs_firstn _ _ _ _ m2_nonempty) in E.
          destruct E as [E _]. rewrite (Min2 _ Hp) in E. discriminate. }
      rewrite Hidx. rewrite Nat.min_r by lia.
      f_equal. rewrite Hcut. rewrite firstn_app, length_firstn.
      rewrite (Nat.min_l j) by lia. rewrite Nat.sub_diag.
      cbn [firstn]. rewrite app_nil_r, firstn_firstn, Nat.min_id. reflexivity.
    + subst j. destruct (distinct _ _ O1 O2).
    + rewrite Nat.min_l by lia.
      rewrite Hk'. rewrite indexOf_prefix_absent; [ reflexivity | ].
      intros p Hp.
      destruct (Nat.lt_ge_cases p j) as [Hpj | Hpj].
      * rewrite (Min2 _ Hpj) in Hp. discriminate.
      * pose proof m2_nonempty as Hne.
        assert (0 < List.length m2) by (destruct m2; [ congruence | cbn; lia ]).
        lia.
  - rewrite Hk'. rewrite indexOf_prefix_absent; [ reflexivity | ].
    intros p Hp. rewrite (indexOf_None _ _ E2) in Hp. discriminate.
Qed.

End TwoMarkers.

Lemma markers_eq : markers = [translatedByGoogle; uebersetztVonGoogle].
Proof. reflexivity. Qed.

(** Inside the German marker there is no opening parenthesis after the
    first character, so an English marker cannot start inside it. *)
Lemma markers_no_overlap t i j :
  occurs translatedByGoogle t i -> occurs uebersetztVonGoogle t j -> j < i ->
  j + List.length uebersetztVonGoogle <= i.
Proof.
  intros O1 O2 Hlt.
  destruct (Nat.le_gt_cases (j + List.length uebersetztVonGoogle) i)
    as [H | H]; [ exact H | exfalso ].
  pose proof (occurs_nth _ _ _ O1 0 ltac:(cbn; lia)) as E1.
  pose proof (occurs_nth _ _ _ O2 (i - j) ltac:(lia)) as E2.
  replace (i + 0) with i in E1 by lia.
  replace (j + (i - j)) with i in E2 by lia.
  rewrite E1 in E2. clear E1 O1 O2.
  assert (Hd : 1 <= i - j < 22) by (cbn in H; lia).
  remember (i - j) as d eqn:Ed. clear Ed H Hlt.
  do 22 (destruct d as [| d]; [ first [ lia | discriminate E2 ] | ]).
  lia.
Qed.

Lemma markers_distinct t i :
  occurs translatedByGoogle t i -> occurs uebersetztVonGoogle t i -> False.
Proof.
  intros O1 O2.
  pose proof (occurs_nth _ _ _ O1 1 ltac:(cbn; lia)) as E1.
  pose proof (occurs_nth _ _ _ O2 1 ltac:(cbn; lia)) as E2.
  rewrite E1 in E2. discriminate E2.
Qed.

Lemma cleanComment_min text :
  cleanComment text
  = let t := trim (orEmpty text) in
    match minOpt (indexOf t translatedByGoogle)
                 (indexOf t uebersetztVonGoogle) with
    | Some i => trimEnd (firstn i t)
    | None => t
    end.
Proof.
  unfold cleanComment. rewrite markers_eq. cbn [fold_left].
  apply (cut_two translatedByGoogle uebersetztVonGoogle
           (js "(" ++ [220%N] ++ js "bersetzt von Google") 41%N).
  - reflexivity.
  - reflexivity.
  - exact markers_no_overlap.
  - exact markers_distinct.
Qed.

Lemma indexOf_ge t m i :
  (forall j, j < i -> startsWith m (skipn j t) = false) ->
  indexOf t m = None \/ exists j, indexOf t m = Some j /\ i <= j.
Proof.
  intros H. destruct (indexOf t m) as [j |] eqn:E; [ right | left; reflexivity ].
  exists j. split; [ reflexivity | ].
  destruct (indexOf_Some _ _ _ E) as [O _].
  destruct (Nat.le_gt_cases i j) as [Hle | Hgt]; [ exact Hle | ].
  rewrite (H _ Hgt) in O. discriminate.
Qed.

(** C6: [cleanComment] trims the text; when a marker occurs in the
    trimmed text it returns what precedes the first occurrence of any
    marker, with trailing white space removed; when no marker occurs it
    returns the trimmed text; and it maps
    "Great place (Translated by Google)" to "Great place". *)
Theorem cleanComment_contract :
  (forall text,
      let t := trim (orEmpty text) in
      (forall i,
          (exists m, In m markers /\ startsWith m (skipn i t) = true) ->
          (forall j m, j < i -> In m markers ->
                       startsWith m (skipn j t) = false) ->
          cleanComment text = trimEnd (firstn i t)) /\
      ((forall j m, In m markers -> startsWith m (skipn j t) = false) ->
       cleanComment text = t)) /\
  cleanComment (Some (js "Great place (Translated by Google)"))
  = js "Great place".
Proof.
  split; [ | vm_compute; reflexivity ].
  intros text t. rewrite cleanComment_min. fold t. cbv zeta.
  assert (Hen : In translatedByGoogle markers) by (left; reflexivity).
  assert (Hde : In uebersetztVonGoogle markers) by (right; left; reflexivity).
  split.
  - intros i (m & Hin & Ho) Hmin.
    assert (Hen' := indexOf_ge t translatedByGoogle i
                      (fun j Hj => Hmin j _ Hj Hen)).
    assert (Hde' := indexOf_ge t uebersetztVonGoogle i
                      (fun j Hj => Hmin j _ Hj Hde)).
    assert (Hm : indexOf t m = Some i).
    { apply indexOf_first; [ exact Ho | ].
      intros j Hj. exact (Hmin j m Hj Hin). }
    rewrite markers_eq in Hin.
    destruct Hin as [<- | [<- | []]]; rewrite Hm in *.
    + destruct Hde' as [-> | (j & -> & Hj)]; cbn [minOpt];
        [ reflexivity | rewrite Nat.min_l by exact Hj; reflexivity ].
    + destruct Hen' as [-> | (j & -> & Hj)]; cbn [minOpt];
        [ reflexivity | rewrite Nat.min_r by exact Hj; reflexivity ].
  - intros Hnone.
    rewrite (indexOf_absent t translatedByGoogle (fun j => Hnone j _ Hen)).
    rewrite (indexOf_absent t uebersetztVonGoogle (fun j => Hnone j _ Hde)).
    reflexivity.
Qed.

End CommentFacts.

(** ** The concurrency pool *)

Module PoolFacts.

Import Worker Pool.

Local Open Scope nat_scope.

(** *** Comparisons of the limit *)

Lemma leInt_mono (x : Limit) (a b : Z) :
  leInt x a = true -> (a <= b)%Z -> leInt x b = true.
Proof.
  destruct x as [| | [p q] |]; cbn [leInt]; try (intros; assumption).
  unfold QArith_base.Qle_bool, QArith_base.inject_Z.
  cbn [QArith_base.Qnum QArith_base.Qden].
  intros H Hab. apply Z.leb_le in H. apply Z.leb_le. nia.
Qed.

Lemma leInt_ofZ (z n : Z) : leInt (ofZ z) n = (z <=? n)%Z.
Proof.
  unfold leInt, ofZ, QArith_base.Qle_bool, QArith_base.inject_Z.
  cbn [QArith_base.Qnum QArith_base.Qden].
  rewrite !Z.mul_1_r. reflexivity.
Qed.

(** *** Interleavings *)

Lemma Merge_In {A} (ls : list (list A)) l :
  Merge ls l -> forall x, In x l <-> exists s, In s ls /\ In x s.
Proof.
  induction 1 as [| ls1 ls2 l H IH | ls1 x xs ls2 l H IH]; intros y.
  - split; [ intros [] | intros (s & [] & _) ].
  - rewrite IH. split; intros (s & Hs & Hy); exists s; (split; [ | exact Hy ]).
    + apply in_app_iff in Hs. apply in_app_iff.
      destruct Hs as [Hs | Hs]; [ left | right; right ]; exact Hs.
    + apply in_app_iff in Hs. apply in_app_iff.
      destruct Hs as [Hs | [<- | Hs]]; [ left | destruct Hy | right ]; exact Hs.
  - cbn [In]. rewrite IH. split.
    + intros [<- | (s & Hs & Hy)].
      * exists (x :: xs). split; [ | left; reflexivity ].
        apply in_app_iff. right. left. reflexivity.
      * apply in_app_iff in Hs. destruct Hs as [Hs | [<- | Hs]].
        -- exists s. split; [ apply in_app_iff; left; exact Hs | exact Hy ].
        -- exists (x :: xs). split; [ | right; exact Hy ].
           apply in_app_iff. right. left. reflexivity.
        -- exists s. split; [ | exact Hy ].
           apply in_app_iff. right. right. exact Hs.
    + intros (s & Hs & Hy). apply in_app_iff in Hs.
      destruct Hs as [Hs | [<- | Hs]].
      * right. exists s. split; [ apply in_app_iff; left; exact Hs | exact Hy ].
      * destruct Hy as [-> | Hy]; [ left; reflexivity | right ].
        exists xs. split; [ | exact Hy ].
        apply in_app_iff. right. left. reflexivity.
      * right. exists s. split; [ | exact Hy ].
        apply in_app_iff. right. right. exact Hs.
Qed.

Lemma Merge_Subseq {A} (ls : list (list A)) l :
  Merge ls l -> forall s, In s ls -> Subseq s l.
Proof.
  induction 1 as [| ls1 ls2 l H IH | ls1 x xs ls2 l H IH]; intros s Hs.
  - destruct Hs.
  - apply in_app_iff in Hs. destruct Hs as [Hs | [<- | Hs]].
    + apply IH, in_app_iff. left. exact Hs.
    + constructor.
    + apply IH, in_app_iff. right. exact Hs.
  - apply in_app_iff in Hs. destruct Hs as [Hs | [<- | Hs]].
    + apply subseq_skip, IH, in_app_iff. left. exact Hs.
    + apply subseq_take, IH, in_app_iff. right. left. reflexivity.
    + apply subseq_skip, IH, in_app_iff. right. right. exact Hs.
Qed.

Lemma singleton_split {A} (ls1 ls2 : list A) a s :
  ls1 ++ a :: ls2 = [s] -> ls1 = [] /\ a = s /\ ls2 = [].
Proof.
  destruct ls1 as [| b ls1]; cbn.
  - intros [= -> ->]. auto.
  - intros [= _ E]. destruct ls1; discriminate E.
Qed.

(** The records of an interleaving of actions interleave the records
    of the workers. *)
Lemma Merge_pushed ls l :
  Merge ls l -> Merge (map pushed ls) (pushed l).
Proof.
  induction 1 as [| ls1 ls2 l H IH | ls1 x xs ls2 l H IH].
  - constructor.
  - rewrite map_app in *. cbn [map pushed]. apply merge_drop. exact IH.
  - rewrite map_app in *. cbn [map] in *. destruct x as [line | it].
    + exact IH.
    + cbn [pushed]. apply merge_take. exact IH.
Qed.

Lemma Merge_logged ls l :
  Merge ls l -> Merge (map logged ls) (logged l).
Proof.
  induction 1 as [| ls1 ls2 l H IH | ls1 x xs ls2 l H IH].
  - constructor.
  - rewrite map_app in *. cbn [map logged]. apply merge_drop. exact IH.
  - rewrite map_app in *. cbn [map] in *. destruct x as [line | it].
    + cbn [logged]. apply merge_take. exact IH.
    + exact IH.
Qed.

(** *** Runs of the pool *)

Section Runs.

Variable limit : Limit.
Variable total : nat.

(** From any state, what a complete run still performs interleaves
    the remaining actions of the running workers and the actions of
    the workers not yet started. *)
Lemma steps_Merge st f :
  steps limit total st f -> final f ->
  exists t, trace f = trace st ++ t /\ Merge (running st ++ pending st) t.
Proof.
  induction 1 as [st | st1 st2 st3 Hstep Hsteps IH]; intros Hf.
  - exists []. destruct Hf as [Hp Hr]. rewrite Hp, Hr, app_nil_r.
    split; [ reflexivity | constructor ].
  - destruct (IH Hf) as (t & Ht & HM). clear IH.
    destruct Hstep as [w ps rs tr | ps rs1 a w rs2 wt tr Hs
                      | ps rs1 rs2 wt tr Hs]; cbn [trace running pending] in *.
    + exists t. split; [ exact Ht | ].
      rewrite <- app_assoc in HM. exact HM.
    + exists (a :: t). split.
      * rewrite Ht, <- app_assoc. reflexivity.
      * rewrite <- app_assoc in *. cbn [app] in *. apply merge_take. exact HM.
    + exists t. split; [ exact Ht | ].
      rewrite <- app_assoc in *. cbn [app]. apply merge_drop. exact HM.
Qed.

Lemma steps_trans st1 st2 st3 :
  steps limit total st1 st2 -> steps limit total st2 st3 ->
  steps limit total st1 st3.
Proof.
  induction 1 as [| a b c Hstep Hsteps IH]; intros H; [ exact H | ].
  apply (steps_cons _ _ _ _ _ Hstep). apply IH. exact H.
Qed.

(** Every state that is not final can make a step, and every step
    decreases the measure: from every sound state a run completes. *)
Ltac measure_lia :=
  unfold measure in *; cbn [pending running] in *;
  rewrite ?map_app, ?list_sum_app in *;
  cbn [map app List.length] in *; unfold list_sum in *;
  cbn [fold_right] in *; lia.

Lemma completes n : forall st,
  measure st <= n -> sound st ->
  exists f, steps limit total st f /\ final f.
Proof.
  induction n as [| n IH]; intros [ps rs wt tr] Hm Hs;
    unfold measure in Hm; cbn [pending running] in Hm.
  - destruct ps as [| w ps]; [ | measure_lia ].
    destruct rs as [| w rs]; [ | measure_lia ].
    eexists. split; [ apply steps_refl | split; reflexivity ].
  - destruct rs as [| w rs].
    + destruct ps as [| w ps].
      * eexists. split; [ apply steps_refl | split; reflexivity ].
      * destruct wt; [ exfalso; apply (Hs eq_refl); reflexivity | ].
        destruct (IH {| pending := ps; running := [] ++ [w];
                        waiting := waitsAfterLaunch limit total 1;
                        trace := tr |}) as (f & Hf & Hfin).
        -- measure_lia.
        -- intros _. discriminate.
        -- exists f. split; [ | exact Hfin ].
           eapply steps_cons; [ apply step_launch | exact Hf ].
    + destruct wt eqn:Ewt; [ | destruct ps as [| w' ps] ].
      * (* the loop waits: the first running worker advances *)
        destruct w as [| a w].
        -- destruct (IH {| pending := ps; running := [] ++ rs;
                           waiting := false; trace := tr |})
             as (f & Hf & Hfin).
           ++ measure_lia.
           ++ intros E. discriminate E.
           ++ exists f. split; [ | exact Hfin ].
              eapply steps_cons; [ | exact Hf ].
              apply (step_finish limit total ps [] rs true tr).
              left. reflexivity.
        -- destruct (IH {| pending := ps; running := [] ++ w :: rs;
                           waiting := true; trace := tr ++ [a] |})
             as (f & Hf & Hfin).
           ++ measure_lia.
           ++ intros _. discriminate.
           ++ exists f. split; [ | exact Hfin ].
              eapply steps_cons; [ | exact Hf ].
              apply (step_act limit total ps [] a w rs true tr).
              left. reflexivity.
      * (* all workers are started *)
        destruct w as [| a w].
        -- destruct (IH {| pending := []; running := [] ++ rs;
                           waiting := false; trace := tr |})
             as (f & Hf & Hfin).
           ++ measure_lia.
           ++ intros E. discriminate E.
           ++ exists f. split; [ | exact Hfin ].
              eapply steps_cons; [ | exact Hf ].
              apply (step_finish limit total [] [] rs false tr).
              right. reflexivity.
        -- destruct (IH {| pending := []; running := [] ++ w :: rs;
                           waiting := false; trace := tr ++ [a] |})
             as (f & Hf & Hfin).
           ++ measure_lia.
           ++ intros E. discriminate E.
           ++ exists f. split; [ | exact Hfin ].
              eapply steps_cons; [ | exact Hf ].
              apply (step_act limit total [] [] a w rs false tr).
              right. reflexivity.
      * (* the loop starts the next worker *)
        destruct (IH {| pending := ps; running := (w :: rs) ++ [w'];
                        waiting := waitsAfterLaunch limit total
                                     (S (List.length (w :: rs)));
                        trace := tr |}) as (f & Hf & Hfin).
        -- measure_lia.
        -- intros _. discriminate.
        -- exists f. split; [ | exact Hfin ].
           eapply steps_cons; [ apply step_launch | exact Hf ].
Qed.

End Runs.

Lemma run_Merge limit ws tr : run limit ws tr -> Merge ws tr.
Proof.
  intros (st & Hsteps & Hf & <-).
  destruct (steps_Merge _ _ _ _ Hsteps Hf) as (t & Ht & HM).
  cbn in Ht, HM. rewrite Ht. exact HM.
Qed.

(** [asyncPool] completes whatever the limit and the workers. *)
Lemma run_exists limit ws : exists tr, run limit ws tr.
Proof.
  destruct (completes limit (List.length ws) (measure (initial ws)) (initial ws))
    as (f & Hf & Hfin).
  - apply Nat.le_refl.
  - intros E. discriminate E.
  - exists (trace f), f. repeat split; try assumption; apply Hfin.
Qed.

(** With a limit of at most 1 the workers run one after the other. *)
Lemma steps_sequential limit total st f :
  leInt limit 1 = true -> leInt limit (Z.of_nat total) = true ->
  steps limit total st f -> final f ->
  (running st = [] /\ waiting st = false)
  \/ (exists w, running st = [w] /\ waiting st = true) ->
  trace f = trace st ++ List.concat (running st ++ pending st).
Proof.
  intros Hl Ht. induction 1 as [st | st1 st2 st3 Hstep Hsteps IH];
    intros Hf Hshape.
  - destruct Hf as [-> ->]. cbn. now rewrite app_nil_r.
  - destruct Hstep as [w ps rs tr | ps rs1 a w rs2 wt tr Hs
                      | ps rs1 rs2 wt tr Hs];
      cbn [trace running pending waiting] in *.
    + destruct Hshape as [[-> _] | (w' & _ & E)]; [ | discriminate E ].
      rewrite (IH Hf); [ reflexivity | ].
      right. exists w. split; [ reflexivity | ].
      unfold waitsAfterLaunch. cbn [List.length].
      apply andb_true_iff. split; [ exact Ht | ].
      apply (leInt_mono _ _ _ Hl). lia.
    + destruct Hshape as [[E _] | (w' & E & ->)];
        [ destruct rs1; discriminate E | ].
      apply singleton_split in E. destruct E as (-> & _ & ->).
      rewrite (IH Hf).
      * cbn [app List.concat]. rewrite <- !app_assoc. reflexivity.
      * right. exists w. split; reflexivity.
    + destruct Hshape as [[E _] | (w' & E & ->)];
        [ destruct rs1; discriminate E | ].
      apply singleton_split in E. destruct E as (-> & _ & ->).
      rewrite (IH Hf).
      * reflexivity.
      * left. split; reflexivity.
Qed.

Lemma steps_initial_nil limit st :
  steps limit 0 (initial []) st -> st = initial [].
Proof.
  intros H. remember (initial []) as st0 eqn:E.
  destruct H as [st | st1 st2 st3 Hstep _]; [ reflexivity | ].
  subst st1. unfold initial in Hstep. inversion Hstep; subst.
  - destruct rs1; discriminate.
  - destruct rs1; discriminate.
Qed.

Lemma run_sequential limit ws tr :
  leInt limit 1 = true -> run limit ws tr -> tr = List.concat ws.
Proof.
  intros Hl (st & Hsteps & Hf & <-).
  destruct ws as [| w ws].
  - apply steps_initial_nil in Hsteps. subst st. reflexivity.
  - assert (Ht : leInt limit (Z.of_nat (List.length (w :: ws))) = true)
      by (apply (leInt_mono _ _ _ Hl); cbn [List.length]; lia).
    rewrite (steps_sequential _ _ _ _ Hl Ht Hsteps Hf).
    + reflexivity.
    + left. split; reflexivity.
Qed.

Lemma nth_error_decompose {A} (l : list A) i x :
  nth_error l i = Some x -> l = firstn i l ++ x :: skipn (S i) l.
Proof.
  revert i. induction l as [| a l IH]; intros [| i] H; try discriminate.
  - injection H as ->. reflexivity.
  - cbn [firstn skipn app]. f_equal. apply IH. exact H.
Qed.

(** *** Schedules *)

Section Exec.

Variable limit : Limit.
Variable total : nat.

Lemma launchAll_steps n : forall st,
  steps limit total st (launchAll limit total n st).
Proof.
  induction n as [| n IH]; intros [ps rs wt tr]; cbn [launchAll].
  - apply steps_refl.
  - cbn [waiting pending running trace].
    destruct wt; [ apply steps_refl | ].
    destruct ps as [| w ps]; [ apply steps_refl | ].
    eapply steps_cons; [ apply step_launch | apply IH ].
Qed.

Lemma suspendedb_suspended st : suspendedb st = true -> suspended st.
Proof.
  unfold suspendedb, suspended. intros H. apply orb_true_iff in H.
  destruct H as [H | H]; [ left; exact H | right ].
  destruct (pending st); [ reflexivity | discriminate H ].
Qed.

Lemma advance_step i st st' :
  advance i st = Some st' -> step limit total st st'.
Proof.
  unfold advance. destruct (suspendedb st) eqn:Hs; [ | discriminate ].
  apply suspendedb_suspended in Hs.
  destruct st as [ps rs wt tr]. cbn [pending running waiting trace] in *.
  destruct (nth_error rs i) as [[| a w] |] eqn:Hn; [ | | discriminate ];
    intros [= <-]; pose proof (nth_error_decompose _ _ _ Hn) as Hd.
  - rewrite Hd in Hs. rewrite Hd at 1.
    apply (step_finish limit total ps _ _ wt tr Hs).
  - rewrite Hd in Hs. rewrite Hd at 1.
    apply (step_act limit total ps _ a w _ wt tr Hs).
Qed.

Lemma exec_steps schedule : forall st f,
  exec limit total schedule st = Some f -> steps limit total st f.
Proof.
  induction schedule as [| i rest IH]; intros st f; cbn [exec].
  - intros [= <-]. apply launchAll_steps.
  - destruct (advance i _) as [st'' |] eqn:Ha; [ | discriminate ].
    intros H. eapply steps_trans; [ apply launchAll_steps | ].
    eapply steps_cons; [ apply (advance_step _ _ _ Ha) | apply IH, H ].
Qed.

Lemma finalb_final st : finalb st = true -> final st.
Proof.
  unfold finalb, final. destruct (pending st), (running st);
    try discriminate. auto.
Qed.

End Exec.

(** A schedule that completes the run gives a run of the pool. *)
Lemma runUnder_run limit ws schedule tr :
  runUnder limit ws schedule = Some tr -> run limit ws tr.
Proof.
  unfold runUnder.
  destruct (exec limit (List.length ws) schedule (initial ws)) as [st |] eqn:E;
    [ | discriminate ].
  destruct (finalb st) eqn:F; [ | discriminate ].
  intros [= <-]. exists st. split; [ | split ].
  - apply exec_steps with (schedule := schedule). exact E.
  - apply finalb_final. exact F.
  - reflexivity.
Qed.

End PoolFacts.

(** ** The run: workers, prefill failures and the order of the records *)

Module RunFacts.

Import Worker Pool PoolFacts.

Lemma pushed_map_Push l : pushed (map Push l) = l.
Proof. induction l as [| x l IH]; cbn; [ | rewrite IH ]; reflexivity. Qed.

Lemma pushed_Log line rest : pushed (Log line :: rest) = pushed rest.
Proof. reflexivity. Qed.

Lemma pushed_app a b : pushed (a ++ b) = pushed a ++ pushed b.
Proof.
  induction a as [| [line | it] a IH]; cbn; [ | | rewrite IH ]; auto.
Qed.

Lemma pushed_concat ws : pushed (List.concat ws) = List.concat (map pushed ws).
Proof.
  induction ws as [| w ws IH]; cbn; [ | rewrite pushed_app, IH ]; reflexivity.
Qed.

Lemma err_name_truthy e : truthy (err_name e) = true.
Proof. unfold err_name. destruct (err_class e); reflexivity. Qed.

(** [e.message || String(e)] is never empty. *)
Lemma error_text_populated e :
  or (err_message e) (errorToString e) <> [].
Proof.
  unfold or, errorToString. rewrite err_name_truthy. cbn [negb].
  destruct (err_message e) as [| c m] eqn:E; cbn [truthy negb].
  - pose proof (err_name_truthy e) as H. destruct (err_name e); discriminate.
  - discriminate.
Qed.

Lemma orNull_Some s : s <> [] -> orNull s = Some s.
Proof. destruct s; [ congruence | reflexivity ]. Qed.

(** What a successful call of [createPrefillRid] has seen. *)
Lemma createPrefillRid_Ok env fetch rid :
  Prefill.createPrefillRid env fetch = Ok rid ->
  exists res j,
    outcome (requestWithRetry fetch) = Ok res /\ ok res = true /\
    json res = Ok j /\ Prefill.rid j = Some rid /\ rid <> [].
Proof.
  unfold Prefill.createPrefillRid.
  destruct (Env.mustEnv _ (Env.PREFILL_API_URL env)); [ | discriminate ].
  destruct (Env.mustEnv _ (Env.PREFILL_SECRET env)); [ | discriminate ].
  destruct (outcome (requestWithRetry fetch)) as [res | e] eqn:Hres;
    [ | discriminate ].
  destruct (text res) as [txt | e]; [ | discriminate ].
  destruct (ok res) eqn:Hok; cbn [negb]; [ | discriminate ].
  destruct (json res) as [j | e] eqn:Hj; [ | discriminate ].
  destruct (Prefill.rid j) as [r |] eqn:Hr; cbn [orEmpty]; [ | discriminate ].
  destruct r as [| c r]; cbn [truthy negb]; [ discriminate | ].
  intros [= <-]. exists res, j.
  split; [ reflexivity | ]. split; [ exact Hok | ].
  split; [ exact Hj | ]. split; [ exact Hr | discriminate ].
Qed.

Section Run.

Variable env : Env.t.
Variable fromISO : jsstring -> option Z.
Variable toFormat : Z -> jsstring.
Variable toUpperCase : jsstring -> jsstring.
Variable encodeURIComponent : jsstring -> jsstring.
Variable metadataUrl : jsstring -> jsstring.
Variable reviewsUrl : jsstring -> jsstring -> jsstring.
Variables startMs endMs : Z.

Local Abbreviation reviewItem :=
  (reviewItem env fromISO toFormat toUpperCase).
Local Abbreviation reviewItems :=
  (reviewItems env fromISO toFormat toUpperCase).
Local Abbreviation prefillPayload :=
  (prefillPayload env fromISO toFormat toUpperCase).
Local Abbreviation locInfo :=
  (locInfo encodeURIComponent metadataUrl).
Local Abbreviation harvest :=
  (harvest fromISO reviewsUrl startMs endMs).
Local Abbreviation worker :=
  (worker env fromISO toFormat toUpperCase encodeURIComponent
     metadataUrl reviewsUrl startMs endMs).
Local Abbreviation inWindow := (inWindow fromISO startMs endMs).

Lemma reviewItem_thrown info fetch r e :
  Prefill.createPrefillRid env (fetch (prefillPayload info r)) = Throw e ->
  Make.prefill_rid (reviewItem info fetch r) = None /\
  Make.smart_reply_url (reviewItem info fetch r) = None /\
  Make.prefill_error (reviewItem info fetch r)
  = Some (or (err_message e) (errorToString e)).
Proof.
  intros H. unfold Worker.reviewItem. rewrite H.
  cbn [Make.prefill_rid Make.smart_reply_url Make.prefill_error].
  repeat split. apply orNull_Some, error_text_populated.
Qed.

Lemma reviewItem_ok info fetch r rid :
  Prefill.createPrefillRid env (fetch (prefillPayload info r)) = Ok rid ->
  Make.prefill_rid (reviewItem info fetch r) = Some rid /\
  Make.prefill_error (reviewItem info fetch r) = None.
Proof.
  intros H. unfold Worker.reviewItem. rewrite H.
  cbn [Make.prefill_rid Make.prefill_error].
  destruct (createPrefillRid_Ok _ _ _ H) as (_ & _ & _ & _ & _ & _ & Hne).
  split; [ apply orNull_Some, Hne | reflexivity ].
Qed.

Lemma reviewItems_length info fetch rs : forall k,
  List.length (reviewItems info fetch k rs) = List.length rs.
Proof.
  induction rs as [| r rs IH]; intros k; cbn; [ | rewrite IH ]; reflexivity.
Qed.

Lemma reviewItems_nth info fetch rs : forall k i r,
  nth_error rs i = Some r ->
  nth_error (reviewItems info fetch k rs) i
  = Some (reviewItem info (fetch (k + i)%nat) r).
Proof.
  induction rs as [| r0 rs IH]; intros k [| i] r H; try discriminate.
  - injection H as ->. cbn. rewrite Nat.add_0_r. reflexivity.
  - cbn [Worker.reviewItems nth_error]. rewrite (IH (S k) i r H).
    do 3 f_equal. lia.
Qed.

Lemma reviewItems_In info fetch rs : forall k it,
  In it (reviewItems info fetch k rs) ->
  exists r i, In r rs /\ it = reviewItem info (fetch i) r.
Proof.
  induction rs as [| r rs IH]; intros k it; cbn; [ intros [] | ].
  intros [<- | H].
  - exists r, k. split; [ left; reflexivity | reflexivity ].
  - destruct (IH _ _ H) as (r' & i & Hr & Hit).
    exists r', i. split; [ right; exact Hr | exact Hit ].
Qed.

(** The records a worker pushes are those of the reviews its harvest
    returned, one per review and in the same order, whatever the
    prefill service answers. *)
Lemma worker_returned fuel net loc info rs :
  locInfo net loc = Some info ->
  harvest fuel net info = Returned rs ->
  exists w,
    worker fuel net loc = Some w /\
    pushed w = reviewItems info (prefillFetch net) 0 rs.
Proof.
  intros Hi Hh. unfold Worker.worker. rewrite Hi, Hh.
  destruct rs as [| r rs].
  - exists []. split; reflexivity.
  - cbn [List.length Nat.eqb]. eexists. split; [ reflexivity | ].
    rewrite pushed_Log. apply pushed_map_Push.
Qed.

(** A worker whose harvest throws logs the error and pushes no
    record. *)
Lemma worker_thrown fuel net loc info e :
  locInfo net loc = Some info ->
  harvest fuel net info = Thrown e ->
  worker fuel net loc
  = Some [Log (js "- ERROR reviews " ++ label info ++ js ": "
               ++ err_message e)].
Proof. intros Hi Hh. unfold Worker.worker. rewrite Hi, Hh. reflexivity. Qed.

Lemma worker_pushed_inv fuel net loc w :
  worker fuel net loc = Some w ->
  pushed w = [] \/
  exists info rs,
    locInfo net loc = Some info /\ harvest fuel net info = Returned rs /\
    pushed w = reviewItems info (prefillFetch net) 0 rs.
Proof.
  intros Hw.
  destruct (locInfo net loc) as [info |] eqn:Hi.
  - destruct (harvest fuel net info) as [rs | e | rs] eqn:Hh.
    + destruct (worker_returned _ _ _ _ _ Hi Hh) as (w' & Hw' & Hp).
      right. exists info, rs.
      split; [ reflexivity | ]. split; [ exact Hh | ]. congruence.
    + rewrite (worker_thrown _ _ _ _ _ Hi Hh) in Hw.
      injection Hw as <-. left. reflexivity.
    + unfold Worker.worker in Hw. rewrite Hi, Hh in Hw. discriminate Hw.
  - unfold Worker.worker in Hw. rewrite Hi in Hw.
    injection Hw as <-. left. reflexivity.
Qed.

(** Every record a worker pushes is that of a review created within
    the window. *)
Lemma worker_inWindow fuel net loc w it :
  worker fuel net loc = Some w -> In it (pushed w) ->
  exists ct ms,
    ct <> [] /\ fromISO ct = Some ms /\ (startMs <= ms <= endMs)%Z /\
    Make.reviewed_at it = toFormat ms.
Proof.
  intros Hw Hit.
  destruct (worker_pushed_inv _ _ _ _ Hw) as [E | (info & rs & Hi & Hh & E)];
    rewrite E in Hit; [ destruct Hit | ].
  apply reviewItems_In in Hit. destruct Hit as (r & i & Hr & ->).
  pose proof (HarvestFacts.listReviews_inWindow fromISO
                (reviewsUrl (locationId info)) (pageFetch net)
                startMs endMs fuel) as Hall.
  unfold Worker.harvest in Hh. rewrite Hh in Hall. cbn [harvested] in Hall.
  rewrite Forall_forall in Hall. specialize (Hall r Hr).
  apply HarvestFacts.inWindow_spec in Hall.
  destruct Hall as (ct & ms & Hct & Hne & Hms & Hrange).
  exists ct, ms. repeat split; try assumption; try apply Hrange.
  unfold Worker.reviewItem.
  destruct (Prefill.createPrefillRid _ _);
    cbn [Make.reviewed_at]; unfold formatCreateTime; rewrite Hct, Hms;
    reflexivity.
Qed.

Variable net : nat -> Net.

Local Abbreviation workersFrom :=
  (Main.workersFrom env fromISO toFormat toUpperCase encodeURIComponent
     metadataUrl reviewsUrl startMs endMs net).
Local Abbreviation workers :=
  (Main.workers env fromISO toFormat toUpperCase encodeURIComponent
     metadataUrl reviewsUrl startMs endMs net).

Lemma workersFrom_nth fuel locs : forall i ws,
  workersFrom fuel i locs = Some ws ->
  List.length ws = List.length locs /\
  forall j loc, nth_error locs j = Some loc ->
    exists w, nth_error ws j = Some w /\
              worker fuel (net (i + j)%nat) loc = Some w.
Proof.
  induction locs as [| loc0 locs IH]; intros i ws; cbn [Main.workersFrom].
  - intros [= <-]. split; [ reflexivity | ]. intros [| j] loc H; discriminate H.
  - destruct (worker fuel (net i) loc0) as [w0 |] eqn:Hw; [ | discriminate ].
    destruct (workersFrom fuel (S i) locs) as [ws' |] eqn:Hws; [ | discriminate ].
    intros [= <-]. destruct (IH _ _ Hws) as [Hlen Hnth].
    split; [ cbn; rewrite Hlen; reflexivity | ].
    intros [| j] loc H.
    + injection H as <-. exists w0. rewrite Nat.add_0_r. split; [ reflexivity | exact Hw ].
    + destruct (Hnth j loc H) as (w & Hn & Hwk).
      exists w. split; [ exact Hn | ].
      replace (i + S j)%nat with (S i + j)%nat by lia. exact Hwk.
Qed.

Lemma workers_In fuel locs ws w :
  workers fuel locs = Some ws -> In w ws ->
  exists j loc, nth_error locs j = Some loc /\
                worker fuel (net j) loc = Some w.
Proof.
  intros Hws Hin. destruct (workersFrom_nth _ _ _ _ Hws) as [Hlen Hnth].
  apply In_nth_error in Hin. destruct Hin as [j Hj].
  assert (Hlt : (j < List.length locs)%nat).
  { rewrite <- Hlen. apply nth_error_Some. congruence. }
  destruct (nth_error locs j) as [loc |] eqn:Hl;
    [ | apply nth_error_None in Hl; lia ].
  destruct (Hnth j loc Hl) as (w' & Hw' & Hwk).
  exists j, loc. split; [ exact Hl | ]. cbn [Nat.add] in Hwk. congruence.
Qed.

Local Abbreviation windowed :=
  (fun it : Make.Item =>
     exists ct ms,
       ct <> [] /\ fromISO ct = Some ms /\ (startMs <= ms <= endMs)%Z /\
       Make.reviewed_at it = toFormat ms).

(** C4: every record [main] holds after the pool has run, and so every
    record in the data of a payload it sends, is that of a review whose
    [createTime] is present, not empty and a valid date between the
    start and the end of the window, both included (its [reviewed_at]
    is that time formatted); and every review a harvest returns or has
    accumulated is such a review. *)
Theorem items_in_window fuel locations items :
  Main.collects env fromISO toFormat toUpperCase encodeURIComponent
    metadataUrl reviewsUrl startMs endMs net fuel locations items ->
  Forall windowed items /\
  (forall metaBase p,
      In p (Make.payloads metaBase items (Env.MAKE_BATCH_SIZE env)) ->
      Forall windowed (Make.data p)) /\
  forall url pages fuel',
    Forall (fun r => exists ct ms,
              createTime r = Some ct /\ ct <> [] /\ fromISO ct = Some ms /\
              (startMs <= ms <= endMs)%Z)
      (harvested (fst (listReviewsForLocation fromISO url pages
                         startMs endMs fuel'))).
Proof.
  intros (ws & tr & Hws & Hrun & ->).
  assert (Hall : Forall windowed (pushed tr)).
  { apply Forall_forall. intros it Hit.
    apply run_Merge, Merge_pushed in Hrun.
    apply (Merge_In _ _ Hrun) in Hit. destruct Hit as (p & Hp & Hit).
    apply in_map_iff in Hp. destruct Hp as (w & <- & Hw).
    destruct (workers_In _ _ _ _ Hws Hw) as (j & loc & _ & Hwk).
    exact (worker_inWindow _ _ _ _ _ Hwk Hit). }
  split; [ exact Hall | ]. split.
  - intros metaBase p Hp. apply Forall_forall. intros it Hit.
    rewrite Forall_forall in Hall. apply Hall.
    exact (ChunkFacts.payloads_In _ _ _ _ _ Hp Hit).
  - intros url pages fuel'.
    pose proof (HarvestFacts.listReviews_inWindow fromISO url pages
                  startMs endMs fuel') as H.
    rewrite Forall_forall in *. intros r Hr.
    apply HarvestFacts.inWindow_spec. exact (H r Hr).
Qed.

(** C7: when the prefill call of a harvested review fails, the worker
    still pushes a record for every harvested review; the record of
    that review is pushed at the place of the review and holds the
    review: the id that ends its name, its rating, its reviewer, the
    time it was created, its cleaned comment and the full comment made
    of these, with the id of the location; it has no [prefill_rid], no
    [smart_reply_url] and a [prefill_error] that is not empty, and it
    is among the records of every run of the pool that includes the
    worker; the pool completes.  The call fails unless the response is
    2xx, decodes, and carries a non-empty [rid]. *)
Theorem prefill_failure_keeps_review fuel n loc info rs i r e :
  locInfo n loc = Some info ->
  harvest fuel n info = Returned rs ->
  nth_error rs i = Some r ->
  Prefill.createPrefillRid env (prefillFetch n i (prefillPayload info r))
  = Throw e ->
  (exists w it,
      worker fuel n loc = Some w /\
      List.length (pushed w) = List.length rs /\
      nth_error (pushed w) i = Some it /\
      Make.locationId it = locationId info /\
      Make.reviewId it = orNull (lastSegment (trim (orEmpty (name r)))) /\
      Make.rating it = starRatingToInt toUpperCase (starRating r) /\
      Make.reviewer it
      = orNull (trim match reviewer r with
                     | Some o =>
                         or (orEmpty (displayName o))
                            (orEmpty (profileName o))
                     | None => []
                     end) /\
      Make.reviewed_at it
      = match createTime r with
        | Some ct =>
            match fromISO ct with
            | Some ms => toFormat ms
            | None => js "Invalid DateTime"
            end
        | None => js "Invalid DateTime"
        end /\
      Make.comment it = orNull (cleanComment (comment r)) /\
      Make.comment_full it
      = buildCommentFull (cleanComment (comment r))
          (orEmpty (Make.reviewer it)) (Make.reviewed_at it) /\
      Make.prefill_rid it = None /\
      Make.smart_reply_url it = None /\
      (exists msg, Make.prefill_error it = Some msg /\ msg <> []) /\
      (forall limit ws tr,
          In w ws -> Pool.run limit ws tr -> In it (pushed tr)) /\
      (forall limit ws, exists tr, Pool.run limit ws tr)) /\
  (forall fetch rid,
      Prefill.createPrefillRid env fetch = Ok rid ->
      exists res j,
        outcome (requestWithRetry fetch) = Ok res /\ ok res = true /\
        json res = Ok j /\ Prefill.rid j = Some rid /\ rid <> []).
Proof.
  intros Hi Hh Hr He. split; [ | apply createPrefillRid_Ok ].
  destruct (worker_returned _ _ _ _ _ Hi Hh) as (w & Hw & Hp).
  pose proof (reviewItems_nth info (prefillFetch n) rs 0 i r Hr) as Hn.
  cbn [Nat.add] in Hn.
  destruct (reviewItem_thrown _ _ _ _ He) as (H1 & H2 & H3).
  exists w, (reviewItem info (prefillFetch n i) r).
  split; [ exact Hw | ].
  split; [ rewrite Hp; apply reviewItems_length | ].
  split; [ rewrite Hp; exact Hn | ].
  assert (Hfields :
    forall it, it = reviewItem info (prefillFetch n i) r ->
      Make.locationId it = locationId info /\
      Make.reviewId it = orNull (reviewIdOf r) /\
      Make.rating it = starRatingToInt toUpperCase (starRating r) /\
      Make.reviewer it = orNull (reviewerOf r) /\
      Make.reviewed_at it = formatCreateTime fromISO toFormat (createTime r) /\
      Make.comment it = orNull (cleanComment (comment r)) /\
      Make.comment_full it
      = buildCommentFull (cleanComment (comment r)) (reviewerOf r)
          (formatCreateTime fromISO toFormat (createTime r))).
  { intros it ->. unfold Worker.reviewItem.
    replace (cleanComment (Some (orEmpty (comment r))))
      with (cleanComment (comment r)) by (destruct (comment r); reflexivity).
    destruct (Prefill.createPrefillRid _ _); cbn; repeat split. }
  destruct (Hfields _ eq_refl) as (F1 & F2 & F3 & F4 & F5 & F6 & F7).
  split; [ exact F1 | ]. split; [ exact F2 | ]. split; [ exact F3 | ].
  split; [ rewrite F4; unfold reviewerOf; destruct (reviewer r); reflexivity | ].
  split; [ exact F5 | ]. split; [ exact F6 | ].
  split.
  { rewrite F7, F4, F5. f_equal.
    destruct (reviewerOf r); reflexivity. }
  split; [ exact H1 | ]. split; [ exact H2 | ].
  split; [ eexists; split; [ exact H3 | apply error_text_populated ] | ].
  split; [ | intros limit ws; apply run_exists ].
  intros limit ws tr Hin Hrun.
  apply run_Merge, Merge_pushed in Hrun.
  apply (Merge_In _ _ Hrun). exists (pushed w). split.
  - apply in_map. exact Hin.
  - rewrite Hp. apply nth_error_In with (n := i). exact Hn.
Qed.

(** C8: in every run of the pool over the workers of the locations,
    the records collected interleave the records of the workers; a
    location whose harvest throws has a worker that pushes no record
    and logs the error, and the line is in the log of the run; every
    location whose harvest returns has all its records, those of the
    reviews harvested, in the records collected, in their order; and
    the pool completes. *)
Theorem location_failure_is_isolated fuel locations ws tr :
  workers fuel locations = Some ws ->
  Pool.run (Env.CONCURRENCY env) ws tr ->
  Merge (map pushed ws) (pushed tr) /\
  (forall j loc info,
      nth_error locations j = Some loc ->
      locInfo (net j) loc = Some info ->
      match harvest fuel (net j) info with
      | Thrown e =>
          exists w line,
            nth_error ws j = Some w /\ pushed w = [] /\
            line = js "- ERROR reviews " ++ label info ++ js ": "
                   ++ err_message e /\
            logged w = [line] /\ In line (logged tr)
      | Returned rs =>
          exists w,
            nth_error ws j = Some w /\
            pushed w = reviewItems info (prefillFetch (net j)) 0 rs /\
            Subseq (pushed w) (pushed tr)
      | Unfinished _ => False
      end) /\
  (exists tr', Pool.run (Env.CONCURRENCY env) ws tr').
Proof.
  intros Hws Hrun. pose proof (run_Merge _ _ _ Hrun) as HM.
  split; [ apply Merge_pushed, HM | ]. split; [ | apply run_exists ].
  intros j loc info Hl Hi.
  destruct (workersFrom_nth _ _ _ _ Hws) as [_ Hnth].
  destruct (Hnth j loc Hl) as (w & Hw & Hwk). cbn [Nat.add] in Hwk.
  destruct (harvest fuel (net j) info) as [rs | e | rs] eqn:Hh.
  - destruct (worker_returned _ _ _ _ _ Hi Hh) as (w' & Hw' & Hp).
    assert (w' = w) by congruence. subst w'.
    exists w. split; [ exact Hw | ]. split; [ exact Hp | ].
    apply (Merge_Subseq _ _ (Merge_pushed _ _ HM)).
    apply in_map. apply nth_error_In with (n := j). exact Hw.
  - rewrite (worker_thrown _ _ _ _ _ Hi Hh) in Hwk. injection Hwk as <-.
    eexists. eexists. split; [ exact Hw | ]. split; [ reflexivity | ].
    split; [ reflexivity | ]. split; [ reflexivity | ].
    apply (Merge_In _ _ (Merge_logged _ _ HM)).
    eexists. split.
    + apply in_map. apply nth_error_In with (n := j). exact Hw.
    + left. reflexivity.
  - unfold Worker.worker in Hwk. rewrite Hi, Hh in Hwk. discriminate Hwk.
Qed.

(** C9, amended: in every run, the records collected interleave the
    records of the locations: the records of each location appear in
    the order of the reviews its harvest returned, but records of
    different locations may be mixed, in the order the workers pushed
    them; when [CONCURRENCY] is at most 1 the workers run one after
    the other and the records collected are those of the locations
    in the order the locations are listed. *)
Theorem records_interleave_per_location fuel locations ws tr :
  workers fuel locations = Some ws ->
  Pool.run (Env.CONCURRENCY env) ws tr ->
  Merge (map pushed ws) (pushed tr) /\
  (forall w, In w ws -> Subseq (pushed w) (pushed tr)) /\
  (forall j loc info rs,
      nth_error locations j = Some loc ->
      locInfo (net j) loc = Some info ->
      harvest fuel (net j) info = Returned rs ->
      exists w,
        nth_error ws j = Some w /\
        pushed w = reviewItems info (prefillFetch (net j)) 0 rs) /\
  (leInt (Env.CONCURRENCY env) 1 = true ->
   pushed tr = List.concat (map pushed ws)).
Proof.
  intros Hws Hrun. pose proof (run_Merge _ _ _ Hrun) as HM.
  split; [ apply Merge_pushed, HM | ]. split; [ | split ].
  - intros w Hw. apply (Merge_Subseq _ _ (Merge_pushed _ _ HM)).
    apply in_map. exact Hw.
  - intros j loc info rs Hl Hi Hh.
    destruct (workersFrom_nth _ _ _ _ Hws) as [_ Hnth].
    destruct (Hnth j loc Hl) as (w & Hw & Hwk). cbn [Nat.add] in Hwk.
    destruct (worker_returned _ _ _ _ _ Hi Hh) as (w' & Hw' & Hp).
    assert (w' = w) by congruence. subst w'.
    exists w. split; [ exact Hw | exact Hp ].
  - intros Hl. rewrite (run_sequential _ _ _ Hl Hrun).
    apply pushed_concat.
Qed.

End Run.

(** *** The sample run *)

Lemma sample_workers : Samples.mainWorkers 10 = Some Samples.workers.
Proof. vm_compute. reflexivity. Qed.

Lemma sample_run :
  Pool.run (Env.CONCURRENCY Samples.env) Samples.workers Samples.traceCFirst.
Proof.
  apply runUnder_run with (schedule := Samples.scheduleCFirst).
  vm_compute. reflexivity.
Qed.

(** C9, as stated, fails: with the default concurrency of 5, the record
    of location C, listed last, is collected before the records of
    location A when the requests of its worker complete first. *)
Lemma listing_order_fails :
  ~ (forall ws tr,
        Samples.mainWorkers 10 = Some ws ->
        Pool.run (Env.CONCURRENCY Samples.env) ws tr ->
        pushed tr = List.concat (map pushed ws)).
Proof.
  intros H. specialize (H _ _ sample_workers sample_run).
  apply (f_equal (map Make.locationId)) in H.
  vm_compute in H. discriminate H.
Qed.

(** The records collected by the sample run are within the window. *)
Lemma items_in_window_witness :
  Main.collects Samples.env Samples.fromISO Samples.toFormat asciiToUpperCase
    Samples.encodeURIComponent Samples.metadataUrl Samples.reviewsUrl
    Samples.startMs Samples.endMs Samples.net 10 Samples.locations
    Samples.itemsCFirst /\
  Forall (fun it => exists ct ms,
            ct <> [] /\ Samples.fromISO ct = Some ms /\
            (Samples.startMs <= ms <= Samples.endMs)%Z /\
            Make.reviewed_at it = Samples.toFormat ms)
    Samples.itemsCFirst.
Proof.
  assert (H : Main.collects Samples.env Samples.fromISO Samples.toFormat
                asciiToUpperCase Samples.encodeURIComponent
                Samples.metadataUrl Samples.reviewsUrl Samples.startMs
                Samples.endMs Samples.net 10 Samples.locations
                Samples.itemsCFirst).
  { exists Samples.workers, Samples.traceCFirst.
    split; [ exact sample_workers | ].
    split; [ exact sample_run | reflexivity ]. }
  split; [ exact H | ].
  exact (proj1 (items_in_window _ _ _ _ _ _ _ _ _ _ _ _ _ H)).
Defined.

(** Location C of the samples: the prefill service answers 500 four
    times and the review is kept, with the error. *)
Lemma prefill_failure_keeps_review_witness :
  let e := httpError (Samples.failure (J := Prefill.PrefillJson) 500
                        "Internal Server Error") in
  (locInfo Samples.encodeURIComponent Samples.metadataUrl Samples.netC
     Samples.locationC = Some Samples.infoC /\
   harvest Samples.fromISO Samples.reviewsUrl Samples.startMs Samples.endMs
     10 Samples.netC Samples.infoC = Returned [Samples.reviewC1] /\
   nth_error [Samples.reviewC1] 0 = Some Samples.reviewC1 /\
   Prefill.createPrefillRid Samples.env
     (prefillFetch Samples.netC 0
        (prefillPayload Samples.env Samples.fromISO Samples.toFormat
           asciiToUpperCase Samples.infoC Samples.reviewC1))
   = Throw e) /\
  exists it,
    nth_error (pushed Samples.workerC) 0 = Some it /\
    Make.reviewId it = Some (js "c1") /\
    Make.rating it = Some 2 /\
    Make.reviewer it = Some (js "Cem") /\
    Make.reviewed_at it = js "31.03.2024 17:30:00" /\
    Make.comment it = Some (js "Naja") /\
    Make.prefill_rid it = None /\
    exists msg, Make.prefill_error it = Some msg /\ msg <> [].
Proof.
  cbv zeta.
  assert (H1 : locInfo Samples.encodeURIComponent Samples.metadataUrl
                 Samples.netC Samples.locationC = Some Samples.infoC)
    by (vm_compute; reflexivity).
  assert (H2 : harvest Samples.fromISO Samples.reviewsUrl Samples.startMs
                 Samples.endMs 10 Samples.netC Samples.infoC
               = Returned [Samples.reviewC1])
    by (vm_compute; reflexivity).
  assert (H3 : nth_error [Samples.reviewC1] 0 = Some Samples.reviewC1)
    by reflexivity.
  assert (H4 : Prefill.createPrefillRid Samples.env
                 (prefillFetch Samples.netC 0
                    (prefillPayload Samples.env Samples.fromISO
                       Samples.toFormat asciiToUpperCase Samples.infoC
                       Samples.reviewC1))
               = Throw (httpError (Samples.failure (J := Prefill.PrefillJson)
                                     500 "Internal Server Error")))
    by (vm_compute; reflexivity).
  split; [ repeat split; assumption | ].
  destruct (proj1 (prefill_failure_keeps_review Samples.env Samples.fromISO
              Samples.toFormat asciiToUpperCase Samples.encodeURIComponent
              Samples.metadataUrl Samples.reviewsUrl Samples.startMs
              Samples.endMs 10 Samples.netC Samples.locationC Samples.infoC
              [Samples.reviewC1] 0 Samples.reviewC1 _ H1 H2 H3 H4))
    as (w & it & Hw & _ & Hn & _ & Fid & Frating & Freviewer & Fat & Fcomment
        & _ & Hrid & _ & Herr & _).
  assert (E : w = Samples.workerC).
  { assert (Hc : Samples.worker 10 Samples.netC Samples.locationC
                 = Some Samples.workerC) by (vm_compute; reflexivity).
    unfold Samples.worker in Hc. congruence. }
  subst w. exists it. split; [ exact Hn | ].
  split; [ rewrite Fid; vm_compute; reflexivity | ].
  split; [ rewrite Frating; vm_compute; reflexivity | ].
  split; [ rewrite Freviewer; vm_compute; reflexivity | ].
  split; [ rewrite Fat; vm_compute; reflexivity | ].
  split; [ rewrite Fcomment; vm_compute; reflexivity | ].
  split; [ exact Hrid | exact Herr ].
Defined.

(** The sample run: the harvest of location B fails, the records of A
    and C are collected. *)
Lemma location_failure_is_isolated_witness :
  Samples.mainWorkers 10 = Some Samples.workers /\
  Pool.run (Env.CONCURRENCY Samples.env) Samples.workers Samples.traceCFirst /\
  Merge (map pushed Samples.workers) (pushed Samples.traceCFirst).
Proof.
  split; [ exact sample_workers | ]. split; [ exact sample_run | ].
  exact (proj1 (location_failure_is_isolated _ _ _ _ _ _ _ _ _ _ _ _ _ _
                  sample_workers sample_run)).
Defined.

(** The sample run keeps the records of each location in order. *)
Lemma records_interleave_per_location_witness :
  Samples.mainWorkers 10 = Some Samples.workers /\
  Pool.run (Env.CONCURRENCY Samples.env) Samples.workers Samples.traceCFirst /\
  forall w, In w Samples.workers ->
            Subseq (pushed w) (pushed Samples.traceCFirst).
Proof.
  split; [ exact sample_workers | ]. split; [ exact sample_run | ].
  exact (proj1 (proj2 (records_interleave_per_location _ _ _ _ _ _ _ _ _ _ _ _ _ _
                         sample_workers sample_run))).
Defined.

End RunFacts.

(** * Part III: further properties

    The functions the properties above leave out, and the run as a
    whole. *)

(** ** The window as a set of instants *)

Module WindowFacts.

Import Luxon LuxonFacts.

Ltac div_lia := Z.to_euclidean_division_equations; lia.

Section Zone.

Variable dst : Z -> bool.

(** The offset of an instant is that of the interval of UTC time it
    lies in. *)
Lemma offset_of_index ts k :
  (ts - MS_PER_HOUR) / MS_PER_DAY = k ->
  offset dst ts = if dst k then 120 else 60.
Proof. intros <-. reflexivity. Qed.

(** An instant at local midnight of day [q] lies in the interval of
    index [q - 1]; the last millisecond of day [q] lies in the interval
    of index [q]. *)
Lemma midnight_index ts q :
  localTS dst ts = q * MS_PER_DAY -> (ts - MS_PER_HOUR) / MS_PER_DAY = q - 1.
Proof.
  unfold localTS. intros H.
  destruct (offset_cases dst ts) as [Ho | Ho]; rewrite Ho in H;
    unfold MS_PER_DAY, MS_PER_HOUR, MS_PER_MINUTE in *; div_lia.
Qed.

Lemma day_end_index ts q :
  localTS dst ts = q * MS_PER_DAY + (MS_PER_DAY - 1) ->
  (ts - MS_PER_HOUR) / MS_PER_DAY = q.
Proof.
  unfold localTS. intros H.
  destruct (offset_cases dst ts) as [Ho | Ho]; rewrite Ho in H;
    unfold MS_PER_DAY, MS_PER_HOUR, MS_PER_MINUTE in *; div_lia.
Qed.

(** The instants between the local midnight [s] and the last local
    millisecond [e] of day [q] are those whose local day is [q]. *)
Lemma day_interval s e q ts :
  localTS dst s = q * MS_PER_DAY ->
  localTS dst e = q * MS_PER_DAY + (MS_PER_DAY - 1) ->
  (s <= ts <= e <-> localDay dst ts = q).
Proof.
  intros Hs He.
  pose proof (midnight_index _ _ Hs) as Is.
  pose proof (day_end_index _ _ He) as Ie.
  pose proof (offset_of_index _ _ Is) as Os.
  pose proof (offset_of_index _ _ Ie) as Oe.
  unfold localDay. unfold localTS in *. rewrite Os in Hs. rewrite Oe in He.
  clear Os Oe.
  remember ((ts - MS_PER_HOUR) / MS_PER_DAY) as k eqn:Ek. symmetry in Ek.
  rewrite (offset_of_index _ _ Ek).
  unfold MS_PER_DAY, MS_PER_HOUR, MS_PER_MINUTE in *.
  assert (Hk : k < q - 1 \/ k = q - 1 \/ k = q \/ q < k) by lia.
  destruct Hk as [Hk | [Hk | [Hk | Hk]]].
  - destruct (dst k), (dst (q - 1)), (dst q); split; intros; div_lia.
  - subst k. rewrite Hk in *.
    destruct (dst (q - 1)), (dst q); split; intros; div_lia.
  - subst k. rewrite Hk in *.
    destruct (dst (q - 1)), (dst q); split; intros; div_lia.
  - destruct (dst k), (dst (q - 1)), (dst q); split; intros; div_lia.
Qed.

(** The local day never decreases with time. *)
Lemma localDay_mono ts1 ts2 :
  ts1 <= ts2 -> localDay dst ts1 <= localDay dst ts2.
Proof.
  intros Hle. unfold localDay, localTS.
  remember ((ts1 - MS_PER_HOUR) / MS_PER_DAY) as k1 eqn:E1. symmetry in E1.
  remember ((ts2 - MS_PER_HOUR) / MS_PER_DAY) as k2 eqn:E2. symmetry in E2.
  rewrite (offset_of_index _ _ E1), (offset_of_index _ _ E2).
  unfold MS_PER_DAY, MS_PER_HOUR, MS_PER_MINUTE in *.
  assert (Hk : k1 = k2 \/ k1 < k2) by div_lia.
  destruct Hk as [Hk | Hk].
  - subst k1. rewrite Hk. subst k2. destruct (dst _); div_lia.
  - destruct (dst k1), (dst k2); div_lia.
Qed.

Lemma window_day now :
  let '(s, e) := getYesterdayRange dst now in
  forall ts, s <= ts <= e <-> localDay dst ts = localDay dst now - 1.
Proof.
  pose proof (yesterday_window dst now) as H.
  destruct (getYesterdayRange dst now) as [s e].
  destruct H as (Hs & He & _). intros ts.
  apply day_interval; assumption.
Qed.

Lemma window_past now :
  let '(s, e) := getYesterdayRange dst now in s <= e /\ e < now.
Proof.
  pose proof (window_day now) as H.
  pose proof (yesterday_window dst now) as Hw.
  destruct (getYesterdayRange dst now) as [s e].
  destruct Hw as (Hs & He & Hd).
  pose proof (offset_cases dst s) as Os.
  pose proof (offset_cases dst e) as Oe.
  split.
  - unfold MS_PER_DAY, MS_PER_MINUTE in Hd. lia.
  - destruct (Z_lt_le_dec e now) as [Hlt | Hge]; [ exact Hlt | exfalso ].
    assert (He' : localDay dst e = localDay dst now - 1).
    { apply H. unfold MS_PER_DAY, MS_PER_MINUTE in Hd. lia. }
    pose proof (localDay_mono _ _ Hge). lia.
Qed.

Lemma windows_adjacent now1 now2 :
  localDay dst now2 = localDay dst now1 + 1 ->
  fst (getYesterdayRange dst now2) = snd (getYesterdayRange dst now1) + 1.
Proof.
  intros Hday.
  pose proof (window_day now1) as H1. pose proof (window_day now2) as H2.
  pose proof (window_past now1) as P1. pose proof (window_past now2) as P2.
  destruct (getYesterdayRange dst now1) as [s1 e1].
  destruct (getYesterdayRange dst now2) as [s2 e2]. cbn [fst snd].
  destruct P1 as [P1 _]. destruct P2 as [P2 _].
  assert (D1 : localDay dst e1 = localDay dst now1 - 1) by (apply H1; lia).
  assert (D2 : localDay dst s2 = localDay dst now2 - 1) by (apply H2; lia).
  assert (L1 : e1 < s2).
  { destruct (Z_lt_le_dec e1 s2) as [Hlt | Hge]; [ exact Hlt | exfalso ].
    pose proof (localDay_mono _ _ Hge). lia. }
  destruct (Z.eq_dec s2 (e1 + 1)) as [E | N]; [ exact E | exfalso ].
  assert (M1 : localDay dst e1 <= localDay dst (e1 + 1))
    by (apply localDay_mono; lia).
  assert (M2 : localDay dst (e1 + 1) <= localDay dst s2)
    by (apply localDay_mono; lia).
  assert (C : localDay dst (e1 + 1) = localDay dst now1 - 1
              \/ localDay dst (e1 + 1) = localDay dst now2 - 1) by lia.
  destruct C as [C | C].
  - apply H1 in C. lia.
  - apply H2 in C. lia.
Qed.

End Zone.

(** X1: the window of a run holds exactly the instants of the Berlin
    calendar day before that of [now], and it ends before [now]. *)
Theorem window_is_yesterday (now : Z) :
  let '(s, e) := getYesterdayRangeBerlin now in
  (forall ts, s <= ts <= e
              <-> localDay berlinDST ts = localDay berlinDST now - 1) /\
  s <= e /\ e < now.
Proof.
  pose proof (window_day berlinDST now) as H.
  pose proof (window_past berlinDST now) as P.
  unfold getYesterdayRangeBerlin.
  destruct (getYesterdayRange berlinDST now) as [s e].
  split; [ exact H | exact P ].
Qed.

(** X2: the windows of runs on consecutive Berlin days follow each other
    without gap or overlap. *)
Theorem daily_windows_adjacent (now1 now2 : Z) :
  localDay berlinDST now2 = localDay berlinDST now1 + 1 ->
  fst (getYesterdayRangeBerlin now2) = snd (getYesterdayRangeBerlin now1) + 1.
Proof. apply windows_adjacent. Qed.

(** Runs at noon on 2024-04-01 and at 07:00 on 2024-04-02. *)
Lemma daily_windows_adjacent_witness :
  localDay berlinDST 1712034000000 = localDay berlinDST 1711965600000 + 1 /\
  fst (getYesterdayRangeBerlin 1712034000000)
  = snd (getYesterdayRangeBerlin 1711965600000) + 1.
Proof.
  split; [ vm_compute; reflexivity | ].
  apply (daily_windows_adjacent 1711965600000 1712034000000).
  vm_compute. reflexivity.
Defined.

End WindowFacts.

(** ** Masking of secrets *)

Module ConfigFacts.

Import Config.

Local Open Scope nat_scope.

Lemma firstn_exact {A} (a r : list A) n :
  List.length a = n -> firstn n (a ++ r) = a.
Proof.
  intros <-. rewrite firstn_app, Nat.sub_diag, firstn_all. cbn [firstn].
  apply app_nil_r.
Qed.

Lemma skipn_exact {A} (a r : list A) n :
  List.length a = n -> skipn n (a ++ r) = r.
Proof.
  intros <-. rewrite skipn_app, Nat.sub_diag, skipn_all. reflexivity.
Qed.

(** X3: [mask] shows at most the first three and the last three characters:
    its result has at most 9 characters; a secret of 1 to 8 characters
    is replaced by three stars; and two longer secrets with the same
    first three and last three characters have the same mask. *)
Theorem mask_hides (s : jsstring) :
  List.length (mask s) <= 9 /\
  (s <> [] -> List.length s <= 8 -> mask s = js "***") /\
  (forall a m m' b,
      List.length a = 3 -> List.length b = 3 ->
      3 <= List.length m -> 3 <= List.length m' ->
      mask (a ++ m ++ b) = mask (a ++ m' ++ b)) /\
  (mask s = [] <-> s = []).
Proof.
  split; [ | split; [ | split ] ].
  - unfold mask. destruct s as [| c s]; cbn [truthy negb]; [ cbn; lia | ].
    destruct (List.length (c :: s) <=? 8) eqn:E; [ cbn; lia | ].
    apply Nat.leb_gt in E.
    rewrite !length_app, length_firstn, length_skipn.
    change (List.length (js "***")) with 3. lia.
  - intros Hne Hlen. unfold mask. destruct s as [| c s]; [ congruence | ].
    cbn [truthy negb]. apply Nat.leb_le in Hlen. rewrite Hlen. reflexivity.
  - intros a m m' b Ha Hb Hm Hm'.
    assert (H : forall x, 3 <= List.length x ->
              mask (a ++ x ++ b) = a ++ js "***" ++ b).
    { intros x Hx. unfold mask.
      assert (Hl : List.length (a ++ x ++ b) = 6 + List.length x)
        by (rewrite !length_app; lia).
      destruct (a ++ x ++ b) as [| c l] eqn:E; [ cbn in Hl; lia | ].
      cbn [truthy negb]. rewrite <- E in *.
      destruct (List.length (a ++ x ++ b) <=? 8) eqn:L;
        [ apply Nat.leb_le in L; lia | ].
      rewrite (firstn_exact a _ 3 Ha), Hl.
      replace (a ++ x ++ b) with ((a ++ x) ++ b) by (rewrite app_assoc; reflexivity).
      rewrite (skipn_exact (a ++ x) b); [ reflexivity | ].
      rewrite length_app. lia. }
    rewrite (H m Hm), (H m' Hm'). reflexivity.
  - unfold mask. destruct s as [| c s]; cbn [truthy negb].
    + split; reflexivity.
    + destruct (List.length (c :: s) <=? 8).
      * split; intros H; discriminate H.
      * split; intros H; [ | discriminate H ].
        apply (f_equal (@List.length N)) in H.
        rewrite !length_app in H. cbn in H. lia.
Qed.

End ConfigFacts.

(** ** Retries and [getJson] *)

Module HttpExtra.

Import HttpFacts.

Lemma sum_backoffs base n : forall i,
  fold_right Z.add 0 (backoffs base i n)
  = base * 2 ^ Z.of_nat i * (2 ^ Z.of_nat n - 1).
Proof.
  induction n as [| n IH]; intros i.
  - cbn. lia.
  - rewrite backoffs_cons. cbn [fold_right]. rewrite IH.
    rewrite !Nat2Z.inj_succ, !Z.pow_succ_r by lia. lia.
Qed.

(** X4: with any number of retries and any base delay, [requestWithRetry]
    makes at most [retries] attempts and sleeps after every failed
    attempt, [base * (2 ^ k - 1)] milliseconds in all for [k] failed
    attempts; without any attempt allowed it throws its own error
    without calling [fetch]; with the defaults it sleeps at most 12
    seconds. *)
Theorem retry_total_delay {J : Type} (fetch : Fetch J)
    (retries : nat) (baseBackoffMs : Z) :
  let r := requestWithRetryOpts fetch retries baseBackoffMs in
  let failed := match outcome r with
                | Ok _ => (attempts r - 1)%nat
                | Throw _ => retries
                end in
  (attempts r <= retries)%nat /\
  List.length (sleeps r) = failed /\
  fold_right Z.add 0 (sleeps r) = baseBackoffMs * (2 ^ Z.of_nat failed - 1) /\
  (retries = 0%nat ->
   outcome r = Throw (newError (js "requestWithRetry failed"))
   /\ attempts r = 0%nat) /\
  0 <= fold_right Z.add 0 (sleeps (requestWithRetry fetch)) <= 12000.
Proof.
  assert (G : forall n b,
    let r := requestWithRetryOpts fetch n b in
    let failed := match outcome r with
                  | Ok _ => (attempts r - 1)%nat
                  | Throw _ => n
                  end in
    (attempts r <= n)%nat /\ (failed <= n)%nat /\
    sleeps r = backoffs b 0 failed).
  { intros n b. cbv zeta. unfold requestWithRetryOpts.
    destruct (retryLoop_spec fetch b n 0 None []) as (k & Hk & Hatt & _ & Hout).
    cbn [Nat.add app] in *.
    destruct (outcome (retryLoop fetch b n 0 None [])) as [res | e].
    - destruct Hout as (_ & _ & _ & Hs). rewrite Hatt.
      split; [ lia | ]. split; [ lia | exact Hs ].
    - destruct Hout as (-> & _ & _ & Hs).
      split; [ lia | ]. split; [ lia | exact Hs ]. }
  cbv zeta. destruct (G retries baseBackoffMs) as (Ha & Hf & Hs).
  split; [ exact Ha | ]. split; [ | split; [ | split ] ].
  - rewrite Hs. unfold backoffs. rewrite length_map, length_seq. reflexivity.
  - rewrite Hs, sum_backoffs. cbn [Z.of_nat]. lia.
  - intros ->. split; reflexivity.
  - destruct (G 4%nat 800) as (_ & Hf4 & Hs4).
    unfold requestWithRetry. rewrite Hs4, sum_backoffs.
    set (k := match outcome (requestWithRetryOpts fetch 4 800) with
              | Ok _ => (attempts (requestWithRetryOpts fetch 4 800) - 1)%nat
              | Throw _ => 4%nat
              end) in *.
    clearbody k.
    do 5 (destruct k as [| k]; [ cbn; lia | ]). lia.
Qed.

(** X5: [getJson] returns a document only from a response with a status
    from 200 to 299 whose body decodes; a response with any other
    status makes it throw an error that names the request and carries
    the status and the body; and a first response with a status from
    200 to 299 is decoded at once. *)
Theorem getJson_contract {J : Type} (url : jsstring) (fetch : Fetch J) :
  (forall j,
      getJson url fetch = Ok j ->
      exists res,
        outcome (requestWithRetry fetch) = Ok res /\
        200 <= status res <= 299 /\ json res = Ok j) /\
  (forall res,
      outcome (requestWithRetry fetch) = Ok res ->
      ~ 200 <= status res <= 299 ->
      getJson url fetch
      = Throw (newError (js "GET " ++ url ++ js " -> "
                         ++ numToString (status res) ++ js ": "
                         ++ textOrEmpty res))) /\
  (forall e,
      outcome (requestWithRetry fetch) = Throw e ->
      getJson url fetch = Throw e) /\
  (forall res,
      fetch 0%nat = Resolved res -> 200 <= status res <= 299 ->
      getJson url fetch = json res).
Proof.
  assert (Hok : forall res : Response J,
            ok res = true <-> 200 <= status res <= 299).
  { intros res. unfold ok. rewrite andb_true_iff, !Z.leb_le. tauto. }
  split; [ | split; [ | split ] ].
  - intros j H. unfold getJson in H.
    destruct (outcome (requestWithRetry fetch)) as [res | e]; [ | discriminate H ].
    destruct (ok res) eqn:E; cbn [negb] in H; [ | discriminate H ].
    exists res. split; [ reflexivity | ]. split; [ apply Hok, E | exact H ].
  - intros res H Hn. unfold getJson. rewrite H.
    destruct (ok res) eqn:E; [ apply Hok in E; contradiction | reflexivity ].
  - intros e H. unfold getJson. rewrite H. reflexivity.
  - intros res H Hs.
    assert (Hr : isRetryStatus (status res) = false).
    { destruct (isRetryStatus (status res)) eqn:E; [ | reflexivity ].
      apply isRetryStatus_spec in E. cbn in E. lia. }
    unfold getJson, requestWithRetry, requestWithRetryOpts.
    cbn [retryLoop]. rewrite H, Hr. cbn [outcome].
    apply Hok in Hs. rewrite Hs. reflexivity.
Qed.

End HttpExtra.

(** ** The access token *)

Module TokenFacts.

Import Token HttpFacts.

Lemma mustEnv_Ok key value v :
  Env.mustEnv key value = Ok v -> value <> [] /\ v = value.
Proof.
  unfold Env.mustEnv. destruct value; cbn; [ discriminate | ].
  intros [= <-]. split; [ discriminate | reflexivity ].
Qed.

Lemma mustEnv_missing key : Env.mustEnv key [] = Throw (newError (js "Missing env: " ++ key)).
Proof. reflexivity. Qed.

(** X6: [getAccessToken] throws before any request when one of the three
    OAuth settings is empty, naming a missing setting; it makes at most
    4 requests; and it returns a token only when the three settings are
    present and the response has a status from 200 to 299, decodes and
    carries that token, which is not empty. *)
Theorem getAccessToken_contract (env : Env.t) (fetch : Fetch TokenJson) :
  (Env.GBP_CLIENT_ID env = [] \/ Env.GBP_CLIENT_SECRET env = []
   \/ Env.GBP_REFRESH_TOKEN env = [] ->
   snd (getAccessToken env fetch) = 0%nat /\
   exists key,
     In key [js "GBP_CLIENT_ID"; js "GBP_CLIENT_SECRET"; js "GBP_REFRESH_TOKEN"]
     /\ fst (getAccessToken env fetch)
        = Throw (newError (js "Missing env: " ++ key))) /\
  (snd (getAccessToken env fetch) <= 4)%nat /\
  (forall token,
      fst (getAccessToken env fetch) = Ok token ->
      token <> [] /\
      Env.GBP_CLIENT_ID env <> [] /\ Env.GBP_CLIENT_SECRET env <> [] /\
      Env.GBP_REFRESH_TOKEN env <> [] /\
      exists res j,
        outcome (requestWithRetry fetch) = Ok res /\
        200 <= status res <= 299 /\ json res = Ok j /\
        access_token j = Some token).
Proof.
  unfold getAccessToken.
  assert (Hatt : (attempts (requestWithRetry fetch) <= 4)%nat).
  { destruct (retryLoop_spec fetch 800 4 0 None []) as (k & Hk & Ha & _).
    unfold requestWithRetry, requestWithRetryOpts. cbn [Nat.add] in Ha. lia. }
  destruct (Env.GBP_CLIENT_ID env) as [| c1 id] eqn:E1.
  { cbn. split; [ | split; [ lia | discriminate ] ].
    intros _. split; [ reflexivity | ].
    exists (js "GBP_CLIENT_ID"). split; [ left; reflexivity | reflexivity ]. }
  destruct (Env.GBP_CLIENT_SECRET env) as [| c2 sec] eqn:E2.
  { cbn. split; [ | split; [ lia | discriminate ] ].
    intros _. split; [ reflexivity | ].
    exists (js "GBP_CLIENT_SECRET").
    split; [ right; left; reflexivity | reflexivity ]. }
  destruct (Env.GBP_REFRESH_TOKEN env) as [| c3 ref] eqn:E3.
  { cbn. split; [ | split; [ lia | discriminate ] ].
    intros _. split; [ reflexivity | ].
    exists (js "GBP_REFRESH_TOKEN").
    split; [ right; right; left; reflexivity | reflexivity ]. }
  cbn [Env.mustEnv truthy negb fst snd].
  split; [ intros [H | [H | H]]; discriminate H | ].
  split; [ exact Hatt | ].
  intros token H.
  destruct (outcome (requestWithRetry fetch)) as [res | e]; [ | discriminate H ].
  destruct (text res) as [txt | e]; [ | discriminate H ].
  destruct (ok res) eqn:Hok; cbn [negb] in H; [ | discriminate H ].
  destruct (json res) as [j | e] eqn:Hj; [ | discriminate H ].
  destruct (access_token j) as [t |] eqn:Ht; cbn [orEmpty] in H;
    [ | discriminate H ].
  destruct t as [| c t]; cbn [truthy negb] in H; [ discriminate H | ].
  injection H as <-.
  split; [ discriminate | ]. split; [ discriminate | ].
  split; [ discriminate | ]. split; [ discriminate | ].
  exists res, j. split; [ reflexivity | ].
  split; [ | split; [ exact Hj | exact Ht ] ].
  unfold ok in Hok. apply andb_true_iff in Hok. rewrite !Z.leb_le in Hok. exact Hok.
Qed.

End TokenFacts.

(** ** The listing of the locations *)

Module LocationsFacts.

Import Locations.

Section Listing.

Variable locationsUrl : jsstring -> jsstring.
Variable pages : nat -> jsstring -> Fetch LocationsPage.

Local Abbreviation listLoop := (listLoop locationsUrl pages).
Local Abbreviation Chain := (Chain locationsUrl pages).

Lemma truthy_iff (t : jsstring) : truthy t = true <-> t <> [].
Proof. destruct t; cbn; split; congruence. Qed.

Lemma Chain_listLoop k tok ps :
  Chain k tok ps ->
  forall out fuel, (List.length ps <= fuel)%nat ->
  listLoop fuel k out tok
  = (Listed (out ++ List.concat (map pageLocations ps)), cursors tok ps).
Proof.
  induction 1 as [k tok p Hp Hn | k tok p ps Hp Hn Hc IH]; intros out fuel Hf;
    cbn [List.length] in Hf; (destruct fuel as [| fuel]; [ lia | ]);
    cbn [Locations.listLoop]; rewrite Hp.
  - rewrite Hn. cbn. rewrite app_nil_r. reflexivity.
  - apply truthy_iff in Hn. rewrite Hn.
    rewrite (IH _ fuel) by lia. cbn [map List.concat cursors].
    rewrite <- app_assoc. reflexivity.
Qed.

Lemma listLoop_Chain fuel : forall k tok out res toks,
  listLoop fuel k out tok = (Listed res, toks) ->
  exists ps,
    Chain k tok ps /\ res = out ++ List.concat (map pageLocations ps)
    /\ toks = cursors tok ps.
Proof.
  induction fuel as [| fuel IH]; intros k tok out res toks H;
    cbn [Locations.listLoop] in H; [ discriminate H | ].
  destruct (getJson (locationsUrl tok) (pages k tok)) as [j | e] eqn:Hj;
    [ | discriminate H ].
  destruct (truthy (orEmpty (nextPageToken j))) eqn:Ht.
  - destruct (Locations.listLoop _ _ fuel (S k) _ _) as [h toks'] eqn:Hrec.
    injection H as -> <-.
    destruct (IH _ _ _ _ _ Hrec) as (ps & Hc & Hres & Htoks).
    exists (j :: ps). split; [ | split ].
    + apply chain_next; [ exact Hj | apply truthy_iff, Ht | exact Hc ].
    + rewrite Hres. cbn [map List.concat]. rewrite <- app_assoc. reflexivity.
    + rewrite Htoks. reflexivity.
  - injection H as <- <-. exists [j]. split; [ | split ].
    + apply chain_last; [ exact Hj | ].
      destruct (orEmpty (nextPageToken j)); [ reflexivity | discriminate Ht ].
    + cbn. rewrite app_nil_r. reflexivity.
    + reflexivity.
Qed.

Lemma Chain_unique k tok ps ps' :
  Chain k tok ps -> Chain k tok ps' -> ps = ps'.
Proof.
  intros H. revert ps'.
  induction H as [k tok p Hp Hn | k tok p ps Hp Hn Hc IH]; intros ps' H';
    inversion H' as [k' tok' p' Hp' Hn' | k' tok' p' qs Hp' Hn' Hc']; subst;
    rewrite Hp in Hp'; injection Hp' as <-.
  - reflexivity.
  - contradiction.
  - contradiction.
  - f_equal. apply IH. exact Hc'.
Qed.

(** X7: [listLocations] returns the locations of all the pages of the
    feed, in page order, each page after the first being requested
    with the cursor of the page before, up to the first page without
    cursor; and whatever it returns comes from such a feed. *)
Theorem listLocations_all_pages (ps : list LocationsPage) (fuel : nat) :
  Chain 0%nat [] ps -> (List.length ps <= fuel)%nat ->
  Locations.listLocations locationsUrl pages fuel
  = (Listed (List.concat (map pageLocations ps)), cursors [] ps) /\
  forall res toks fuel',
    Locations.listLocations locationsUrl pages fuel' = (Listed res, toks) ->
    res = List.concat (map pageLocations ps) /\ toks = cursors [] ps.
Proof.
  intros Hc Hf. unfold Locations.listLocations.
  split; [ exact (Chain_listLoop _ _ _ Hc [] fuel Hf) | ].
  intros res toks fuel' H.
  destruct (listLoop_Chain _ _ _ _ _ _ H) as (ps' & Hc' & Hres & Htoks).
  rewrite (Chain_unique _ _ _ _ Hc' Hc) in Hres, Htoks.
  split; assumption.
Qed.

End Listing.

End LocationsFacts.

(** ** Trimming, cleaning and path segments *)

Module TextFacts.

Import Text CommentFacts.

Local Open Scope nat_scope.

Lemma trimStart_headed s : headed (trimStart s).
Proof.
  induction s as [| c s IH]; cbn [trimStart]; [ left; reflexivity | ].
  destruct (isWhiteSpace c) eqn:E; [ exact IH | ].
  right. exists c, s. split; [ reflexivity | exact E ].
Qed.

Lemma headed_trimStart s : headed s -> trimStart s = s.
Proof.
  intros [-> | (c & r & -> & H)]; cbn [trimStart]; [ | rewrite H ]; reflexivity.
Qed.

Lemma headed_trimEnd s : headed s -> headed (trimEnd s).
Proof.
  intros [-> | (c & r & -> & H)]; [ left; reflexivity | ].
  destruct (trimEnd_keeps [] c r H) as [k Hk]. cbn [app] in Hk.
  right. exists c, (firstn k r). split; [ exact Hk | exact H ].
Qed.

Lemma headed_firstn s n : headed s -> headed (firstn n s).
Proof.
  intros [-> | (c & r & -> & H)].
  - left. apply firstn_nil.
  - destruct n as [| n]; [ left; reflexivity | ].
    right. exists c, (firstn n r). split; [ reflexivity | exact H ].
Qed.

Lemma trimStart_idem s : trimStart (trimStart s) = trimStart s.
Proof. apply headed_trimStart, trimStart_headed. Qed.

Lemma trimEnd_idem s : trimEnd (trimEnd s) = trimEnd s.
Proof.
  unfold trimEnd. rewrite rev_involutive, trimStart_idem. reflexivity.
Qed.

Lemma trim_headed s : headed (trim s).
Proof. apply headed_trimEnd, trimStart_headed. Qed.

Lemma headed_trim_trimEnd s : headed s -> trim (trimEnd s) = trimEnd s.
Proof.
  intros H. unfold trim.
  rewrite (headed_trimStart _ (headed_trimEnd _ H)). apply trimEnd_idem.
Qed.

(** Trimming twice is trimming once. *)
Lemma trim_idem s : trim (trim s) = trim s.
Proof. unfold trim at 2 3. apply headed_trim_trimEnd, trimStart_headed. Qed.

Lemma cutAt_absent t m : indexOf t m = None -> cutAt t m = t.
Proof. unfold cutAt. intros ->. reflexivity. Qed.

Lemma marker_nonempty m : In m markers -> m <> [].
Proof. intros [<- | [<- | []]]; discriminate. Qed.

(** In a cleaned comment no marker occurs. *)
Lemma cleanComment_no_marker text m :
  In m markers -> indexOf (cleanComment text) m = None.
Proof.
  intros Hm. rewrite cleanComment_min. cbv zeta.
  set (t := trim (orEmpty text)).
  assert (Hge : forall i,
            minOpt (indexOf t translatedByGoogle)
                   (indexOf t uebersetztVonGoogle) = Some i ->
            forall p, p < i -> startsWith m (skipn p t) = false).
  { intros i Hi p Hp.
    assert (Hc : forall m', (indexOf t m' = None
                    \/ exists j, indexOf t m' = Some j /\ i <= j) ->
                  startsWith m' (skipn p t) = false).
    { intros m' [Hn | (j & Hj & Hij)].
      - apply (indexOf_None _ _ Hn).
      - apply (indexOf_Some _ _ _ Hj). lia. }
    destruct Hm as [<- | [<- | []]]; apply Hc;
      destruct (indexOf t translatedByGoogle) as [a |],
               (indexOf t uebersetztVonGoogle) as [b |];
      cbn [minOpt] in Hi; try discriminate Hi; injection Hi as <-;
      first [ left; reflexivity | right; eexists; split; [ reflexivity | lia ] ]. }
  destruct (minOpt (indexOf t translatedByGoogle)
                   (indexOf t uebersetztVonGoogle)) as [i |] eqn:Emin.
  - destruct (trimEnd_prefix (firstn i t)) as [k Hk].
    rewrite Hk, firstn_firstn. apply indexOf_absent. intros p.
    destruct (startsWith m (skipn p (firstn (Nat.min k i) t))) eqn:E;
      [ | reflexivity ].
    apply (occurs_firstn _ _ _ _ (marker_nonempty _ Hm)) in E.
    destruct E as [E Hle].
    assert (Hlen : 0 < List.length m).
    { pose proof (marker_nonempty _ Hm). destruct m; [ congruence | cbn; lia ]. }
    rewrite (Hge i eq_refl p) in E by lia. discriminate E.
  - destruct Hm as [<- | [<- | []]];
      destruct (indexOf t translatedByGoogle) as [a |],
               (indexOf t uebersetztVonGoogle) as [b |];
      cbn [minOpt] in Emin; try discriminate Emin; reflexivity.
Qed.

(** A cleaned comment has no white space at either end. *)
Lemma cleanComment_trimmed text : trim (cleanComment text) = cleanComment text.
Proof.
  rewrite cleanComment_min. cbv zeta.
  destruct (minOpt _ _) as [i |].
  - apply headed_trim_trimEnd, headed_firstn, trim_headed.
  - apply trim_idem.
Qed.

(** X8: what [cleanComment] returns has white space at neither end and
    holds no marker, and cleaning it again changes nothing. *)
Theorem cleanComment_clean (text : option jsstring) :
  trim (cleanComment text) = cleanComment text /\
  (forall m, In m markers -> indexOf (cleanComment text) m = None) /\
  (forall m j, In m markers ->
               startsWith m (skipn j (cleanComment text)) = false) /\
  cleanComment (Some (cleanComment text)) = cleanComment text.
Proof.
  split; [ apply cleanComment_trimmed | ].
  split; [ intros m Hm; apply cleanComment_no_marker, Hm | ].
  split.
  - intros m j Hm. apply (indexOf_None _ _ (cleanComment_no_marker text m Hm)).
  - unfold cleanComment at 1. cbn [orEmpty].
    rewrite cleanComment_trimmed. unfold markers. cbn [fold_left].
    rewrite (cutAt_absent _ translatedByGoogle)
      by (apply cleanComment_no_marker; left; reflexivity).
    apply cutAt_absent, cleanComment_no_marker. right. left. reflexivity.
Qed.

(** *** [split("/").pop()] *)

Lemma lastSegmentFrom_no_slash s : forall acc,
  ~ In 47%N s -> lastSegmentFrom acc s = acc ++ s.
Proof.
  induction s as [| c s IH]; intros acc H; cbn [lastSegmentFrom].
  - now rewrite app_nil_r.
  - destruct (c =? 47)%N eqn:E.
    + apply N.eqb_eq in E. exfalso. apply H. left. exact E.
    + rewrite IH by (intros Hin; apply H; right; exact Hin).
      rewrite <- app_assoc. reflexivity.
Qed.

Lemma lastSegmentFrom_app a : forall acc b,
  lastSegmentFrom acc (a ++ 47%N :: b) = lastSegmentFrom [] b.
Proof.
  induction a as [| c a IH]; intros acc b; cbn [app lastSegmentFrom].
  - reflexivity.
  - destruct (c =? 47)%N; apply IH.
Qed.

Lemma lastSegmentFrom_suffix s : forall acc,
  ~ In 47%N acc ->
  ~ In 47%N (lastSegmentFrom acc s) /\
  exists a, acc ++ s = a ++ lastSegmentFrom acc s.
Proof.
  induction s as [| c s IH]; intros acc H; cbn [lastSegmentFrom].
  - split; [ exact H | ]. exists []. now rewrite app_nil_r.
  - destruct (c =? 47)%N eqn:E.
    + destruct (IH [] (fun x => x)) as [Hn (a & Ha)]. split; [ exact Hn | ].
      cbn [app] in Ha. exists (acc ++ c :: a).
      rewrite <- app_assoc. cbn [app]. f_equal. f_equal. exact Ha.
    + apply N.eqb_neq in E.
      destruct (IH (acc ++ [c])) as [Hn (a & Ha)].
      * intros Hin. apply in_app_iff in Hin.
        destruct Hin as [Hin | [Hin | []]]; [ exact (H Hin) | congruence ].
      * split; [ exact Hn | ]. exists a. rewrite <- Ha, <- app_assoc. reflexivity.
Qed.

Lemma lastSegment_no_slash s : ~ In 47%N (lastSegment s).
Proof. apply (lastSegmentFrom_suffix s [] (fun x => x)). Qed.

Lemma lastSegment_suffix s : exists a, s = a ++ lastSegment s.
Proof. apply (lastSegmentFrom_suffix s [] (fun x => x)). Qed.

(** [s.split("/").pop()] is what follows the last slash of [s]: it
    holds no slash, it ends [s], what precedes it in [s] is empty or
    ends with a slash, and it is [s] itself when [s] holds no slash. *)
Lemma lastSegment_spec (s : jsstring) :
  ~ In 47%N (lastSegment s) /\
  (exists a, s = a ++ lastSegment s
             /\ (a = [] \/ exists a', a = a' ++ [47%N])) /\
  (forall a b, ~ In 47%N b -> lastSegment (a ++ 47%N :: b) = b) /\
  (~ In 47%N s -> lastSegment s = s).
Proof.
  unfold lastSegment.
  assert (H3 : forall a b, ~ In 47%N b -> lastSegmentFrom [] (a ++ 47%N :: b) = b).
  { intros a b Hb. rewrite lastSegmentFrom_app.
    apply (lastSegmentFrom_no_slash b [] Hb). }
  assert (H4 : ~ In 47%N s -> lastSegmentFrom [] s = s).
  { intros Hs. apply (lastSegmentFrom_no_slash s [] Hs). }
  destruct (lastSegmentFrom_suffix s [] (fun x => x)) as [Hn (a & Ha)].
  cbn [app] in Ha.
  split; [ exact Hn | ]. split; [ | split; [ exact H3 | exact H4 ] ].
  exists a. split; [ exact Ha | ].
  destruct (in_dec N.eq_dec 47%N s) as [Hin | Hnot].
  - right. apply in_split in Hin. destruct Hin as (l1 & l2 & E).
    (* take the last slash *)
    clear H4. revert a Ha.
    assert (G : forall l, exists x y, l = x ++ y /\ ~ In 47%N y
                /\ (x = [] \/ exists x', x = x' ++ [47%N])).
    { induction l as [| c l IHl].
      - exists [], []. repeat split; auto.
      - destruct IHl as (x & y & -> & Hy & Hx).
        destruct Hx as [-> | (x' & ->)].
        + destruct (N.eq_dec c 47%N) as [-> | Hc].
          * exists [47%N], y. cbn. repeat split; auto.
            right. exists []. reflexivity.
          * exists [], (c :: y). cbn. repeat split; auto.
            intros [Hh | Hh]; [ congruence | exact (Hy Hh) ].
        + exists (c :: x' ++ [47%N]), y. cbn. repeat split; auto.
          right. exists (c :: x'). reflexivity. }
    destruct (G s) as (x & y & Es & Hy & Hx).
    destruct Hx as [-> | (x' & ->)].
    + exfalso. cbn in Es. subst y. rewrite E in Hy. apply Hy.
      apply in_app_iff. right. left. reflexivity.
    + intros a Ha. rewrite Es in Ha.
      assert (Hy' : lastSegmentFrom [] ((x' ++ [47%N]) ++ y) = y).
      { rewrite <- app_assoc. apply (H3 x' y Hy). }
      rewrite Hy' in Ha. apply app_inv_tail in Ha.
      exists x'. symmetry. exact Ha.
  - left. rewrite (H4 Hnot) in Ha.
    assert (List.length s = List.length a + List.length s)
      by (rewrite Ha at 1; apply length_app).
    destruct a; [ reflexivity | cbn in *; lia ].
Qed.

End TextFacts.

(** ** The pool: how many workers run, and what is collected *)

Module PoolExtra.

Import Worker Pool PoolFacts PoolInvariant.

Section Bound.

Variable limit : Limit.
Variable total : nat.

Local Abbreviation bounded := (bounded limit total).

Lemma step_bounded st st' :
  step limit total st st' -> bounded st -> bounded st'.
Proof.
  intros Hstep [Hn Hb].
  destruct Hstep as [w ps rs tr | ps rs1 a w rs2 wt tr Hs
                    | ps rs1 rs2 wt tr Hs];
    unfold PoolInvariant.bounded in *; cbn [pending running waiting] in *;
    rewrite ?length_app in *; cbn [List.length] in *.
  - split; [ lia | ]. intros Hl m Hm Hle.
    destruct (Hb Hl m Hm Hle) as [_ Hlt]. specialize (Hlt eq_refl).
    split; [ lia | ].
    unfold waitsAfterLaunch. rewrite Hl. cbn [andb]. intros Hw.
    destruct (Z.eq_dec (Z.of_nat (List.length rs + 1)) m) as [E | E];
      [ | lia ].
    replace (S (List.length rs)) with (List.length rs + 1)%nat in Hw by lia.
    rewrite E in Hw. congruence.
  - split; [ lia | exact Hb ].
  - split; [ lia | ]. intros Hl m Hm Hle.
    destruct (Hb Hl m Hm Hle) as [Hle' _]. lia.
Qed.

Lemma steps_bounded st st' :
  steps limit total st st' -> bounded st -> bounded st'.
Proof.
  induction 1 as [| a b c Hstep _ IH]; intros H; [ exact H | ].
  apply IH, (step_bounded _ _ Hstep H).
Qed.

(** When the loop does not track [executing], every worker left is
    started without waiting. *)
Lemma launch_unlimited :
  leInt limit (Z.of_nat total) = false ->
  forall ps rs tr,
    steps limit total
      {| pending := ps; running := rs; waiting := false; trace := tr |}
      {| pending := []; running := rs ++ ps; waiting := false; trace := tr |}.
Proof.
  intros Hl. induction ps as [| w ps IH]; intros rs tr.
  - rewrite app_nil_r. apply steps_refl.
  - eapply steps_cons; [ apply step_launch | ].
    unfold waitsAfterLaunch. rewrite Hl. cbn [andb].
    replace (rs ++ w :: ps) with ((rs ++ [w]) ++ ps)
      by (rewrite <- app_assoc; reflexivity).
    apply IH.
Qed.

End Bound.

(** X9: in every state [asyncPool(limit, items, worker)] reaches, no
    worker is started twice, and the workers running are at most any
    integer from 1 on that the limit does not exceed: at most
    [max limit 1] for an integer limit, at most 2 for a limit of 1.5.
    A limit that is [NaN], or that exceeds the number of items, is no
    limit: the loop starts all the workers at once. *)
Theorem pool_concurrency_bound (limit : Limit) (ws : list (list Action))
    (st : State) :
  steps limit (List.length ws) (initial ws) st ->
  (List.length (running st) + List.length (pending st)
   <= List.length ws)%nat /\
  (forall m : Z,
      1 <= m -> leInt limit m = true ->
      Z.of_nat (List.length (running st)) <= m) /\
  (forall z : Z,
      limit = ofZ z -> Z.of_nat (List.length (running st)) <= Z.max z 1) /\
  (leInt limit (Z.of_nat (List.length ws)) = false ->
   steps limit (List.length ws) (initial ws)
     {| pending := []; running := ws; waiting := false; trace := [] |}).
Proof.
  intros H.
  assert (Hb : bounded limit (List.length ws) st).
  { apply (steps_bounded _ _ _ _ H). unfold PoolInvariant.bounded, initial.
    cbn [pending running waiting List.length]. split; [ lia | ].
    intros _ m Hm _. lia. }
  destruct Hb as [Hn Hb].
  assert (Hbound : forall m : Z,
            1 <= m -> leInt limit m = true ->
            Z.of_nat (List.length (running st)) <= m).
  { intros m Hm Hle.
    destruct (leInt limit (Z.of_nat (List.length ws))) eqn:Hl.
    - apply (Hb eq_refl m Hm Hle).
    - destruct (Z_le_gt_dec m (Z.of_nat (List.length ws))) as [Hmt | Hmt];
        [ | lia ].
      rewrite (leInt_mono _ _ _ Hle Hmt) in Hl. discriminate Hl. }
  split; [ exact Hn | ]. split; [ exact Hbound | ]. split.
  - intros z ->. apply Hbound; [ lia | ].
    rewrite leInt_ofZ. apply Z.leb_le. lia.
  - intros Hl. apply (launch_unlimited _ _ Hl ws [] []).
Qed.

(** Three workers and a limit of 1.5: the loop starts two of them
    before it waits. *)
Lemma pool_concurrency_bound_witness :
  exists st,
    exec (Finite (QArith_base.Qmake 3 2)) 3 [] (initial Samples.workers)
    = Some st /\
    List.length (running st) = 2%nat /\
    Z.of_nat (List.length (running st)) <= 2.
Proof.
  eexists. split; [ vm_compute; reflexivity | ].
  split; [ reflexivity | ].
  apply (proj1 (proj2 (pool_concurrency_bound
                         (Finite (QArith_base.Qmake 3 2)) Samples.workers _
                         (exec_steps _ 3 [] _ _ eq_refl))) 2);
    [ lia | vm_compute; reflexivity ].
Defined.

Lemma Merge_Permutation {A} (ls : list (list A)) l :
  Merge ls l -> Permutation l (List.concat ls).
Proof.
  induction 1 as [| ls1 ls2 l H IH | ls1 x xs ls2 l H IH].
  - constructor.
  - rewrite concat_app in *. cbn [List.concat app]. exact IH.
  - rewrite concat_app in *. cbn [List.concat] in *.
    cbn [app]. apply Permutation_cons_app. exact IH.
Qed.

(** X10: whatever the limit and the order in which the workers advance, the
    records [main] holds after the pool are those its workers pushed,
    each one once: a rearrangement of the records of the workers in
    listing order, of which each worker's records keep their order. *)
Theorem pool_keeps_every_record (limit : Limit) (ws : list (list Action))
    (tr : list Action) :
  run limit ws tr ->
  Permutation (pushed tr) (List.concat (map pushed ws)) /\
  List.length (pushed tr)
  = list_sum (map (fun w => List.length (pushed w)) ws) /\
  Permutation (logged tr) (List.concat (map logged ws)).
Proof.
  intros H. apply run_Merge in H.
  pose proof (Merge_Permutation _ _ (Merge_pushed _ _ H)) as Hp.
  split; [ exact Hp | ]. split.
  - rewrite (Permutation_length Hp). clear.
    induction ws as [| w ws IH]; cbn [map List.concat list_sum];
      [ reflexivity | ].
    rewrite length_app, IH. reflexivity.
  - apply Merge_Permutation, Merge_logged, H.
Qed.

Lemma pool_keeps_every_record_witness :
  Permutation (pushed Samples.traceCFirst)
    (List.concat (map pushed Samples.workers)) /\
  List.length (pushed Samples.traceCFirst)
  = list_sum (map (fun w => List.length (pushed w)) Samples.workers) /\
  Permutation (logged Samples.traceCFirst)
    (List.concat (map logged Samples.workers)).
Proof.
  apply (pool_keeps_every_record (ofZ 5) Samples.workers
           Samples.traceCFirst).
  apply runUnder_run with (schedule := Samples.scheduleCFirst).
  vm_compute. reflexivity.
Defined.

End PoolExtra.

(** ** The payloads *)

Module DeliveryFacts.

Import Make ChunkFacts.

Lemma payloadsFrom_length metaBase total chunks : forall i,
  List.length (payloadsFrom metaBase total i chunks) = List.length chunks.
Proof.
  induction chunks as [| c cs IH]; intros i; cbn; [ | rewrite IH ]; reflexivity.
Qed.

Lemma payloadsFrom_index metaBase total chunks : forall i,
  map batch_index (payloadsFrom metaBase total i chunks)
  = map (fun k => i + Z.of_nat k) (seq 1 (List.length chunks)).
Proof.
  induction chunks as [| c cs IH]; intros i; cbn [payloadsFrom map List.length seq];
    [ reflexivity | ].
  cbn [batch_index]. f_equal; try lia.
  rewrite IH, <- (seq_shift (List.length cs) 1), map_map. apply map_ext. intros k. lia.
Qed.

Lemma payloadsFrom_Forall metaBase total chunks : forall i,
  Forall (fun p => meta p = metaBase /\ batch_total p = total
                   /\ count p = Z.of_nat (List.length (data p)))
    (payloadsFrom metaBase total i chunks).
Proof.
  induction chunks as [| c cs IH]; intros i; cbn [payloadsFrom]; constructor.
  - cbn. auto.
  - apply IH.
Qed.

Lemma chunksToSend_nonempty items size : chunksToSend items size <> [].
Proof.
  unfold chunksToSend. destruct (chunkArray items size) as [| c cs];
    cbn; discriminate.
Qed.

Lemma payloads_nonempty metaBase (items : list Item) size :
  payloads metaBase items size <> [].
Proof.
  intros E. apply (f_equal (@List.length _)) in E.
  unfold payloads in E. rewrite payloadsFrom_length in E.
  pose proof (chunksToSend_nonempty items size) as Hne.
  destruct (chunksToSend items size); [ congruence | discriminate E ].
Qed.

Lemma payloads_Forall metaBase (items : list Item) size :
  Forall (fun p => meta p = metaBase
                   /\ batch_total p
                      = Z.of_nat (List.length (payloads metaBase items size))
                   /\ count p = Z.of_nat (List.length (data p)))
    (payloads metaBase items size).
Proof.
  pose proof (payloadsFrom_length metaBase
                (Z.of_nat (List.length (chunksToSend items size)))
                (chunksToSend items size) 0) as Hlen.
  fold (payloads metaBase items size) in Hlen. rewrite Hlen.
  apply payloadsFrom_Forall.
Qed.

Lemma sum_counts ps :
  Forall (fun p => count p = Z.of_nat (List.length (data p))) ps ->
  fold_right Z.add 0 (map count ps)
  = Z.of_nat (List.length (List.concat (map data ps))).
Proof.
  induction 1 as [| p ps Hp _ IH]; cbn [map fold_right List.concat];
    [ reflexivity | ].
  rewrite length_app, IH, Hp. lia.
Qed.

(** X11: whatever the batch size, [NaN] included, [main] builds at least
    one payload; the payloads are numbered 1, 2, ... in [batch_index]
    and all carry their number in [batch_total] and the same meta data;
    [count] is the number of records of the payload.  Unless the batch
    size is [NaN], the data of the payloads, in order, are the records
    collected, so that the counts add up to their number; a batch size
    of 0 or less, or an infinite one, gives a single payload with all
    the records.  With a batch size that is [NaN] there is a single
    payload without any record, whatever the records collected. *)
Theorem payloads_invariants (metaBase : MetaBase) (items : list Item)
    (size : Integral) :
  let ps := payloads metaBase items size in
  let single data :=
    [ {| meta := metaBase; batch_index := 1; batch_total := 1;
         count := Z.of_nat (List.length data); data := data |} ] in
  ps <> [] /\
  map batch_index ps = map Z.of_nat (seq 1 (List.length ps)) /\
  Forall (fun p => meta p = metaBase
                   /\ batch_total p = Z.of_nat (List.length ps)
                   /\ count p = Z.of_nat (List.length (data p))) ps /\
  (size <> NaN ->
   List.concat (map data ps) = items /\
   fold_right Z.add 0 (map count ps) = Z.of_nat (List.length items)) /\
  (forall z, size = Finite z -> z <= 0 -> ps = single items) /\
  (size = NegInf \/ size = PosInf -> ps = single items) /\
  (size = NaN -> ps = single []).
Proof.
  cbv zeta.
  assert (Hlen : List.length (payloads metaBase items size)
                 = List.length (chunksToSend items size))
    by apply payloadsFrom_length.
  pose proof (payloads_Forall metaBase items size) as Hall.
  split; [ apply payloads_nonempty | ].
  split; [ | split; [ exact Hall | split; [ | split; [ | split ] ] ] ].
  - unfold payloads at 1. cbv zeta. rewrite payloadsFrom_index, Hlen.
    apply map_ext. intros k. lia.
  - intros Hsize. split; [ apply payloads_concat, Hsize | ].
    rewrite sum_counts.
    + rewrite payloads_concat by exact Hsize. reflexivity.
    + eapply Forall_impl; [ | exact Hall ]. cbv beta. tauto.
  - intros z -> Hz. unfold payloads, chunksToSend.
    rewrite chunkArray_nonpositive; [ reflexivity | ].
    cbn [numLeb]. apply Z.leb_le. exact Hz.
  - intros [-> | ->]; unfold payloads, chunksToSend.
    + rewrite chunkArray_nonpositive; reflexivity.
    + rewrite chunkArray_PosInf. destruct items; reflexivity.
  - intros ->. unfold payloads. rewrite chunksToSend_NaN. reflexivity.
Qed.

End DeliveryFacts.

(** ** The delivery *)

Module SendFacts.

Import Make.

Lemma sendAll_spec env post ps : forall sent r,
  sendAll env post ps = (sent, r) ->
  (r = Ok tt /\ sent = ps
   /\ forall p, In p ps -> postToMake env (post p) = Ok tt)
  \/ exists e pre p rest,
       r = Throw e /\ ps = pre ++ p :: rest /\ sent = pre ++ [p] /\
       postToMake env (post p) = Throw e /\
       forall q, In q pre -> postToMake env (post q) = Ok tt.
Proof.
  induction ps as [| p ps IH]; intros sent r; cbn [sendAll].
  - intros [= <- <-]. left. repeat split. intros p [].
  - destruct (postToMake env (post p)) as [[] | e] eqn:Hp.
    + destruct (sendAll env post ps) as [sent' r'] eqn:Hs.
      intros [= <- <-].
      destruct (IH _ _ eq_refl)
        as [(-> & -> & Hall) | (e & pre & q & rest & -> & -> & -> & Hq & Hpre)].
      * left. repeat split. intros q [<- | Hq]; [ exact Hp | apply Hall, Hq ].
      * right. exists e, (p :: pre), q, rest. repeat split; try assumption.
        intros q' [<- | Hq']; [ exact Hp | apply Hpre, Hq' ].
    + intros [= <- <-]. right. exists e, [], p, ps. repeat split; try assumption.
      intros q [].
Qed.

Lemma postToMake_Ok env fetch :
  postToMake env fetch = Ok tt <->
  Env.MAKE_REVIEWS_WEBHOOK_URL env <> [] /\
  exists res, outcome (requestWithRetry fetch) = Ok res /\ ok res = true.
Proof.
  unfold postToMake, Env.mustEnv.
  destruct (Env.MAKE_REVIEWS_WEBHOOK_URL env) as [| c u]; cbn [truthy negb].
  - split; [ discriminate | intros [H _]; congruence ].
  - destruct (outcome (requestWithRetry fetch)) as [res | e].
    + destruct (ok res) eqn:Hok; cbn [negb].
      * split; [ intros _ | reflexivity ].
        split; [ discriminate | exists res; auto ].
      * split; [ discriminate | ].
        intros (_ & res' & [= <-] & H). congruence.
    + split; [ discriminate | intros (_ & res' & [=] & _) ].
Qed.

(** X12: the payloads are posted one after the other, in order, and the
    first post that fails ends the run with its error: the payloads
    posted are then those up to the one that failed, and the later ones
    are never posted.  The run ends well exactly when every post
    succeeds, and then every payload has been posted.  A post succeeds
    exactly when the webhook is configured and the request, after its
    retries, is answered with a 2xx status. *)
Theorem delivery_stops_at_first_failure (env : Env.t)
    (post : Payload -> Fetch unit) (ps : list Payload) :
  let sent := fst (sendAll env post ps) in
  let r := snd (sendAll env post ps) in
  (r = Ok tt <-> forall p, In p ps -> postToMake env (post p) = Ok tt) /\
  (r = Ok tt -> sent = ps) /\
  (forall e, r = Throw e ->
     exists pre p rest,
       ps = pre ++ p :: rest /\ sent = pre ++ [p] /\
       postToMake env (post p) = Throw e /\
       forall q, In q pre -> postToMake env (post q) = Ok tt) /\
  (forall fetch,
     postToMake env fetch = Ok tt <->
     Env.MAKE_REVIEWS_WEBHOOK_URL env <> [] /\
     exists res, outcome (requestWithRetry fetch) = Ok res /\ ok res = true).
Proof.
  cbv zeta. destruct (sendAll env post ps) as [sent r] eqn:Hs. cbn [fst snd].
  split; [ | split; [ | split; [ | apply postToMake_Ok ] ] ];
    destruct (sendAll_spec _ _ _ _ _ Hs)
      as [(-> & -> & Hall) | (e & pre & p & rest & -> & -> & -> & Hp & Hpre)].
  - split; auto.
  - split; [ discriminate | ]. intros H.
    rewrite (H p) in Hp by (apply in_app_iff; right; left; reflexivity).
    discriminate Hp.
  - reflexivity.
  - discriminate.
  - discriminate.
  - intros e' [= <-]. exists pre, p, rest. auto.
Qed.

End SendFacts.

(** ** The fields of the records *)

Module RecordFacts.

Import Worker Record TextFacts RunFacts.

Lemma stripTrailingSlash_slash base :
  stripTrailingSlash (base ++ js "/") = base.
Proof.
  unfold stripTrailingSlash. rewrite rev_app_distr. cbn. apply rev_involutive.
Qed.

Lemma stripTrailingSlash_other s :
  (forall b, s <> b ++ js "/") -> stripTrailingSlash s = s.
Proof.
  intros H. unfold stripTrailingSlash.
  destruct (rev s) as [| c r] eqn:E; [ reflexivity | ].
  destruct (c =? 47)%N eqn:Ec; [ | reflexivity ].
  apply N.eqb_eq in Ec. subst c. exfalso. apply (H (rev r)).
  rewrite <- (rev_involutive s), E. reflexivity.
Qed.

Lemma orNull_inv s c : orNull s = Some c -> c = s /\ c <> [].
Proof.
  destruct s; cbn; [ discriminate | ]. intros [= <-]. split; [ reflexivity | discriminate ].
Qed.

Lemma or_orNull s d :
  or s d = match orNull s with Some c => c | None => d end.
Proof. destruct s; reflexivity. Qed.

Section Records.

Variable env : Env.t.
Variable fromISO : jsstring -> option Z.
Variable toFormat : Z -> jsstring.
Variable toUpperCase : jsstring -> jsstring.
Variable encodeURIComponent : jsstring -> jsstring.
Variable metadataUrl : jsstring -> jsstring.
Variable reviewsUrl : jsstring -> jsstring -> jsstring.
Variables startMs endMs : Z.

Local Abbreviation reviewItem :=
  (reviewItem env fromISO toFormat toUpperCase).
Local Abbreviation reviewItems :=
  (reviewItems env fromISO toFormat toUpperCase).
Local Abbreviation prefillPayload :=
  (prefillPayload env fromISO toFormat toUpperCase).
Local Abbreviation locInfo :=
  (locInfo encodeURIComponent metadataUrl).
Local Abbreviation harvest :=
  (harvest fromISO reviewsUrl startMs endMs).
Local Abbreviation worker :=
  (worker env fromISO toFormat toUpperCase encodeURIComponent
     metadataUrl reviewsUrl startMs endMs).

(** X13: every record carries either a reply link or a prefill error, never
    both and never neither: when the prefill call returns a [rid], the
    record has that [rid], which is not empty, the link made of
    [PUBLIC_APP_URL] without its trailing slash, ["/?rid="] and the
    [rid], and no error; when the call throws, the record has no [rid],
    no link and an error text that is not empty. *)
Theorem record_reply_or_error (info : LocInfo)
    (fetch : Prefill.Payload -> Fetch Prefill.PrefillJson) (r : RawReview) :
  let it := reviewItem info fetch r in
  let call := Prefill.createPrefillRid env (fetch (prefillPayload info r)) in
  (forall rid, call = Ok rid ->
     rid <> [] /\ Make.prefill_rid it = Some rid /\
     Make.smart_reply_url it
     = Some (stripTrailingSlash (Env.PUBLIC_APP_URL env)
             ++ js "/?rid=" ++ rid) /\
     Make.prefill_error it = None) /\
  (forall e, call = Throw e ->
     Make.prefill_rid it = None /\ Make.smart_reply_url it = None /\
     exists msg, msg <> [] /\ Make.prefill_error it = Some msg) /\
  (Make.prefill_rid it = None <-> Make.prefill_error it <> None) /\
  (Make.prefill_rid it = None <-> Make.smart_reply_url it = None) /\
  (forall base rid,
     Env.PUBLIC_APP_URL env = base ++ js "/" -> call = Ok rid ->
     Make.smart_reply_url it = Some (base ++ js "/?rid=" ++ rid)).
Proof.
  cbv zeta.
  assert (Hok : forall rid,
            Prefill.createPrefillRid env (fetch (prefillPayload info r)) = Ok rid ->
            rid <> [] /\ Make.prefill_rid (reviewItem info fetch r) = Some rid /\
            Make.smart_reply_url (reviewItem info fetch r)
            = Some (stripTrailingSlash (Env.PUBLIC_APP_URL env)
                    ++ js "/?rid=" ++ rid) /\
            Make.prefill_error (reviewItem info fetch r) = None).
  { intros rid H.
    destruct (createPrefillRid_Ok _ _ _ H) as (_ & _ & _ & _ & _ & _ & Hne).
    destruct (reviewItem_ok env fromISO toFormat toUpperCase _ _ _ _ H)
      as [H1 H2].
    split; [ exact Hne | ]. split; [ exact H1 | ]. split; [ | exact H2 ].
    unfold Worker.reviewItem. rewrite H. cbn [Make.smart_reply_url].
    apply orNull_Some. destruct (stripTrailingSlash _); discriminate. }
  assert (Hthrow : forall e,
            Prefill.createPrefillRid env (fetch (prefillPayload info r)) = Throw e ->
            Make.prefill_rid (reviewItem info fetch r) = None /\
            Make.smart_reply_url (reviewItem info fetch r) = None /\
            exists msg, msg <> [] /\
              Make.prefill_error (reviewItem info fetch r) = Some msg).
  { intros e H.
    destruct (reviewItem_thrown env fromISO toFormat toUpperCase _ _ _ _ H)
      as (H1 & H2 & H3).
    split; [ exact H1 | ]. split; [ exact H2 | ].
    eexists. split; [ | exact H3 ]. apply error_text_populated. }
  split; [ exact Hok | ]. split; [ exact Hthrow | ].
  destruct (Prefill.createPrefillRid env (fetch (prefillPayload info r)))
    as [rid | e] eqn:Hc.
  - destruct (Hok rid eq_refl) as (Hne & H1 & H2 & H3).
    rewrite H1, H2, H3.
    split; [ split; [ discriminate | congruence ] | ].
    split; [ split; discriminate | ].
    intros base rid' Hb [= <-]. rewrite Hb, stripTrailingSlash_slash.
    reflexivity.
  - destruct (Hthrow e eq_refl) as (H1 & H2 & msg & Hne & H3).
    rewrite H1, H2, H3.
    split; [ split; [ discriminate | reflexivity ] | ].
    split; [ split; reflexivity | ].
    intros base rid' _ [=].
Qed.

Lemma reviewerOf_trimmed r : trim (reviewerOf r) = reviewerOf r.
Proof. unfold reviewerOf. destruct (reviewer r); apply trim_idem. Qed.

(** X14: the text fields of a record, whatever the prefill outcome: the
    comment, when there is one, is the cleaned comment of the review,
    not empty, without white space at its ends and without a marker;
    the reviewer, when there is one, is not empty and trimmed; the
    review id, when there is one, is what follows the last slash of the
    trimmed name of the review; and [comment_full]
    is the comment or ["(kein Kommentar)"], a line feed, a dash, the
    reviewer or ["Unbekannt"], and the date when it is not empty. *)
Theorem record_text_fields (info : LocInfo)
    (fetch : Prefill.Payload -> Fetch Prefill.PrefillJson) (r : RawReview) :
  let it := reviewItem info fetch r in
  Make.comment it = orNull (cleanComment (comment r)) /\
  (forall c, Make.comment it = Some c ->
     c <> [] /\ trim c = c /\
     forall m, In m markers -> indexOf c m = None) /\
  (forall n, Make.reviewer it = Some n -> n <> [] /\ trim n = n) /\
  (forall id, Make.reviewId it = Some id ->
     id <> [] /\ ~ In 47%N id /\
     exists a, trim (orEmpty (name r)) = a ++ id
               /\ (a = [] \/ exists a', a = a' ++ js "/")) /\
  Make.comment_full it
  = match Make.comment it with Some c => c | None => js "(kein Kommentar)" end
    ++ [10%N] ++ emDash ++ js " "
    ++ match Make.reviewer it with Some n => n | None => js "Unbekannt" end
    ++ (if truthy (Make.reviewed_at it)
        then js ", am " ++ Make.reviewed_at it else []).
Proof.
  cbv zeta.
  assert (Ec : cleanComment (Some (orEmpty (comment r)))
               = cleanComment (comment r))
    by (destruct (comment r); reflexivity).
  assert (F : forall it,
            it = reviewItem info fetch r ->
            Make.comment it = orNull (cleanComment (comment r)) /\
            Make.reviewer it = orNull (reviewerOf r) /\
            Make.reviewId it = orNull (reviewIdOf r) /\
            Make.reviewed_at it = formatCreateTime fromISO toFormat (createTime r) /\
            Make.comment_full it
            = buildCommentFull (cleanComment (comment r)) (reviewerOf r)
                (formatCreateTime fromISO toFormat (createTime r))).
  { intros it ->. unfold Worker.reviewItem. rewrite Ec.
    destruct (Prefill.createPrefillRid _ _); cbn; repeat split. }
  destruct (F _ eq_refl) as (Hc & Hr & Hi & Ha & Hf).
  split; [ exact Hc | ]. split; [ | split; [ | split ] ].
  - intros c H. rewrite Hc in H. apply orNull_inv in H. destruct H as [-> Hne].
    split; [ exact Hne | ].
    split; [ apply cleanComment_trimmed | apply cleanComment_no_marker ].
  - intros n H. rewrite Hr in H. apply orNull_inv in H. destruct H as [-> Hne].
    split; [ exact Hne | apply reviewerOf_trimmed ].
  - intros id H. rewrite Hi in H. apply orNull_inv in H. destruct H as [-> Hne].
    unfold reviewIdOf.
    split; [ exact Hne | ].
    split; [ apply lastSegment_no_slash | apply lastSegment_spec ].
  - rewrite Hf, Hc, Hr, Ha. unfold buildCommentFull.
    rewrite cleanComment_trimmed, reviewerOf_trimmed, !or_orNull.
    destruct (truthy (formatCreateTime fromISO toFormat (createTime r)));
      rewrite <- ?app_assoc; [ reflexivity | ].
    rewrite app_nil_r. reflexivity.
Qed.

(** What [locInfo] returns. *)
Lemma locInfo_Some net loc info :
  locInfo net loc = Some info ->
  let listed f := metaField (Location.metadata loc) f in
  locationId info = lastSegment (trim (orEmpty (Location.name loc))) /\
  locationId info <> [] /\
  storeCode info = trim (orEmpty (Location.storeCode loc)) /\
  locationTitle info = trim (orEmpty (Location.title loc)) /\
  maps_place_url info
  = (if truthy (place_id info)
     then Some (js "https://www.google.com/maps/place/?q=place_id:"
                ++ encodeURIComponent (place_id info))
     else None) /\
  (maps_uri info, new_review_uri info, place_id info)
  = if negb (truthy (listed Location.mapsUri))
       && negb (truthy (listed Location.newReviewUri))
       && negb (truthy (listed Location.placeId))
    then match getLocationMetadata metadataUrl (locationId info)
                 (metaFetch net) with
         | Ok m => (orEmpty (Location.mapsUri m),
                    orEmpty (Location.newReviewUri m),
                    orEmpty (Location.placeId m))
         | Throw _ => ([], [], [])
         end
    else (listed Location.mapsUri, listed Location.newReviewUri,
          listed Location.placeId).
Proof.
  cbv zeta. unfold Worker.locInfo.
  destruct (lastSegment (trim (orEmpty (Location.name loc)))) as [| c l] eqn:El;
    cbn [truthy negb]; [ discriminate | ].
  set (a := metaField (Location.metadata loc) Location.mapsUri).
  set (b := metaField (Location.metadata loc) Location.newReviewUri).
  set (d := metaField (Location.metadata loc) Location.placeId).
  destruct (negb (truthy a) && negb (truthy b) && negb (truthy d)) eqn:E.
  - assert (a = [] /\ b = [] /\ d = []) as (Ea & Eb & Ed).
    { destruct a, b, d; try discriminate E. auto. }
    destruct (getLocationMetadata metadataUrl (c :: l) (metaFetch net))
      as [m | e] eqn:Eg;
      cbv beta iota zeta; intros [= <-];
      cbn [locationId storeCode locationTitle maps_uri new_review_uri
           place_id maps_place_url];
      rewrite Eg, ?Ea, ?Eb, ?Ed; repeat split; discriminate.
  - cbv beta iota zeta. intros [= <-].
    cbn [locationId storeCode locationTitle maps_uri new_review_uri
         place_id maps_place_url].
    repeat split. discriminate.
Qed.

(** X15: the location fields of the records: a worker pushes records only
    for a location whose id, the last segment of its trimmed name, is
    not empty; the id holds no slash; [storeCode] and [locationTitle]
    are the trimmed fields of the location, or [null] when empty;
    [maps_place_url] is built from [place_id] exactly when there is
    one.  The links come from the listing when it carries one of them;
    only otherwise from the metadata request, and when that request
    fails the records are pushed all the same, without links. *)
Theorem record_location_fields (fuel : nat) (net : Net) (loc : Location.t)
    (w : list Action) (it : Make.Item) :
  worker fuel net loc = Some w -> In it (pushed w) ->
  let listed f := metaField (Location.metadata loc) f in
  Make.locationId it = lastSegment (trim (orEmpty (Location.name loc))) /\
  Make.locationId it <> [] /\ ~ In 47%N (Make.locationId it) /\
  Make.storeCode it = orNull (trim (orEmpty (Location.storeCode loc))) /\
  Make.locationTitle it = orNull (trim (orEmpty (Location.title loc))) /\
  Make.maps_place_url it
  = match Make.place_id it with
    | Some p => Some (js "https://www.google.com/maps/place/?q=place_id:"
                      ++ encodeURIComponent p)
    | None => None
    end /\
  (listed Location.mapsUri <> [] \/ listed Location.newReviewUri <> []
   \/ listed Location.placeId <> [] ->
   Make.maps_uri it = orNull (listed Location.mapsUri) /\
   Make.new_review_uri it = orNull (listed Location.newReviewUri) /\
   Make.place_id it = orNull (listed Location.placeId)) /\
  (listed Location.mapsUri = [] -> listed Location.newReviewUri = [] ->
   listed Location.placeId = [] ->
   match getLocationMetadata metadataUrl (Make.locationId it)
           (metaFetch net) with
   | Ok m =>
       Make.maps_uri it = orNull (orEmpty (Location.mapsUri m)) /\
       Make.new_review_uri it = orNull (orEmpty (Location.newReviewUri m)) /\
       Make.place_id it = orNull (orEmpty (Location.placeId m))
   | Throw _ =>
       Make.maps_uri it = None /\ Make.new_review_uri it = None /\
       Make.place_id it = None /\ Make.maps_place_url it = None
   end).
Proof.
  intros Hw Hit. cbv zeta.
  destruct (worker_pushed_inv env fromISO toFormat toUpperCase
              encodeURIComponent metadataUrl reviewsUrl startMs endMs
              _ _ _ _ Hw) as [E | (info & rs & Hi & _ & E)];
    rewrite E in Hit; [ destruct Hit | ].
  apply reviewItems_In in Hit. destruct Hit as (r & i & _ & ->).
  destruct (locInfo_Some _ _ _ Hi) as (Hid & Hne & Hsc & Hti & Hurl & Hm).
  cbv zeta in Hm.
  assert (F : forall x,
            x = reviewItem info (prefillFetch net i) r ->
            Make.locationId x = locationId info /\
            Make.storeCode x = orNull (storeCode info) /\
            Make.locationTitle x = orNull (locationTitle info) /\
            Make.maps_uri x = orNull (maps_uri info) /\
            Make.new_review_uri x = orNull (new_review_uri info) /\
            Make.place_id x = orNull (place_id info) /\
            Make.maps_place_url x = maps_place_url info).
  { intros x ->. unfold Worker.reviewItem.
    destruct (Prefill.createPrefillRid _ _); cbn; repeat split. }
  destruct (F _ eq_refl) as (F1 & F2 & F3 & F4 & F5 & F6 & F7).
  rewrite F1, F2, F3, F4, F5, F6, F7, <- Hsc, <- Hti, <- Hid.
  split; [ reflexivity | ]. split; [ exact Hne | ].
  split; [ rewrite Hid; apply lastSegment_no_slash | ].
  split; [ reflexivity | ]. split; [ reflexivity | ].
  split; [ rewrite Hurl; destruct (place_id info); reflexivity | ].
  split.
  - intros Hl.
    destruct (metaField (Location.metadata loc) Location.mapsUri) eqn:Ea,
             (metaField (Location.metadata loc) Location.newReviewUri) eqn:Eb,
             (metaField (Location.metadata loc) Location.placeId) eqn:Ed;
      cbn [truthy negb andb] in Hm;
      try (exfalso; destruct Hl as [Hl | [Hl | Hl]]; congruence);
      injection Hm as -> -> ->; repeat split.
  - intros Ea Eb Ed. rewrite Ea, Eb, Ed in Hm. cbn [truthy negb andb] in Hm.
    destruct (getLocationMetadata metadataUrl (locationId info) (metaFetch net))
      as [m | e]; injection Hm as Ha Hb Hd.
    + rewrite Ha, Hb, Hd. repeat split.
    + rewrite Hurl, Ha, Hb, Hd. repeat split.
Qed.

Lemma reviewItems_fields info info' f f' rs : forall k,
  locationId info = locationId info' ->
  storeCode info = storeCode info' ->
  locationTitle info = locationTitle info' ->
  map reviewFields (reviewItems info f k rs)
  = map reviewFields (reviewItems info' f' k rs).
Proof.
  intros k H1 H2 H3. revert k.
  induction rs as [| r rs IH]; intros k; cbn [Worker.reviewItems map];
    [ reflexivity | ].
  rewrite IH. f_equal. unfold Worker.reviewItem, reviewFields.
  destruct (Prefill.createPrefillRid env (f k _)),
           (Prefill.createPrefillRid env (f' k _)); cbn;
    rewrite H1, H2, H3; reflexivity.
Qed.

(** X16: neither the metadata request nor the prefill service changes
    which reviews are reported: two runs of a worker against networks
    that answer the page requests alike push records for the same
    reviews, in the same order and with the same review fields, and
    log the same lines. *)
Theorem reviews_independent_of_metadata (fuel : nat) (net net' : Net)
    (loc : Location.t) (w : list Action) :
  pageFetch net' = pageFetch net ->
  worker fuel net loc = Some w ->
  exists w',
    worker fuel net' loc = Some w' /\
    logged w' = logged w /\
    map reviewFields (pushed w') = map reviewFields (pushed w).
Proof.
  intros Hp Hw.
  destruct (locInfo net loc) as [info |] eqn:Hi.
  - destruct (locInfo_Some _ _ _ Hi) as (Hid & Hne & Hsc & Hti & _).
    destruct (locInfo net' loc) as [info' |] eqn:Hi'.
    + destruct (locInfo_Some _ _ _ Hi') as (Hid' & _ & Hsc' & Hti' & _).
      assert (Hh : harvest fuel net' info' = harvest fuel net info).
      { unfold Worker.harvest. rewrite Hp, Hid, Hid'. reflexivity. }
      assert (Hl : label info' = label info).
      { unfold label. rewrite Hid, Hid', Hsc, Hsc', Hti, Hti'. reflexivity. }
      unfold Worker.worker in *. rewrite Hi in Hw. rewrite Hi', Hh, Hl.
      destruct (harvest fuel net info) as [rs | e | rs]; [ | | discriminate ].
      * destruct (List.length rs =? 0)%nat.
        -- exists []. injection Hw as <-. repeat split.
        -- eexists. split; [ reflexivity | ]. injection Hw as <-.
           cbn [logged pushed]. split.
           ++ f_equal. clear. 
              generalize (Worker.reviewItems env fromISO toFormat toUpperCase
                            info' (prefillFetch net') 0 rs).
              generalize (Worker.reviewItems env fromISO toFormat toUpperCase
                            info (prefillFetch net) 0 rs).
              intros l l'. 
              assert (G : forall l, logged (map Push l) = [])
                by (induction l0 as [| x l0 IH]; [ reflexivity | exact IH ]).
              rewrite !G. reflexivity.
           ++ rewrite !pushed_map_Push. apply reviewItems_fields; congruence.
      * exists w. split; [ exact Hw | split; reflexivity ].
    + exfalso. unfold Worker.locInfo in Hi'.
      rewrite <- Hid in Hi'. destruct (locationId info); [ congruence | ].
      cbn [truthy negb] in Hi'.
      destruct (negb _ && negb _ && negb _) in Hi';
        [ destruct (getLocationMetadata _ _ _) in Hi' | ]; discriminate Hi'.
  - exists []. unfold Worker.worker in *. rewrite Hi in Hw. injection Hw as <-.
    assert (Hi' : locInfo net' loc = None).
    { unfold Worker.locInfo in *.
      destruct (lastSegment (trim (orEmpty (Location.name loc))));
        cbn [truthy negb] in *; [ reflexivity | ].
      destruct (negb _ && negb _ && negb _) in Hi;
        [ destruct (getLocationMetadata _ _ _) in Hi | ]; discriminate Hi. }
    rewrite Hi'. repeat split.
Qed.

End Records.

End RecordFacts.

(** ** The harvest and the pages fetched *)

Module FetchedFacts.

Import ReviewFeed HarvestFacts.

Section Fetched.

Variable fromISO : jsstring -> option Z.
Variable reviewsUrl : jsstring -> jsstring.
Variable pages : nat -> jsstring -> Fetch ReviewsPage.
Variables startMs endMs : Z.

Local Abbreviation inWindow := (inWindow fromISO startMs endMs).
Local Abbreviation harvestLoop :=
  (harvestLoop fromISO reviewsUrl pages startMs endMs).
Local Abbreviation listReviewsForLocation :=
  (listReviewsForLocation fromISO reviewsUrl pages startMs endMs).
Local Abbreviation Fetched := (Fetched reviewsUrl pages).

Lemma harvestLoop_Fetched fuel : forall k out tok pbc res toks,
  harvestLoop fuel k out tok pbc = (Returned res, toks) ->
  exists ps,
    Fetched k tok ps /\ List.length ps = List.length toks /\
    res = out ++ filter inWindow (List.concat (map pageReviews ps)).
Proof.
  induction fuel as [| fuel IH]; intros k out tok pbc res toks H;
    [ discriminate H | ].
  destruct (getJson (reviewsUrl tok) (pages k tok)) as [j | e] eqn:Hj.
  - rewrite (harvestLoop_step _ _ _ _ _ _ _ _ _ _ _ Hj) in H.
    destruct (stopsAfter fromISO startMs pbc j).
    + injection H as <- <-. exists [j].
      split; [ apply fetched_one, Hj | ]. split; [ reflexivity | ].
      cbn [map List.concat]. rewrite app_nil_r. reflexivity.
    + destruct (harvestLoop fuel (S k) _ _ _) as [h toks'] eqn:Hrec.
      injection H as -> <-.
      destruct (IH _ _ _ _ _ _ Hrec) as (ps & Hf & Hlen & ->).
      exists (j :: ps). split; [ apply fetched_next; assumption | ].
      split; [ cbn; rewrite Hlen; reflexivity | ].
      cbn [map List.concat]. rewrite filter_app, app_assoc. reflexivity.
  - cbn [Reviews.harvestLoop] in H. rewrite Hj in H. discriminate H.
Qed.

(** X17: what a harvest returns is what the pages it fetched hold of
    reviews created in the window, in the order of the feed: one page
    per request, each requested with the cursor of the one before; no
    review of the window on a fetched page is dropped, none is
    repeated or moved. *)
Theorem harvest_is_filter_of_fetched_pages (fuel : nat)
    (res : list RawReview) (toks : list jsstring) :
  listReviewsForLocation fuel = (Returned res, toks) ->
  exists ps,
    Fetched 0%nat [] ps /\ List.length ps = List.length toks /\
    res = filter inWindow (List.concat (map pageReviews ps)).
Proof. intros H. apply (harvestLoop_Fetched _ _ _ _ _ _ _ H). Qed.

End Fetched.

Lemma harvest_is_filter_of_fetched_pages_witness :
  exists ps,
    Fetched (Samples.reviewsUrl (js "1")) (Samples.serve Samples.fivePages)
      0%nat [] ps /\
    List.length ps = 4%nat /\
    [Samples.reviewA2; Samples.reviewA1]
    = filter (Reviews.inWindow Samples.fromISO Samples.startMs Samples.endMs)
        (List.concat (map pageReviews ps)).
Proof.
  apply (harvest_is_filter_of_fetched_pages Samples.fromISO
           (Samples.reviewsUrl (js "1")) (Samples.serve Samples.fivePages)
           Samples.startMs Samples.endMs 10
           [Samples.reviewA2; Samples.reviewA1]
           [[]; js "t1"; js "t2"; js "t3"]).
  vm_compute. reflexivity.
Defined.

End FetchedFacts.

(** ** The harvest on a feed that comes newest first *)

Module FeedFacts.

Import ReviewFeed HarvestFacts.

Lemma StronglySorted_app {A} (R : A -> A -> Prop) (l1 l2 : list A) :
  StronglySorted R (l1 ++ l2) ->
  StronglySorted R l2 /\
  forall x y, In x l1 -> In y l2 -> R x y.
Proof.
  induction l1 as [| a l1 IH]; cbn [app]; intros H.
  - split; [ exact H | intros x y [] ].
  - apply StronglySorted_inv in H. destruct H as [Hs Hall].
    destruct (IH Hs) as [H2 Hxy]. split; [ exact H2 | ].
    intros x y [<- | Hx] Hy.
    + rewrite Forall_forall in Hall. apply Hall, in_app_iff. right. exact Hy.
    + apply Hxy; assumption.
Qed.

Section Feed.

Variable fromISO : jsstring -> option Z.
Variable reviewsUrl : jsstring -> jsstring.
Variable pages : nat -> jsstring -> Fetch ReviewsPage.
Variables startMs endMs : Z.

Local Abbreviation atOrAfterStart := (atOrAfterStart fromISO startMs).
Local Abbreviation inWindow := (inWindow fromISO startMs endMs).
Local Abbreviation staleAfter := (staleAfter fromISO startMs).
Local Abbreviation stopsAfter := (stopsAfter fromISO startMs).
Local Abbreviation harvestLoop :=
  (harvestLoop fromISO reviewsUrl pages startMs endMs).
Local Abbreviation listReviewsForLocation :=
  (listReviewsForLocation fromISO reviewsUrl pages startMs endMs).
Local Abbreviation Feed := (Feed reviewsUrl pages).
Local Abbreviation newestFirst := (newestFirst fromISO).
Local Abbreviation feedReviews :=
  (fun ps : list ReviewsPage => List.concat (map pageReviews ps)).

Lemma inWindow_fresh r : inWindow r = true -> atOrAfterStart r = true.
Proof.
  unfold Reviews.inWindow, Reviews.atOrAfterStart.
  destruct (createdAt fromISO r); [ | discriminate ].
  intros H. apply andb_true_iff in H. apply H.
Qed.

Lemma filter_stale rs :
  (forall r, In r rs -> atOrAfterStart r = false) -> filter inWindow rs = [].
Proof.
  induction rs as [| r rs IH]; intros H; cbn [filter]; [ reflexivity | ].
  destruct (inWindow r) eqn:E.
  - apply inWindow_fresh in E. rewrite (H r) in E by (left; reflexivity).
    discriminate E.
  - apply IH. intros x Hx. apply H. right. exact Hx.
Qed.

Lemma existsb_stale rs :
  existsb atOrAfterStart rs = false ->
  forall r, In r rs -> atOrAfterStart r = false.
Proof.
  intros H r Hr. destruct (atOrAfterStart r) eqn:E; [ | reflexivity ].
  rewrite <- H. symmetry. apply existsb_exists. exists r. auto.
Qed.

(** A review created no later than a review created before the start
    was created before the start. *)
Lemma notOlder_stale a b :
  notOlder fromISO a b -> atOrAfterStart a = false -> atOrAfterStart b = false.
Proof.
  intros (ta & tb & Ha & Hb & Hle). unfold Reviews.atOrAfterStart.
  rewrite Ha, Hb. intros H. apply Z.leb_gt in H. apply Z.leb_gt. lia.
Qed.

Lemma harvest_feed k tok ps :
  Feed k tok ps ->
  forall out pbc fuel,
    (List.length ps <= fuel)%nat ->
    newestFirst (feedReviews ps) ->
    pbc = 0 \/ (pbc = 1 /\ forall r, In r (feedReviews ps) ->
                                     atOrAfterStart r = false) ->
    exists toks,
      harvestLoop fuel k out tok pbc
      = (Returned (out ++ filter inWindow (feedReviews ps)), toks) /\
      (List.length toks <= List.length ps)%nat.
Proof.
  induction 1 as [k tok j Hj Hlast | k tok j ps Hj Hne Hcur Hfeed IH];
    intros out pbc fuel Hfuel Hsorted Hpbc;
    (destruct fuel as [| fuel]; [ cbn in Hfuel; lia | ]);
    rewrite (harvestLoop_step _ _ _ _ _ _ _ _ _ _ _ Hj).
  - assert (Hs : stopsAfter pbc j = true).
    { apply stopsAfter_spec. tauto. }
    rewrite Hs. exists [tok]. cbn [map List.concat]. rewrite app_nil_r.
    split; [ reflexivity | cbn; lia ].
  - cbn [map List.concat] in *.
    apply StronglySorted_app in Hsorted. destruct Hsorted as [Hrest Hcross].
    destruct (stopsAfter pbc j) eqn:Hs.
    + apply stopsAfter_spec in Hs.
      destruct Hs as [Hs | [Hs | Hs]]; [ congruence | | congruence ].
      unfold Reviews.staleAfter in Hs.
      destruct (existsb atOrAfterStart (pageReviews j)) eqn:Ex; [ lia | ].
      destruct Hpbc as [-> | [-> Hall]]; [ lia | ].
      exists [tok]. split; [ | cbn; lia ].
      rewrite filter_app.
      rewrite (filter_stale (List.concat (map pageReviews ps)))
        by (intros r Hr; apply Hall, in_app_iff; right; exact Hr).
      rewrite app_nil_r. reflexivity.
    + assert (Hs' : ~ (pageReviews j = [] \/ 2 <= staleAfter pbc j
                      \/ orEmpty (nextPageToken j) = [])).
      { intros Hc. apply stopsAfter_spec in Hc. congruence. }
      assert (Hnext : staleAfter pbc j = 0
                      \/ (staleAfter pbc j = 1 /\
                          forall r, In r (feedReviews ps) ->
                                    atOrAfterStart r = false)).
      { unfold Reviews.staleAfter in *.
        destruct (existsb atOrAfterStart (pageReviews j)) eqn:Ex;
          [ left; reflexivity | right ].
        assert (Hp : pbc = 0) by (destruct Hpbc as [-> | [-> _]]; lia).
        subst pbc. split; [ reflexivity | ].
        intros r Hr. destruct (pageReviews j) as [| r0 rs0] eqn:Epr;
          [ congruence | ].
        apply (notOlder_stale r0 r).
        - apply Hcross; [ left; reflexivity | exact Hr ].
        - apply (existsb_stale _ Ex). left. reflexivity. }
      destruct (IH (out ++ filter inWindow (pageReviews j))
                  (staleAfter pbc j) fuel) as (toks & Ht & Hlen);
        [ cbn in Hfuel; lia | exact Hrest | exact Hnext | ].
      rewrite Ht. exists (tok :: toks). split; [ | cbn; lia ].
      rewrite filter_app, app_assoc. reflexivity.
Qed.

(** X18: when the feed of a location comes newest first by creation time,
    stopping after two pages without a review created at or after the
    start loses nothing: the harvest returns every review of the whole
    feed that was created in the window, in feed order, and requests at
    most as many pages as the feed has. *)
Theorem harvest_complete_when_newest_first (ps : list ReviewsPage)
    (fuel : nat) :
  Feed 0%nat [] ps ->
  newestFirst (feedReviews ps) ->
  (List.length ps <= fuel)%nat ->
  fst (listReviewsForLocation fuel)
  = Returned (filter inWindow (feedReviews ps)) /\
  (List.length (snd (listReviewsForLocation fuel)) <= List.length ps)%nat.
Proof.
  intros Hfeed Hsorted Hfuel.
  destruct (harvest_feed _ _ _ Hfeed [] 0 fuel Hfuel Hsorted (or_introl eq_refl))
    as (toks & Ht & Hlen).
  unfold Reviews.listReviewsForLocation. rewrite Ht. split; [ reflexivity | exact Hlen ].
Qed.

End Feed.

Lemma harvest_complete_when_newest_first_witness :
  let harvest :=
    listReviewsForLocation Samples.fromISO (Samples.reviewsUrl (js "1"))
      (Samples.serve Scenario.sortedPages) Samples.startMs Samples.endMs 5 in
  fst harvest = Returned [Samples.reviewA2; Samples.reviewA1] /\
  (List.length (snd harvest) <= 5)%nat.
Proof.
  cbv zeta.
  assert (Hf : Feed (Samples.reviewsUrl (js "1"))
                 (Samples.serve Scenario.sortedPages) 0%nat []
                 Scenario.sortedPages).
  { unfold Scenario.sortedPages.
    repeat (first
      [ apply feed_last; [ vm_compute; reflexivity | right; reflexivity ]
      | eapply (feed_next _ _ _ _ _ _);
        [ vm_compute; reflexivity | discriminate | discriminate | ] ]). }
  assert (Hs : newestFirst Samples.fromISO
                 (List.concat (map pageReviews Scenario.sortedPages))).
  { cbn [Scenario.sortedPages map List.concat app pageReviews reviews
         Samples.page].
    repeat (apply SSorted_cons;
            [ | repeat (apply Forall_cons;
                        [ eexists; eexists;
                          split; [ vm_compute; reflexivity | ];
                          split; [ vm_compute; reflexivity | lia ] | ]);
                apply Forall_nil ]).
    apply SSorted_nil. }
  exact (harvest_complete_when_newest_first Samples.fromISO
           (Samples.reviewsUrl (js "1")) (Samples.serve Scenario.sortedPages)
           Samples.startMs Samples.endMs Scenario.sortedPages 5 Hf Hs
           (Nat.le_refl 5)).
Defined.

End FeedFacts.

(** ** The run of [main] *)

Module ProgramFacts.

Import Worker Pool PoolFacts RunFacts Program.

Lemma scenario_workers : Samples.mainWorkers 10 = Some Samples.workers.
Proof. vm_compute. reflexivity. Qed.

Lemma scenario_run :
  Pool.run (ofZ 5) Samples.workers Samples.traceCFirst.
Proof.
  apply runUnder_run with (schedule := Samples.scheduleCFirst).
  vm_compute. reflexivity.
Qed.

Section Main.

Variable env : Env.t.
Variable fromISO : jsstring -> option Z.
Variable toFormat : Z -> jsstring.
Variable toISO : Z -> jsstring.
Variable toUpperCase : jsstring -> jsstring.
Variable encodeURIComponent : jsstring -> jsstring.
Variable metadataUrl : jsstring -> jsstring.
Variable reviewsUrl : jsstring -> jsstring -> jsstring.
Variable locationsUrl : jsstring -> jsstring.
Variables now generatedAt : Z.
Variable tokenFetch : Fetch Token.TokenJson.
Variable locationPages : nat -> jsstring -> Fetch Locations.LocationsPage.
Variable net : nat -> Net.
Variable post : Make.Payload -> Fetch unit.

Local Abbreviation main :=
  (main env fromISO toFormat toISO toUpperCase encodeURIComponent
     metadataUrl reviewsUrl locationsUrl now generatedAt tokenFetch
     locationPages net post).
Local Abbreviation metaBase := (metaBase env toISO generatedAt).
Local Abbreviation listing :=
  (fun fuel => fst (Locations.listLocations locationsUrl locationPages fuel)).
Local Abbreviation token := (fst (Token.getAccessToken env tokenFetch)).

(** The keys [main] checks before anything else. *)
Local Abbreviation required :=
  [ (js "GBP_ACCOUNT_ID", Env.GBP_ACCOUNT_ID env);
    (js "MAKE_REVIEWS_WEBHOOK_URL", Env.MAKE_REVIEWS_WEBHOOK_URL env);
    (js "PREFILL_API_URL", Env.PREFILL_API_URL env);
    (js "PREFILL_SECRET", Env.PREFILL_SECRET env) ].

Lemma checkEnv_cases :
  (checkEnv env = Ok tt /\ forall kv, In kv required -> snd kv <> []) \/
  exists key,
    In (key, []) required /\
    checkEnv env = Throw (newError (js "Missing env: " ++ key)).
Proof.
  unfold checkEnv, Env.mustEnv.
  destruct (Env.GBP_ACCOUNT_ID env) as [| c1 l1] eqn:E1; cbn [truthy negb].
  { right. eexists. split; [ left; reflexivity | reflexivity ]. }
  destruct (Env.MAKE_REVIEWS_WEBHOOK_URL env) as [| c2 l2] eqn:E2;
    cbn [truthy negb].
  { right. eexists. split; [ right; left; reflexivity | reflexivity ]. }
  destruct (Env.PREFILL_API_URL env) as [| c3 l3] eqn:E3; cbn [truthy negb].
  { right. eexists. split; [ right; right; left; reflexivity | reflexivity ]. }
  destruct (Env.PREFILL_SECRET env) as [| c4 l4] eqn:E4; cbn [truthy negb].
  { right. eexists.
    split; [ right; right; right; left; reflexivity | reflexivity ]. }
  left. split; [ reflexivity | ].
  intros kv [<- | [<- | [<- | [<- | []]]]]; discriminate.
Qed.

(** X19: [main] refuses to start without its configuration: when the
    account id, the webhook URL, the prefill URL or the prefill secret
    is empty, every run ends with the error ["Missing env: KEY"] of
    such a key, and nothing is posted, although a failing prefill call
    would otherwise only mark the records. *)
Theorem main_requires_configuration (fuel : nat) (outcome : Result unit)
    (sent : list Make.Payload) :
  Env.GBP_ACCOUNT_ID env = [] \/ Env.MAKE_REVIEWS_WEBHOOK_URL env = []
  \/ Env.PREFILL_API_URL env = [] \/ Env.PREFILL_SECRET env = [] ->
  main fuel outcome sent ->
  sent = [] /\
  exists key,
    In (key, []) required /\
    outcome = Throw (newError (js "Missing env: " ++ key)).
Proof.
  intros Hmissing Hmain. unfold Program.main in Hmain.
  destruct checkEnv_cases as [[_ Hall] | (key & Hkey & Hc)].
  - exfalso.
    destruct Hmissing as [H | [H | [H | H]]].
    + apply (Hall (_, _) (or_introl eq_refl)). exact H.
    + apply (Hall (_, _) (or_intror (or_introl eq_refl))). exact H.
    + apply (Hall (_, _) (or_intror (or_intror (or_introl eq_refl)))). exact H.
    + apply (Hall (_, _)
               (or_intror (or_intror (or_intror (or_introl eq_refl))))).
      exact H.
  - rewrite Hc in Hmain. destruct Hmain as [-> ->].
    split; [ reflexivity | ]. exists key. split; [ exact Hkey | reflexivity ].
Qed.


(** X21: a run that ends well has posted all its payloads: the
    configuration was complete, the token and the listing were
    obtained, and the payloads posted, at least one and all accepted by
    the webhook, are those built from the records collected from the
    locations listed; they carry the number of locations and the number
    of records collected, and every record collected is that of a
    review created on the Berlin calendar day before that of the run.
    Unless the batch size is [NaN], the data of the payloads are the
    records collected; with a batch size that is [NaN] the run ends
    well all the same after posting one payload without any record. *)
Theorem main_delivers_yesterday (fuel : nat) (sent : list Make.Payload) :
  main fuel (Ok tt) sent ->
  exists locations items,
    listing fuel = Locations.Listed locations /\
    Main.collects env fromISO toFormat toUpperCase encodeURIComponent
      metadataUrl reviewsUrl
      (fst (Luxon.getYesterdayRangeBerlin now))
      (snd (Luxon.getYesterdayRangeBerlin now)) net fuel locations items /\
    sent
    = Make.payloads
        (metaBase (fst (Luxon.getYesterdayRangeBerlin now))
           (snd (Luxon.getYesterdayRangeBerlin now))
           (List.length locations) (List.length items))
        items (Env.MAKE_BATCH_SIZE env) /\
    sent <> [] /\
    (Env.MAKE_BATCH_SIZE env <> NaN ->
     List.concat (map Make.data sent) = items) /\
    (Env.MAKE_BATCH_SIZE env = NaN -> map Make.data sent = [[]]) /\
    Forall (fun p =>
              Make.count_total (Make.meta p) = Z.of_nat (List.length items) /\
              Make.locations_total (Make.meta p)
              = Z.of_nat (List.length locations) /\
              Make.account_id (Make.meta p) = Env.GBP_ACCOUNT_ID env /\
              Make.postToMake env (post p) = Ok tt) sent /\
    Forall (fun it =>
              exists ct ms,
                ct <> [] /\ fromISO ct = Some ms /\
                Luxon.localDay Luxon.berlinDST ms
                = Luxon.localDay Luxon.berlinDST now - 1 /\
                Make.reviewed_at it = toFormat ms) items.
Proof.
  unfold Program.main. intros Hmain.
  destruct (checkEnv env) as [[] | e0]; [ | destruct Hmain; discriminate ].
  pose proof (WindowFacts.window_day Luxon.berlinDST now) as Hday.
  fold (Luxon.getYesterdayRangeBerlin now) in Hday.
  destruct (Luxon.getYesterdayRangeBerlin now) as [s e]. cbn [fst snd].
  destruct token as [tok | e1]; [ | destruct Hmain; discriminate ].
  destruct (listing fuel) as [locs | e2 | out];
    [ | destruct Hmain; discriminate | destruct Hmain ].
  destruct Hmain as (items & Hcol & Hsend).
  exists locs, items. split; [ reflexivity | ]. split; [ exact Hcol | ].
  destruct (SendFacts.sendAll_spec _ _ _ _ _ Hsend)
    as [(_ & -> & Hall) | (e3 & pre & p & rest & Hr & _)];
    [ | discriminate Hr ].
  split; [ reflexivity | ].
  split; [ apply DeliveryFacts.payloads_nonempty | ].
  split; [ apply ChunkFacts.payloads_concat | ].
  split.
  { intros E. rewrite ChunkFacts.payloads_data, E.
    apply ChunkFacts.chunksToSend_NaN. }
  split.
  - pose proof (DeliveryFacts.payloads_Forall
                  (metaBase s e (List.length locs) (List.length items))
                  items (Env.MAKE_BATCH_SIZE env)) as Hmeta.
    rewrite Forall_forall in *. intros p Hp.
    destruct (Hmeta p Hp) as (-> & _).
    cbn [Program.metaBase Make.count_total Make.locations_total
         Make.account_id].
    repeat split. apply Hall, Hp.
  - destruct Hcol as (ws & tr & Hws & Hrun & ->).
    apply Forall_forall. intros it Hit.
    apply run_Merge, Merge_pushed in Hrun.
    apply (Merge_In _ _ Hrun) in Hit. destruct Hit as (p & Hp & Hit).
    apply in_map_iff in Hp. destruct Hp as (w & <- & Hw).
    destruct (workers_In _ _ _ _ _ _ _ _ _ _ _ _ _ _ Hws Hw)
      as (j & loc & _ & Hwk).
    destruct (worker_inWindow _ _ _ _ _ _ _ _ _ _ _ _ _ _ Hwk Hit)
      as (ct & ms & Hne & Hms & Hrange & Hat).
    exists ct, ms. repeat split; try assumption.
    apply Hday. exact Hrange.
Qed.

(** X22: [main] ends whenever the listing and the harvests end: with an
    error, or after posting its payloads. *)
Theorem main_always_ends (fuel : nat) :
  (forall out, listing fuel <> Locations.ListUnfinished out) ->
  (forall locations,
      listing fuel = Locations.Listed locations ->
      Main.workers env fromISO toFormat toUpperCase encodeURIComponent
        metadataUrl reviewsUrl
        (fst (Luxon.getYesterdayRangeBerlin now))
        (snd (Luxon.getYesterdayRangeBerlin now)) net fuel locations
      <> None) ->
  exists outcome sent, main fuel outcome sent.
Proof.
  intros Hlist Hwork. unfold Program.main.
  destruct (checkEnv env) as [[] | e0]; [ | exists (Throw e0), []; auto ].
  destruct (Luxon.getYesterdayRangeBerlin now) as [s e]. cbn [fst snd] in *.
  destruct token as [tok | e1]; [ | exists (Throw e1), []; auto ].
  destruct (listing fuel) as [locs | e2 | out] eqn:Hl;
    [ | exists (Throw e2), []; auto | destruct (Hlist out eq_refl) ].
  specialize (Hwork locs eq_refl).
  destruct (Main.workers env fromISO toFormat toUpperCase encodeURIComponent
              metadataUrl reviewsUrl s e net fuel locs) as [ws |] eqn:Hws;
    [ | congruence ].
  destruct (run_exists (Env.CONCURRENCY env) ws) as [tr Hrun].
  destruct (Make.sendAll env post
              (Make.payloads
                 (metaBase s e (List.length locs) (List.length (pushed tr)))
                 (pushed tr) (Env.MAKE_BATCH_SIZE env)))
    as [sent r] eqn:Hsend.
  exists r, sent, (pushed tr). split; [ | exact Hsend ].
  exists ws, tr. auto.
Qed.

End Main.

End ProgramFacts.

(** ** The properties above on the sample run *)

Module ScenarioFacts.
Import Worker Pool PoolFacts RunFacts Program ProgramFacts.

Lemma listLocations_all_pages_witness :
  Locations.listLocations Scenario.locationsUrl Scenario.locationPages 10
  = (Locations.Listed Samples.locations, [[]; js "p2"]).
Proof.
  refine (proj1 (LocationsFacts.listLocations_all_pages
                   Scenario.locationsUrl Scenario.locationPages
                   Scenario.locationsPages 10 _ _)).
  - apply Locations.chain_next; [ vm_compute; reflexivity | discriminate | ].
    apply Locations.chain_last; vm_compute; reflexivity.
  - cbn. lia.
Defined.

Lemma record_location_fields_witness :
  match pushed Samples.workerA with
  | it :: _ =>
      Make.locationId it = js "1" /\ Make.storeCode it = Some (js "A") /\
      Make.maps_uri it = Some (js "https://maps.example/A") /\
      Make.maps_place_url it = None
  | [] => False
  end.
Proof.
  assert (Hw : Samples.worker 10 Samples.netA Samples.locationA
               = Some Samples.workerA) by (vm_compute; reflexivity).
  destruct (pushed Samples.workerA) as [| it l] eqn:E;
    [ vm_compute in E; discriminate E | ].
  assert (Hin : In it (pushed Samples.workerA))
    by (rewrite E; left; reflexivity).
  destruct (RecordFacts.record_location_fields Samples.env Samples.fromISO
              Samples.toFormat asciiToUpperCase Samples.encodeURIComponent
              Samples.metadataUrl Samples.reviewsUrl Samples.startMs
              Samples.endMs 10 Samples.netA Samples.locationA
              Samples.workerA it Hw Hin)
    as (H1 & _ & _ & H4 & _ & H6 & H7 & _).
  destruct H7 as (H7 & _ & H9); [ left; discriminate | ].
  rewrite H1, H4, H6, H7, H9. vm_compute. repeat split.
Defined.

Lemma reviews_independent_of_metadata_witness :
  exists w',
    Samples.worker 10 Scenario.netA' Samples.locationA = Some w' /\
    logged w' = logged Samples.workerA /\
    map Record.reviewFields (pushed w')
    = map Record.reviewFields (pushed Samples.workerA).
Proof.
  apply (RecordFacts.reviews_independent_of_metadata Samples.env
           Samples.fromISO Samples.toFormat asciiToUpperCase
           Samples.encodeURIComponent Samples.metadataUrl Samples.reviewsUrl
           Samples.startMs Samples.endMs 10 Samples.netA Scenario.netA'
           Samples.locationA Samples.workerA).
  - reflexivity.
  - vm_compute. reflexivity.
Defined.

Lemma scenario_main :
  Scenario.main Samples.env Scenario.tokenFetch 10 (Ok tt) Scenario.payloads.
Proof.
  unfold Scenario.main, Program.main.
  assert (E1 : checkEnv Samples.env = Ok tt) by (vm_compute; reflexivity).
  assert (E2 : Luxon.getYesterdayRangeBerlin Scenario.now
               = (Samples.startMs, Samples.endMs))
    by (vm_compute; reflexivity).
  assert (E3 : fst (Token.getAccessToken Samples.env Scenario.tokenFetch)
               = Ok (js "ya29.a0")) by (vm_compute; reflexivity).
  assert (E4 : fst (Locations.listLocations Scenario.locationsUrl
                      Scenario.locationPages 10)
               = Locations.Listed Samples.locations)
    by (vm_compute; reflexivity).
  rewrite E1, E2, E3, E4.
  exists Samples.itemsCFirst. split.
  - exists Samples.workers, Samples.traceCFirst.
    split; [ exact scenario_workers | ].
    split; [ exact scenario_run | reflexivity ].
  - vm_compute. reflexivity.
Qed.

Lemma main_requires_configuration_witness :
  Scenario.main Scenario.envNoWebhook Scenario.tokenFetch 10
    (Throw (newError (js "Missing env: MAKE_REVIEWS_WEBHOOK_URL"))) [] /\
  exists key,
    In key [js "GBP_ACCOUNT_ID"; js "MAKE_REVIEWS_WEBHOOK_URL";
            js "PREFILL_API_URL"; js "PREFILL_SECRET"] /\
    Throw (newError (js "Missing env: MAKE_REVIEWS_WEBHOOK_URL"))
    = Throw (A := unit) (newError (js "Missing env: " ++ key)).
Proof.
  assert (Hm : Scenario.main Scenario.envNoWebhook Scenario.tokenFetch 10
                 (Throw (newError (js "Missing env: MAKE_REVIEWS_WEBHOOK_URL")))
                 []).
  { unfold Scenario.main, Program.main.
    assert (E1 : checkEnv Scenario.envNoWebhook
                 = Throw (newError (js "Missing env: MAKE_REVIEWS_WEBHOOK_URL")))
      by (vm_compute; reflexivity).
    rewrite E1. split; reflexivity. }
  split; [ exact Hm | ].
  pose proof Hm as Hm'. unfold Scenario.main in Hm'.
  apply main_requires_configuration in Hm'; [ | right; left; reflexivity ].
  destruct Hm' as (_ & key & Hk & He).
  exists key. split; [ | exact He ].
  destruct Hk as [[= <-] | [[= <-] | [[= <-] | [[= <-] | []]]]]; cbn; auto.
Defined.


(** The sample run with [MAKE_BATCH_SIZE=abc]: it ends well. *)
Lemma scenario_main_NaN :
  Scenario.main Scenario.envNaN Scenario.tokenFetch 10 (Ok tt)
    Scenario.payloadsNaN.
Proof.
  unfold Scenario.main, Program.main.
  assert (E1 : checkEnv Scenario.envNaN = Ok tt) by (vm_compute; reflexivity).
  assert (E2 : Luxon.getYesterdayRangeBerlin Scenario.now
               = (Samples.startMs, Samples.endMs))
    by (vm_compute; reflexivity).
  assert (E3 : fst (Token.getAccessToken Scenario.envNaN Scenario.tokenFetch)
               = Ok (js "ya29.a0")) by (vm_compute; reflexivity).
  assert (E4 : fst (Locations.listLocations Scenario.locationsUrl
                      Scenario.locationPages 10)
               = Locations.Listed Samples.locations)
    by (vm_compute; reflexivity).
  rewrite E1, E2, E3, E4.
  exists Samples.itemsCFirst. split.
  - exists Samples.workers, Samples.traceCFirst.
    split; [ vm_compute; reflexivity | ].
    split; [ exact scenario_run | reflexivity ].
  - vm_compute. reflexivity.
Qed.

(** The sample run, and the same run with [MAKE_BATCH_SIZE=abc], in
    which the three records collected are not posted. *)
Lemma main_delivers_yesterday_witness :
  (Scenario.main Samples.env Scenario.tokenFetch 10 (Ok tt) Scenario.payloads /\
   Scenario.payloads <> [] /\
   exists items,
     List.concat (map Make.data Scenario.payloads) = items /\
     Forall (fun it =>
               exists ct ms,
                 ct <> [] /\ Samples.fromISO ct = Some ms /\
                 Luxon.localDay Luxon.berlinDST ms
                 = Luxon.localDay Luxon.berlinDST Scenario.now - 1 /\
                 Make.reviewed_at it = Samples.toFormat ms) items) /\
  (Scenario.main Scenario.envNaN Scenario.tokenFetch 10 (Ok tt)
     Scenario.payloadsNaN /\
   map Make.data Scenario.payloadsNaN = [[]] /\
   Forall (fun p => Make.count_total (Make.meta p) = 3)
     Scenario.payloadsNaN).
Proof.
  split.
  - split; [ exact scenario_main | ].
    pose proof scenario_main as Hm. unfold Scenario.main in Hm.
    apply main_delivers_yesterday in Hm.
    destruct Hm as (locs & items & _ & _ & _ & Hne & Hc & _ & _ & Hy).
    split; [ exact Hne | ]. exists items.
    split; [ apply Hc; discriminate | exact Hy ].
  - split; [ exact scenario_main_NaN | ].
    pose proof scenario_main_NaN as Hm. unfold Scenario.main in Hm.
    apply main_delivers_yesterday in Hm.
    destruct Hm as (locs & items & _ & _ & _ & _ & _ & Hnan & _).
    split; [ apply Hnan; reflexivity | ].
    vm_compute. repeat constructor.
Defined.

Lemma main_always_ends_witness :
  exists outcome sent,
    Scenario.main Samples.env Scenario.tokenFetch 10 outcome sent.
Proof.
  assert (E4 : fst (Locations.listLocations Scenario.locationsUrl
                      Scenario.locationPages 10)
               = Locations.Listed Samples.locations)
    by (vm_compute; reflexivity).
  unfold Scenario.main. apply main_always_ends.
  - intros out. rewrite E4. discriminate.
  - intros locs. rewrite E4. intros [= <-]. vm_compute. discriminate.
Defined.

End ScenarioFacts.
